(** * pubsub-goldberg: pointer selection and portal transit

    A shallow embedding of [src/ui-selection.js] (class [UISelection]) and of
    [portal.js] (class [Portal]), with the properties of the repository's
    specification stated and settled against them.

    Conventions of the embedding.
    - JavaScript numbers are idealised as real numbers ([R]); [Math.cos],
      [Math.sin], [Math.sqrt], [Math.abs] and [Math.PI] are the functions of
      the real-number library, [%] and [Math.atan2] are defined below from
      their ECMAScript definitions. Where the value of [Math.PI] decides an
      exact result, in the inbound velocity of [onMessage], the constant is
      a parameter of the handler, examined both at pi and at the double
      that [Math.PI] is.
    - Scene objects are heap objects compared by reference: they are
      addressed by a natural-number identity and live in a finite map.
    - Handler closures ([onDown], [onSelected], ...) belong to other classes.
      Their invocation is recorded, in order, in a call log. They are taken
      to leave alone the manager's state and the capability records of the
      objects already registered: the handlers of [portal.js] and [note.js]
      redraw their owner, which registers newly created meshes only.
    - A JavaScript [TypeError] aborts the running handler: the state keeps
      what was written before the throw. *)

From Stdlib Require Import Reals Lra Lia ZArith Ascii String.
From stdpp Require Import base decidable option list gmap strings.

Local Open Scope R_scope.

(** ** JavaScript arithmetic over the reals *)

Module JsNum.

#[global] Instance Rlt_decision : RelDecision Rlt := Rlt_dec.
#[global] Instance Rle_decision : RelDecision Rle := Rle_dec.
#[global] Instance Rgt_decision : RelDecision Rgt := Rgt_dec.
#[global] Instance Req_decision : EqDecision R := Req_dec_T.

(** Truncation toward zero, the rounding of the [%] operator. *)
Definition trunc (r : R) : Z :=
  if decide (0 <= r) then Int_part r else (- Int_part (- r))%Z.

(** [x % m]: the remainder has the sign of the dividend. *)
Definition rem (x m : R) : R := x - m * IZR (trunc (x / m)).

(** [Math.atan2(y, x)], the angle of the point [(x, y)] in (-PI, PI]. *)
Definition atan2 (y x : R) : R :=
  if decide (0 < x) then atan (y / x)
  else if decide (x < 0) then
    (if decide (0 <= y) then atan (y / x) + PI else atan (y / x) - PI)
  else if decide (0 < y) then PI / 2
  else if decide (y < 0) then - (PI / 2)
  else 0.

(** [Math.PI]: the double nearest to pi, 0x400921FB54442D18, which is
    884279719003555 / 2^48. The development takes [Math.PI] to be [PI]
    wherever the difference does not matter; where it does, the constant
    is a parameter of the model and is instantiated with this value. *)
Definition Math_PI : R := 884279719003555 / 281474976710656.

End JsNum.

(** ** Geometry utilities *)

Module Geometry.

Record Vec2 := mkVec2 { vx : R; vy : R }.
Record Vec3 := mkVec3 { px : R; py : R; pz : R }.

Definition vsub (a b : Vec3) : Vec3 :=
  mkVec3 (px a - px b) (py a - py b) (pz a - pz b).
Definition vadd (a b : Vec3) : Vec3 :=
  mkVec3 (px a + px b) (py a + py b) (pz a + pz b).
Definition vscale (a : Vec3) (k : R) : Vec3 :=
  mkVec3 (px a * k) (py a * k) (pz a * k).
Definition vzero : Vec3 := mkVec3 0 0 0.

(** Modelled from the spec: [utils.rotatePoint] lives in [utils.js], which is
    not among the sources. The specification calls it "point rotation about
    an arbitrary center"; its call sites give the argument order
    [(cx, cy, x, y, angle)] and a two-element result. The rotation is taken
    counter-clockwise for a positive angle. *)
Definition rotatePoint (cx cy x y angle : R) : R * R :=
  (cx + (x - cx) * cos angle - (y - cy) * sin angle,
   cy + (x - cx) * sin angle + (y - cy) * cos angle).

End Geometry.

(** ** The selection manager: [src/ui-selection.js] *)

Module UISelection.
Import Geometry.

Inductive Material := MkMaterial (n : nat).
Inductive ConfigForm := MkConfigForm (n : nat).

(** The options handed to [registerObject]. A flag is the truthiness of the
    JavaScript value; a handler is present or absent. *)
Record Opts := mkOpts {
  opt_moveable : bool;
  opt_rotatable : bool;
  opt_selectable : bool;
  opt_onDown : bool;
  opt_onDelete : bool;
  opt_onDragStart : bool;
  opt_onRotateStart : bool;
  opt_onRotate : bool;
  opt_onMove : bool;
  opt_onUp : bool;
  opt_onSelected : bool;
  opt_onUnselected : bool;
  opt_selectedMaterial : option Material;
  opt_configForm : option ConfigForm }.

(** [obj.userData.uisInfo]: the capability record. [unselectedMaterial] is
    the field [selectObject] adds to it. [registerObject] copies no
    [deleteable] field, so the [showDeleteButton] branch of [selectObject]
    never runs and is left out. *)
Record UisInfo := mkUisInfo {
  moveable : bool;
  rotatable : bool;
  selectable : bool;
  has_onDown : bool;
  has_onDelete : bool;
  has_onDragStart : bool;
  has_onRotateStart : bool;
  has_onRotate : bool;
  has_onMove : bool;
  has_onUp : bool;
  has_onSelected : bool;
  has_onUnselected : bool;
  selectedMaterial : option Material;
  configForm : option ConfigForm;
  unselectedMaterial : option Material }.

(** A scene object as the manager sees it. *)
Record SceneObj := mkSceneObj {
  uisInfo : option UisInfo;
  material : Material;
  rotation : Vec3 }.

(** What the manager calls on its collaborators, most recent first. *)
Inductive Call :=
| CallOnDown (o : nat) (pos : Vec3)
| CallOnUp (o : nat) (pos : Vec3)
| CallOnMove (o : nat) (pos delta : Vec3)
| CallOnSelected (o : nat)
| CallOnUnselected (o : nat)
| CallOnDelete (o : nat)
| CallShowConfigForm (f : ConfigForm)
| CallClearConfigForm
| ThrowTypeError.

(** [this.state]. The constructor writes the first four fields; the others
    start undefined, read here as [false] and [None]. *)
Record State := mkState {
  selectedObject : option nat;
  isDragging : bool;
  posAtMouseDown : option Vec3;
  rotAtMouseDown : option Vec3;
  persistentSelectable : bool;
  persistentSelected : bool;
  prevPos : option Vec3;
  deltaPos : option Vec3;
  ctrlKey : bool }.

Record UIS := mkUIS {
  camera : Vec3;
  selectAllowedRange : R;
  state : State;
  heap : gmap nat SceneObj;
  formShown : option ConfigForm;
  calls : list Call }.

(** The nearest hit of the pick ray, as the ray caster returns it. *)
Record Intersect := mkIntersect { object : nat; point : Vec3 }.

(** A pointer event: the pick result [getObjectIntersectFromEvent] obtains
    for it, the normalised direction of its ray from the camera (the value
    of [vec] in [getMousePosGivenZ] after [unproject], [sub] and
    [normalize]), and the control-key flag. *)
Record PointerEvent := mkPointerEvent {
  intersect : option Intersect;
  ray : Vec3;
  ev_ctrlKey : bool }.

Definition defaultSelectAllowedRange : R := 15.

Definition initState : State :=
  mkState None false None None false false None None false.

(** [opts.selectAllowedRange || defaultSelectAllowedRange] *)
Definition constructor (cam : Vec3) (range : option R) (h : gmap nat SceneObj) : UIS :=
  mkUIS cam
    (match range with
     | Some r => if decide (r = 0) then defaultSelectAllowedRange else r
     | None => defaultSelectAllowedRange
     end)
    initState h None [].

(** *** Field updates *)

Definition with_state (s : State) (w : UIS) : UIS :=
  mkUIS (camera w) (selectAllowedRange w) s (heap w) (formShown w) (calls w).
Definition with_heap (h : gmap nat SceneObj) (w : UIS) : UIS :=
  mkUIS (camera w) (selectAllowedRange w) (state w) h (formShown w) (calls w).
Definition with_form (f : option ConfigForm) (w : UIS) : UIS :=
  mkUIS (camera w) (selectAllowedRange w) (state w) (heap w) f (calls w).
Definition call (c : Call) (w : UIS) : UIS :=
  mkUIS (camera w) (selectAllowedRange w) (state w) (heap w) (formShown w) (c :: calls w).

Definition set_selectedObject (v : option nat) (s : State) : State :=
  mkState v (isDragging s) (posAtMouseDown s) (rotAtMouseDown s)
    (persistentSelectable s) (persistentSelected s) (prevPos s) (deltaPos s) (ctrlKey s).
Definition set_isDragging (v : bool) (s : State) : State :=
  mkState (selectedObject s) v (posAtMouseDown s) (rotAtMouseDown s)
    (persistentSelectable s) (persistentSelected s) (prevPos s) (deltaPos s) (ctrlKey s).
Definition set_posAtMouseDown (v : option Vec3) (s : State) : State :=
  mkState (selectedObject s) (isDragging s) v (rotAtMouseDown s)
    (persistentSelectable s) (persistentSelected s) (prevPos s) (deltaPos s) (ctrlKey s).
Definition set_rotAtMouseDown (v : option Vec3) (s : State) : State :=
  mkState (selectedObject s) (isDragging s) (posAtMouseDown s) v
    (persistentSelectable s) (persistentSelected s) (prevPos s) (deltaPos s) (ctrlKey s).
Definition set_persistentSelectable (v : bool) (s : State) : State :=
  mkState (selectedObject s) (isDragging s) (posAtMouseDown s) (rotAtMouseDown s)
    v (persistentSelected s) (prevPos s) (deltaPos s) (ctrlKey s).
Definition set_persistentSelected (v : bool) (s : State) : State :=
  mkState (selectedObject s) (isDragging s) (posAtMouseDown s) (rotAtMouseDown s)
    (persistentSelectable s) v (prevPos s) (deltaPos s) (ctrlKey s).
Definition set_prevPos (v : option Vec3) (s : State) : State :=
  mkState (selectedObject s) (isDragging s) (posAtMouseDown s) (rotAtMouseDown s)
    (persistentSelectable s) (persistentSelected s) v (deltaPos s) (ctrlKey s).
Definition set_deltaPos (v : option Vec3) (s : State) : State :=
  mkState (selectedObject s) (isDragging s) (posAtMouseDown s) (rotAtMouseDown s)
    (persistentSelectable s) (persistentSelected s) (prevPos s) v (ctrlKey s).
Definition set_ctrlKey (v : bool) (s : State) : State :=
  mkState (selectedObject s) (isDragging s) (posAtMouseDown s) (rotAtMouseDown s)
    (persistentSelectable s) (persistentSelected s) (prevPos s) (deltaPos s) v.

Definition upd_state (f : State -> State) (w : UIS) : UIS := with_state (f (state w)) w.

Definition set_material (m : Material) (o : SceneObj) : SceneObj :=
  mkSceneObj (uisInfo o) m (rotation o).
Definition set_uisInfo (i : option UisInfo) (o : SceneObj) : SceneObj :=
  mkSceneObj i (material o) (rotation o).
Definition set_unselectedMaterial (m : option Material) (i : UisInfo) : UisInfo :=
  mkUisInfo (moveable i) (rotatable i) (selectable i) (has_onDown i) (has_onDelete i)
    (has_onDragStart i) (has_onRotateStart i) (has_onRotate i) (has_onMove i)
    (has_onUp i) (has_onSelected i) (has_onUnselected i) (selectedMaterial i)
    (configForm i) m.

(** *** Registration *)

(** [getUisInfo(obj)]: [obj && obj.userData && obj.userData.uisInfo] *)
Definition getUisInfo (obj : option nat) (w : UIS) : option UisInfo :=
  o ← obj; so ← heap w !! o; uisInfo so.

Definition setUisInfo (obj : nat) (i : option UisInfo) (w : UIS) : UIS :=
  match heap w !! obj with
  | Some so => with_heap (<[obj := set_uisInfo i so]> (heap w)) w
  | None => w
  end.

Definition registerObject (obj : nat) (opts : Opts) (w : UIS) : UIS :=
  setUisInfo obj
    (Some (mkUisInfo (opt_moveable opts) (opt_rotatable opts) (opt_selectable opts)
             (opt_onDown opts) (opt_onDelete opts) (opt_onDragStart opts)
             (opt_onRotateStart opts) (opt_onRotate opts) (opt_onMove opts)
             (opt_onUp opts) (opt_onSelected opts) (opt_onUnselected opts)
             (opt_selectedMaterial opts) (opt_configForm opts) None)) w.

Definition unregisterObject (obj : nat) (w : UIS) : UIS := setUisInfo obj None w.

(** *** Pointer geometry *)

(** [getMousePosGivenZ(event, targetZ)]:
    [distance = (targetZ - camera.position.z) / vec.z] and
    [pos = camera.position + vec * distance]. *)
Definition getMousePosGivenZ (e : PointerEvent) (targetZ : R) (w : UIS) : Vec3 :=
  let distance := (targetZ - pz (camera w)) / pz (ray e) in
  vadd (camera w) (vscale (ray e) distance).

(** *** Selecting and unselecting *)

Definition selectObject (obj : option nat) (w : UIS) : UIS :=
  match obj with
  | None => w
  | Some o =>
    match heap w !! o with
    | None => w
    | Some so =>
      match uisInfo so with
      | None => w
      | Some info =>
        let w1 := if has_onSelected info then call (CallOnSelected o) w else w in
        let w2 := upd_state (fun s => set_persistentSelected true (set_selectedObject (Some o) s)) w1 in
        let w3 :=
          match selectedMaterial info with
          | Some m =>
            with_heap (<[o := mkSceneObj (Some (set_unselectedMaterial (Some (material so)) info))
                                         m (rotation so)]> (heap w2)) w2
          | None => w2
          end in
        match configForm info with
        | Some f => with_form (Some f) (call (CallShowConfigForm f) w3)
        | None => w3
        end
      end
    end
  end.

Definition unselectObject (obj : option nat) (w : UIS) : UIS :=
  let obj := match obj with Some o => Some o | None => selectedObject (state w) end in
  match obj with
  | None => w
  | Some o =>
    match heap w !! o with
    | None => w
    | Some so =>
      match uisInfo so with
      | None => w
      | Some info =>
        let w1 := if has_onUnselected info then call (CallOnUnselected o) w else w in
        let w2 := upd_state (fun s => set_selectedObject None (set_persistentSelected false s)) w1 in
        let w3 := with_form None (call CallClearConfigForm w2) in
        match unselectedMaterial info with
        | Some m => with_heap (<[o := set_material m so]> (heap w3)) w3
        | None => w3
        end
      end
    end
  end.

Definition deleteSelectedObject (force : bool) (w : UIS) : UIS :=
  let obj := selectedObject (state w) in
  match obj, getUisInfo obj w with
  | Some o, Some info =>
    if persistentSelected (state w) || force then
      let w1 := unselectObject (Some o) w in
      if has_onDelete info then call (CallOnDelete o) w1 else w1
    else w
  | _, _ => w
  end.

Definition deletePointerUp (w : UIS) : UIS :=
  if isDragging (state w) then deleteSelectedObject true w else w.

(** *** Pointer handlers *)

Definition onDown (e : PointerEvent) (w : UIS) : UIS :=
  match intersect e with
  | None => w
  | Some hit =>
    let obj := object hit in
    let w1 :=
      if persistentSelected (state w)
         && negb (bool_decide (selectedObject (state w) = Some obj))
      then unselectObject (selectedObject (state w)) w
      else w in
    match heap w1 !! obj with
    | None => w1
    | Some so =>
      match uisInfo so with
      | None => w1
      | Some info =>
        let pos := getMousePosGivenZ e (pz (point hit)) w1 in
        let w2 :=
          upd_state (fun s =>
            set_prevPos (Some pos)
              (set_rotAtMouseDown (Some (rotation so))
                 (set_posAtMouseDown (Some pos)
                    (set_persistentSelectable (selectable info)
                       (set_selectedObject (Some obj) s))))) w1 in
        let w3 := if moveable info then upd_state (set_isDragging true) w2 else w2 in
        if has_onDown info
        then call (CallOnDown obj pos) (upd_state (set_ctrlKey (ev_ctrlKey e)) w3)
        else w3
      end
    end
  end.

Definition onUp (e : PointerEvent) (w : UIS) : UIS :=
  let obj := selectedObject (state w) in
  match obj, getUisInfo obj w with
  | Some o, Some info =>
    let w1 :=
      if selectable info && persistentSelectable (state w)
      then selectObject (Some o) w
      else upd_state (fun s => set_persistentSelected false (set_selectedObject None s)) w in
    if has_onUp info then
      match posAtMouseDown (state w1) with
      | None => call ThrowTypeError w1
      | Some p0 =>
        let pos := getMousePosGivenZ e (pz p0) w1 in
        upd_state (set_isDragging false)
          (call (CallOnUp o pos) (upd_state (set_ctrlKey (ev_ctrlKey e)) w1))
      end
    else upd_state (set_isDragging false) w1
  | _, _ => upd_state (set_isDragging false) w
  end.

(** The planar distance [Math.sqrt(dx*dx + dy*dy)] of [onMove]. *)
Definition planarDist (p q : Vec3) : R :=
  let dx := px p - px q in
  let dy := py p - py q in
  sqrt (dx * dx + dy * dy).

Definition onMove (e : PointerEvent) (w : UIS) : UIS :=
  if negb (isDragging (state w)) then w
  else
    let obj := selectedObject (state w) in
    match obj, getUisInfo obj w with
    | Some o, Some info =>
      match posAtMouseDown (state w) with
      | None => call ThrowTypeError w
      | Some p0 =>
        let pos := getMousePosGivenZ e (pz p0) w in
        let w1 :=
          if selectable info && bool_decide (planarDist pos p0 > selectAllowedRange w)
          then upd_state (set_persistentSelectable false) w
          else w in
        if has_onMove info then
          match prevPos (state w1) with
          | None => call ThrowTypeError w1
          | Some pp =>
            let delta := vsub pos pp in
            upd_state (set_prevPos (Some pos))
              (call (CallOnMove o pos delta)
                 (upd_state (fun s => set_ctrlKey (ev_ctrlKey e) (set_deltaPos (Some delta) s)) w1))
          end
        else w1
      end
    | _, _ => w
    end.

(** *** Operation sequences *)

Inductive Op :=
| OpDown (e : PointerEvent)
| OpMove (e : PointerEvent)
| OpUp (e : PointerEvent)
| OpSelect (obj : option nat)
| OpUnselect (obj : option nat)
| OpDelete (force : bool)
| OpDeletePointerUp
| OpRegister (obj : nat) (opts : Opts)
| OpUnregister (obj : nat).

Definition step (w : UIS) (op : Op) : UIS :=
  match op with
  | OpDown e => onDown e w
  | OpMove e => onMove e w
  | OpUp e => onUp e w
  | OpSelect obj => selectObject obj w
  | OpUnselect obj => unselectObject obj w
  | OpDelete force => deleteSelectedObject force w
  | OpDeletePointerUp => deletePointerUp w
  | OpRegister obj opts => registerObject obj opts w
  | OpUnregister obj => unregisterObject obj w
  end.

Definition run (ops : list Op) (w : UIS) : UIS := fold_left step ops w.

(** The pointer-moves of a drag, delivered in order. *)
Fixpoint moves (ms : list PointerEvent) (w : UIS) : UIS :=
  match ms with
  | [] => w
  | m :: ms' => moves ms' (onMove m w)
  end.

(** One drag session: a pointer-down, the pointer-moves, a pointer-up. *)
Definition session (d : PointerEvent) (ms : list PointerEvent) (u : PointerEvent)
    (w : UIS) : UIS :=
  onUp u (moves ms (onDown d w)).

(** *** Observations *)

(** An entity holds the persistent selection when the flag is set and the
    slot names it; it occupies the slot when the slot names it. *)
Definition holdsPersistentSelection (w : UIS) (o : nat) : Prop :=
  persistentSelected (state w) = true /\ selectedObject (state w) = Some o.
Definition occupiesSlot (w : UIS) (o : nat) : Prop :=
  selectedObject (state w) = Some o.

(** The flag is never set over an empty slot. *)
Definition slotConsistent (w : UIS) : Prop :=
  persistentSelected (state w) = true -> selectedObject (state w) <> None.

Definition is_unselected_of (o : nat) (c : Call) : bool :=
  match c with CallOnUnselected o' => bool_decide (o' = o) | _ => false end.

(** The number of [onUnselected] calls entity [o] has received. *)
Definition unselectedCalls (o : nat) (w : UIS) : nat :=
  length (filter (fun c => is_unselected_of o c = true) (calls w)).

(** The deltas handed to [onMove], most recent first. *)
Fixpoint moveDeltas (cs : list Call) : list Vec3 :=
  match cs with
  | [] => []
  | CallOnMove _ _ d :: cs' => d :: moveDeltas cs'
  | _ :: cs' => moveDeltas cs'
  end.

Definition vsum (l : list Vec3) : Vec3 := foldr vadd vzero l.

(** The position of a pointer-down, and of a later pointer event of the same
    session: both lie in the plane through the intersection depth. *)
Definition downPos (d : PointerEvent) (w : UIS) : Vec3 :=
  match intersect d with
  | Some hit => getMousePosGivenZ d (pz (point hit)) w
  | None => vzero
  end.
Definition sessionPos (d e : PointerEvent) (w : UIS) : Vec3 :=
  getMousePosGivenZ e (pz (downPos d w)) w.

(** The planar displacement from the pointer-down stays within the
    threshold at every pointer-move, or exceeds it at one of them. *)
Definition staysWithinRange (d : PointerEvent) (ms : list PointerEvent) (w : UIS) : Prop :=
  Forall (fun m => planarDist (sessionPos d m w) (downPos d w) <= selectAllowedRange w) ms.
Definition exceedsRange (d : PointerEvent) (ms : list PointerEvent) (w : UIS) : Prop :=
  Exists (fun m => planarDist (sessionPos d m w) (downPos d w) > selectAllowedRange w) ms.

(** The position of the last pointer-move of a session, the pointer-down
    position when there is none. *)
Definition lastMovePos (d : PointerEvent) (ms : list PointerEvent) (w : UIS) : Vec3 :=
  default (downPos d w) (last ((fun m => sessionPos d m w) <$> ms)).

End UISelection.

(** ** Sample scenes and pointer events *)

Module SelectionSamples.
Import Geometry UISelection.

(** A scene object before registration. *)
Definition plainObj : SceneObj := mkSceneObj None (MkMaterial 0) vzero.

(** The options a portal mesh is registered with ([createPortal] of
    [portal.js]): moveable, selectable, with the handlers [onMove], [onDown],
    [onUp], [onSelected], [onUnselected], [onDelete] and a config form. *)
Definition portalOpts : Opts :=
  mkOpts true false true true true false false false true true true true None
    (Some (MkConfigForm 1)).

(** The options of a note ([create] of [note.js]): as above without
    [onSelected] and [onUnselected]. *)
Definition noteOpts : Opts :=
  mkOpts true false true true true false false false true true false false None
    (Some (MkConfigForm 2)).

(** The capability record [registerObject] stores for [portalOpts], and a
    scene object carrying it. *)
Definition portalInfo : UisInfo :=
  mkUisInfo true false true true true false false false true true true true None
    (Some (MkConfigForm 1)) None.
Definition portalMesh : SceneObj := mkSceneObj (Some portalInfo) (MkMaterial 0) vzero.

(** A camera twelve units above the plane of the objects. *)
Definition cam12 : Vec3 := mkVec3 0 0 12.

(** A scene of two registered entities, 1 and 2, and an unregistered 3. *)
Definition scene : UIS :=
  registerObject 2 portalOpts
    (registerObject 1 portalOpts
       (constructor cam12 None
          (<[1%nat := plainObj]> (<[2%nat := plainObj]> (<[3%nat := plainObj]> ∅))))).

(** The same scene with entity 1 persistently selected. *)
Definition sceneSelected1 : UIS := selectObject (Some 1%nat) scene.

(** The options of an entity that can be selected but not moved, the record
    stored for them, and the scene with entity 3 registered so. *)
Definition labelOpts : Opts :=
  mkOpts false false true false false false false false false false false false None None.
Definition labelInfo : UisInfo :=
  mkUisInfo false false true false false false false false false false false false
    None None None.
Definition labelMesh : SceneObj := mkSceneObj (Some labelInfo) (MkMaterial 0) vzero.
Definition sceneWithLabel : UIS := registerObject 3 labelOpts scene.

(** The record stored for [noteOpts], and a scene in which entity 1 is a
    note, entity 2 a portal mesh, and the note is persistently selected. *)
Definition noteInfo : UisInfo :=
  mkUisInfo true false true true true false false false true true false false None
    (Some (MkConfigForm 2)) None.
Definition noteMesh : SceneObj := mkSceneObj (Some noteInfo) (MkMaterial 0) vzero.
Definition noteSceneSelected1 : UIS :=
  selectObject (Some 1%nat)
    (registerObject 2 portalOpts
       (registerObject 1 noteOpts
          (constructor cam12 None
             (<[1%nat := plainObj]> (<[2%nat := plainObj]> (<[3%nat := plainObj]> ∅)))))).

(** Pointer events: the ray straight down meets the plane at (0,0), the ray
    (3/5, 0, -4/5) at (9,0) and the ray (4/5, 0, -3/5) at (16,0). *)
Definition rayDown : Vec3 := mkVec3 0 0 (-1).
Definition rayNear : Vec3 := mkVec3 (3 / 5) 0 (- (4 / 5)).
Definition rayFar : Vec3 := mkVec3 (4 / 5) 0 (- (3 / 5)).

Definition downOn (o : nat) : PointerEvent :=
  mkPointerEvent (Some (mkIntersect o vzero)) rayDown false.
Definition moveNear : PointerEvent := mkPointerEvent None rayNear false.
Definition upFar : PointerEvent := mkPointerEvent None rayFar false.
Definition upHere : PointerEvent := mkPointerEvent None rayDown false.

End SelectionSamples.


(** ** The portal: [portal.js] *)

Module Portal.
Import JsNum Geometry.

(** *** The physics engine *)

Inductive Shape := Circle | Box.

(** A registered body: its handle, the object that owns it, its shape, and
    whether an [onCollision] hook was given at creation. *)
Record Body := mkBody {
  body_id : nat;
  body_owner : nat;
  body_shape : Shape;
  body_hook : bool }.

(** Modelled from the spec: the physics engine is an external collaborator,
    given by its interface [createCircle]/[createBox] (a new body handle,
    registered with the engine) and [removeBody] (the handle is no longer
    registered). Handles are allocated from a counter. *)
Record Physics := mkPhysics {
  bodies : list Body;
  nextBody : nat }.

Definition createBody (owner : nat) (sh : Shape) (hook : bool) (ph : Physics)
  : nat * Physics :=
  (nextBody ph,
   mkPhysics (bodies ph ++ [mkBody (nextBody ph) owner sh hook]) (S (nextBody ph))).

Definition removeBody (b : nat) (ph : Physics) : Physics :=
  mkPhysics (filter (fun x => body_id x <> b) (bodies ph)) (nextBody ph).

(** *** The scene graph under [this.group] *)

Inductive NodeType := TMesh | TPointLight | TGroup.

(** A child of the group: [userData.physicsBodies] is [None] while the
    property is undefined. *)
Record Node := mkNode {
  node_id : nat;
  node_type : NodeType;
  physicsBodies : option (list nat) }.

(** Removals, most recent first. *)
Inductive Removal :=
| RemovedBody (b : nat)
| RemovedNode (n : nat).

(** What a portal draws into: the engine, the allocator of scene nodes, and
    the record of removals. *)
Record Env := mkEnv {
  physics : Physics;
  nextNode : nat;
  removals : list Removal }.

(** *** The broker and the world *)

(** The wire payload: the object's exported configuration with the transit
    fields written over it. [velocity] is [None] when the payload has no
    such property. *)
Record Envelope := mkEnvelope {
  objectConfig : list (string * string);
  env_x : R;
  env_y : R;
  velocity : option Vec2;
  env_rotation : R;
  angularVelocity : R;
  env_guid : string;
  env_type : string }.

(** Modelled from the spec: a broker connection is an external collaborator,
    [Connection{publish, setSubscriptions, bindToQueue, disconnect}]. It
    records what was published on it, its subscription set and its queue
    binding. *)
Record Connection := mkConnection {
  published : list (string * Envelope);
  subscriptions : list (string * nat);
  boundQueue : option string }.

Definition newConnection : Connection := mkConnection [] [] None.
Definition publish (topic : string) (m : Envelope) (c : Connection) : Connection :=
  mkConnection ((topic, m) :: published c) (subscriptions c) (boundQueue c).
Definition setSubscriptions (subs : list (string * nat)) (c : Connection) : Connection :=
  mkConnection (published c) subs (boundQueue c).
Definition conn_bindToQueue (q : string) (c : Connection) : Connection :=
  mkConnection (published c) (subscriptions c) (Some q).

(** The rigid body of a colliding object: [getLinearVelocity()] and
    [getAngularVelocity()]. *)
Record RigidBody := mkRigidBody {
  linearVelocity : Vec2;
  rb_angularVelocity : R }.

(** Modelled from the spec: an object of the world, given by the interface
    the portal calls: [getConfig()], [guid], [isStatic()], [isCoolingDown()],
    [getFromPortal()]/[setFromPortal(portal)], [forceTopic]/[topic],
    [color], its constructor name, [group.rotation.z] and [destroy()]. *)
Record WorldObj := mkWorldObj {
  guid : string;
  constructorName : string;
  color : string;
  isStatic : bool;
  isCoolingDown : bool;
  getFromPortal : option nat;
  forceTopic : bool;
  topic : string;
  getConfig : Envelope;
  obj_rotation_z : R;
  destroyed : bool }.

(** Modelled from the spec: [setFromPortal] tags the object as arrived from
    the portal and arms its cooldown. *)
Definition setFromPortal (portal : nat) (o : WorldObj) : WorldObj :=
  mkWorldObj (guid o) (constructorName o) (color o) (isStatic o) true (Some portal)
    (forceTopic o) (topic o) (getConfig o) (obj_rotation_z o) (destroyed o).

Definition destroy (o : WorldObj) : WorldObj :=
  mkWorldObj (guid o) (constructorName o) (color o) (isStatic o) (isCoolingDown o)
    (getFromPortal o) (forceTopic o) (topic o) (getConfig o) (obj_rotation_z o) true.

(** The cooldown window of an object elapses. *)
Definition cooldownElapsed (o : WorldObj) : WorldObj :=
  mkWorldObj (guid o) (constructorName o) (color o) (isStatic o) false
    (getFromPortal o) (forceTopic o) (topic o) (getConfig o) (obj_rotation_z o)
    (destroyed o).

(** A handler either completes or throws a [TypeError]. *)
Inductive Result (A : Type) :=
| Ok (a : A)
| TypeError.
Arguments Ok {A} a.
Arguments TypeError {A}.

(** *** The portal object *)

(** [self] is the identity of the object ([this]); [broker] and [queueName]
    are the empty string when none is configured; [rotationPoint] and
    [rotationAdjustment] are written together by [onDownScrewHead] and
    undefined before. Visual attributes (materials, colours, light
    intensity) are not represented, nor is the registration of the meshes
    with the selection manager. *)
Record Portal := mkPortal {
  self : nat;
  name : string;
  portalId : string;
  x : R;
  y : R;
  rotation : R;
  enabled : bool;
  broker : string;
  bindToQueue : bool;
  queueName : string;
  useSubscriptionList : bool;
  subscriptionList : list string;
  brokerConnection : option Connection;
  connected : bool;
  selected : bool;
  group_position : Vec3;
  group_rotation_z : R;
  children : list Node;
  pointLight : option nat;
  screwHeads : list nat;
  rotationPoint : option Vec3;
  rotationAdjustment : R }.

Definition with_xy (x' y' : R) (p : Portal) : Portal :=
  mkPortal (self p) (name p) (portalId p) x' y' (rotation p) (enabled p) (broker p)
    (bindToQueue p) (queueName p) (useSubscriptionList p) (subscriptionList p)
    (brokerConnection p) (connected p) (selected p) (group_position p)
    (group_rotation_z p) (children p) (pointLight p) (screwHeads p)
    (rotationPoint p) (rotationAdjustment p).
Definition with_rotation (r : R) (p : Portal) : Portal :=
  mkPortal (self p) (name p) (portalId p) (x p) (y p) r (enabled p) (broker p)
    (bindToQueue p) (queueName p) (useSubscriptionList p) (subscriptionList p)
    (brokerConnection p) (connected p) (selected p) (group_position p)
    (group_rotation_z p) (children p) (pointLight p) (screwHeads p)
    (rotationPoint p) (rotationAdjustment p).
Definition with_enabled (b : bool) (p : Portal) : Portal :=
  mkPortal (self p) (name p) (portalId p) (x p) (y p) (rotation p) b (broker p)
    (bindToQueue p) (queueName p) (useSubscriptionList p) (subscriptionList p)
    (brokerConnection p) (connected p) (selected p) (group_position p)
    (group_rotation_z p) (children p) (pointLight p) (screwHeads p)
    (rotationPoint p) (rotationAdjustment p).
Definition with_brokerConnection (c : option Connection) (p : Portal) : Portal :=
  mkPortal (self p) (name p) (portalId p) (x p) (y p) (rotation p) (enabled p) (broker p)
    (bindToQueue p) (queueName p) (useSubscriptionList p) (subscriptionList p)
    c (connected p) (selected p) (group_position p)
    (group_rotation_z p) (children p) (pointLight p) (screwHeads p)
    (rotationPoint p) (rotationAdjustment p).
Definition with_connected (b : bool) (p : Portal) : Portal :=
  mkPortal (self p) (name p) (portalId p) (x p) (y p) (rotation p) (enabled p) (broker p)
    (bindToQueue p) (queueName p) (useSubscriptionList p) (subscriptionList p)
    (brokerConnection p) b (selected p) (group_position p)
    (group_rotation_z p) (children p) (pointLight p) (screwHeads p)
    (rotationPoint p) (rotationAdjustment p).
Definition with_selected (b : bool) (p : Portal) : Portal :=
  mkPortal (self p) (name p) (portalId p) (x p) (y p) (rotation p) (enabled p) (broker p)
    (bindToQueue p) (queueName p) (useSubscriptionList p) (subscriptionList p)
    (brokerConnection p) (connected p) b (group_position p)
    (group_rotation_z p) (children p) (pointLight p) (screwHeads p)
    (rotationPoint p) (rotationAdjustment p).
Definition with_group_pose (pos : Vec3) (rz : R) (p : Portal) : Portal :=
  mkPortal (self p) (name p) (portalId p) (x p) (y p) (rotation p) (enabled p) (broker p)
    (bindToQueue p) (queueName p) (useSubscriptionList p) (subscriptionList p)
    (brokerConnection p) (connected p) (selected p) pos rz (children p)
    (pointLight p) (screwHeads p) (rotationPoint p) (rotationAdjustment p).
Definition with_children (cs : list Node) (p : Portal) : Portal :=
  mkPortal (self p) (name p) (portalId p) (x p) (y p) (rotation p) (enabled p) (broker p)
    (bindToQueue p) (queueName p) (useSubscriptionList p) (subscriptionList p)
    (brokerConnection p) (connected p) (selected p) (group_position p)
    (group_rotation_z p) cs (pointLight p) (screwHeads p)
    (rotationPoint p) (rotationAdjustment p).
Definition with_pointLight (l : option nat) (p : Portal) : Portal :=
  mkPortal (self p) (name p) (portalId p) (x p) (y p) (rotation p) (enabled p) (broker p)
    (bindToQueue p) (queueName p) (useSubscriptionList p) (subscriptionList p)
    (brokerConnection p) (connected p) (selected p) (group_position p)
    (group_rotation_z p) (children p) l (screwHeads p)
    (rotationPoint p) (rotationAdjustment p).
Definition with_screwHeads (l : list nat) (p : Portal) : Portal :=
  mkPortal (self p) (name p) (portalId p) (x p) (y p) (rotation p) (enabled p) (broker p)
    (bindToQueue p) (queueName p) (useSubscriptionList p) (subscriptionList p)
    (brokerConnection p) (connected p) (selected p) (group_position p)
    (group_rotation_z p) (children p) (pointLight p) l
    (rotationPoint p) (rotationAdjustment p).
Definition with_pivot (rp : option Vec3) (adj : R) (p : Portal) : Portal :=
  mkPortal (self p) (name p) (portalId p) (x p) (y p) (rotation p) (enabled p) (broker p)
    (bindToQueue p) (queueName p) (useSubscriptionList p) (subscriptionList p)
    (brokerConnection p) (connected p) (selected p) (group_position p)
    (group_rotation_z p) (children p) (pointLight p) (screwHeads p) rp adj.

Definition with_physics (ph : Physics) (e : Env) : Env :=
  mkEnv ph (nextNode e) (removals e).

(** *** Geometry: creation *)

(** [new THREE.Mesh(...)] and the like followed by [this.group.add(node)]:
    a node with a new identity at the end of the children. *)
Definition addNode (t : NodeType) (pe : Portal * Env) : nat * (Portal * Env) :=
  let '(p, e) := pe in
  (nextNode e,
   (with_children (children p ++ [mkNode (nextNode e) t None]) p,
    mkEnv (physics e) (S (nextNode e)) (removals e))).

Definition set_node_bodies (n : nat) (bs : option (list nat)) (c : Node) : Node :=
  if decide (node_id c = n) then mkNode (node_id c) (node_type c) bs else c.

(** [mesh.userData.physicsBodies = bs] *)
Definition setPhysicsBodies (n : nat) (bs : option (list nat)) (p : Portal) : Portal :=
  with_children (set_node_bodies n bs <$> children p) p.

(** [mesh.userData.physicsBodies = []] followed by the [push] of each body
    the engine creates for the mesh, in order. *)
Fixpoint createBodies (n : nat) (specs : list (Shape * bool)) (acc : list nat)
    (pe : Portal * Env) : Portal * Env :=
  match specs with
  | [] => (setPhysicsBodies n (Some acc) pe.1, pe.2)
  | (sh, hook) :: rest =>
    let '(b, ph) := createBody (self pe.1) sh hook (physics pe.2) in
    createBodies n rest (acc ++ [b]) (pe.1, with_physics ph pe.2)
  end.

Definition createTorus (pe : Portal * Env) : Portal * Env :=
  let '(mesh, pe1) := addNode TMesh pe in
  createBodies mesh [(Circle, false); (Circle, false)] [] pe1.

Definition createPointLight (pe : Portal * Env) : Portal * Env :=
  match pointLight pe.1 with
  | Some _ => pe
  | None =>
    let '(light, (p, e)) := addNode TPointLight pe in
    (with_pointLight (Some light) p, e)
  end.

Definition createMist (pe : Portal * Env) : Portal * Env :=
  (addNode TMesh pe).2.

Definition createTube (pe : Portal * Env) : Portal * Env :=
  let '(mesh, pe1) := addNode TMesh pe in
  createBodies mesh [(Box, false); (Box, false)] [] pe1.

(** The second body of the back is the one objects collide with: it carries
    the [onCollision] hook. *)
Definition createBack (pe : Portal * Env) : Portal * Env :=
  let '(mesh, pe1) := addNode TMesh pe in
  createBodies mesh [(Box, false); (Box, true)] [] pe1.

Definition createScrewHeads (pe : Portal * Env) : Portal * Env :=
  let pe0 := (with_screwHeads [] pe.1, pe.2) in
  fold_left
    (fun pe (_ : Z) =>
       let '(pivot, (p, e)) := addNode TGroup pe in
       (with_screwHeads (screwHeads p ++ [pivot]) p, e))
    [(-1)%Z; 1%Z] pe0.

Definition createPortal (pe : Portal * Env) : Portal * Env :=
  let '(p, e) :=
    createScrewHeads (createBack (createTube (createMist
      (createPointLight (createTorus pe))))) in
  (with_group_pose (mkVec3 (x p) (y p) 0) (rotation p) p, e).

(** *** Geometry: destruction *)

Definition removeNode (n : nat) (p : Portal) : Portal :=
  with_children (filter (fun c => node_id c <> n) (children p)) p.

(** The body of the [forEach] of [destroyPortal], for one mesh of the copied
    child list. *)
Definition destroyMesh (pe : Portal * Env) (mesh : Node) : Portal * Env :=
  let '(p, e) := pe in
  let '(p1, e1) :=
    match physicsBodies mesh with
    | Some bs =>
      (setPhysicsBodies (node_id mesh) (Some []) p,
       fold_left
         (fun e b => mkEnv (removeBody b (physics e)) (nextNode e)
                           (RemovedBody b :: removals e))
         bs e)
    | None => (p, e)
    end in
  match node_type mesh with
  | TPointLight => (p1, e1)
  | _ => (removeNode (node_id mesh) p1,
          mkEnv (physics e1) (nextNode e1) (RemovedNode (node_id mesh) :: removals e1))
  end.

Definition destroyPortal (pe : Portal * Env) : Portal * Env :=
  let children := [] ++ children pe.1 in
  fold_left destroyMesh children pe.

Definition reDraw (pe : Portal * Env) : Portal * Env :=
  createPortal (destroyPortal pe).

(** *** Connection lifecycle *)

(** [connect()]; [brokers] are the names [app.getBrokerByName] resolves. *)
Definition connect (brokers : list string) (p : Portal) : Portal :=
  if bool_decide (is_Some (brokerConnection p)) || bool_decide (broker p = "")
  then p
  else if bool_decide (broker p ∈ brokers) then
    let c := newConnection in
    let c' := if bindToQueue p && negb (bool_decide (queueName p = ""))
              then conn_bindToQueue (queueName p) c else c in
    with_brokerConnection (Some c') p
  else p.

(** [disconnect()]: the connection is closed and the reference dropped. *)
Definition disconnect (p : Portal) : Portal :=
  match brokerConnection p with
  | None => p
  | Some _ => with_brokerConnection None p
  end.

Definition manageConnection (brokers : list string) (p : Portal) : Portal :=
  if enabled p && negb (bool_decide (is_Some (brokerConnection p))) then connect brokers p
  else if negb (enabled p) && bool_decide (is_Some (brokerConnection p)) then disconnect p
  else p.

Definition subscribeToPortalTopics (p : Portal) : Portal :=
  match brokerConnection p with
  | None => p
  | Some c =>
    let subs :=
      if useSubscriptionList p
      then map (fun sub => (sub, 0%nat)) (subscriptionList p)
      else [("portal/*/" +:+ portalId p +:+ "/#", 0%nat)] in
    with_brokerConnection (Some (setSubscriptions subs c)) p
  end.

Definition onConnect (p : Portal) : Portal :=
  subscribeToPortalTopics (with_connected true p).

Definition onDisconnect (p : Portal) : Portal := with_connected false p.

(** *** Inbound transit *)

(** [onMessage(topic, message, payload)]. [addObjectFromMessage] is the
    world registry's factory: it yields the new object or nothing. The
    result is the payload as rewritten and the object added, if any.
    [mathPI] is the value of the constant [Math.PI] in
    [this.rotation + Math.PI]. *)
Definition onMessageWith (mathPI : R)
    (addObjectFromMessage : Envelope -> string -> option WorldObj)
    (topic : string) (payload : Envelope) (p : Portal)
  : Result (Envelope * option WorldObj) :=
  let nx := x p + cos (rotation p) * 10 in
  let ny := y p + sin (rotation p) * 10 in
  let nrot := env_rotation payload + rotation p in
  match velocity payload with
  | None => TypeError
  | Some v =>
    let velocity := rotatePoint 0 0 (vx v) (vy v) (rotation p + mathPI) in
    let newObj :=
      mkEnvelope (objectConfig payload) nx ny (Some (mkVec2 velocity.1 velocity.2))
        nrot (angularVelocity payload) (env_guid payload) (env_type payload) in
    match addObjectFromMessage newObj topic with
    | Some addedObj => Ok (newObj, Some (setFromPortal (self p) addedObj))
    | None => Ok (newObj, None)
    end
  end.

(** The handler with [Math.PI] taken to be pi. *)
Definition onMessage (addObjectFromMessage : Envelope -> string -> option WorldObj)
    (topic : string) (payload : Envelope) (p : Portal)
  : Result (Envelope * option WorldObj) :=
  onMessageWith PI addObjectFromMessage topic payload p.

(** *** Outbound transit *)

Definition lower_ascii (c : ascii) : ascii :=
  let n := nat_of_ascii c in
  if (65 <=? n)%nat && (n <=? 90)%nat then ascii_of_nat (n + 32) else c.

(** [String.prototype.toLowerCase] on the letters A to Z. *)
Fixpoint toLowerCase (s : string) : string :=
  match s with
  | EmptyString => EmptyString
  | String c s' => String (lower_ascii c) (toLowerCase s')
  end.

(** [sendObjectToBroker(body, obj)]: the topic and the envelope handed to
    [brokerConnection.publish]. *)
Definition transitEnvelope (body : RigidBody) (obj : WorldObj) (p : Portal) : Envelope :=
  let config := getConfig obj in
  let velocity := linearVelocity body in
  let angularVelocity := rb_angularVelocity body in
  let objRotation := obj_rotation_z obj - group_rotation_z p in
  let normalizedV := rotatePoint 0 0 (vx velocity) (vy velocity) (- group_rotation_z p) in
  mkEnvelope (objectConfig config) (env_x config) (env_y config)
    (Some (mkVec2 normalizedV.1 normalizedV.2)) objRotation angularVelocity
    (guid obj) (toLowerCase (constructorName obj)).

Definition transitTopic (obj : WorldObj) (p : Portal) : string :=
  if forceTopic obj && negb (bool_decide (topic obj = "")) then topic obj
  else "portal/" +:+ name p +:+ "/" +:+ portalId p +:+ "/"
         +:+ constructorName obj +:+ "/" +:+ color obj.

Definition sendObjectToBroker (body : RigidBody) (obj : WorldObj) (p : Portal)
  : Result Portal :=
  let config := transitEnvelope body obj p in
  let topic := transitTopic obj p in
  match brokerConnection p with
  | None => TypeError
  | Some c => Ok (with_brokerConnection (Some (publish topic config c)) p)
  end.

(** [onCollision(body, obj)]: the portal and the object afterwards. *)
Definition onCollision (body : RigidBody) (obj : WorldObj) (p : Portal)
  : Result (Portal * WorldObj) :=
  if negb (connected p) then Ok (p, obj)
  else if isCoolingDown obj && bool_decide (getFromPortal obj = Some (self p))
  then Ok (p, obj)
  else if negb (isStatic obj) then
    match sendObjectToBroker body obj p with
    | Ok p' => Ok (p', destroy obj)
    | TypeError => TypeError
    end
  else Ok (p, obj).

(** The envelopes published on the portal's connection. *)
Definition publishedBy (p : Portal) : list (string * Envelope) :=
  match brokerConnection p with
  | Some c => published c
  | None => []
  end.

(** *** Pivot rotation *)

(** [Math.abs((this.rotation-angle) % (Math.PI*2)) > Math.PI/2 ? Math.PI : 0] *)
Definition flipCorrection (rotation angle : R) : R :=
  if decide (Rabs (rem (rotation - angle) (PI * 2)) > PI / 2) then PI else 0.

(** The bearing from the pointer to the pivot, a quarter turn on. *)
Definition bearing (pivot pos : Vec3) : R :=
  atan2 (py pivot - py pos) (px pivot - px pos) + PI / 2.

(** [onDownScrewHead(screwHead, pos, info)]; [getWorldPosition] is the world
    position the scene graph reports for a node. *)
Definition onDownScrewHead (getWorldPosition : nat -> Vec3) (screwHead : nat)
    (pos : Vec3) (p : Portal) : Result Portal :=
  match find (fun sh => negb (bool_decide (sh = screwHead))) (screwHeads p) with
  | None => TypeError
  | Some otherScrewHead =>
    let oshPos := getWorldPosition otherScrewHead in
    let angle := bearing oshPos pos in
    Ok (with_pivot (Some oshPos) (flipCorrection (rotation p) angle) p)
  end.

Definition onMoveScrewHead (pos : Vec3) (pe : Portal * Env) : Result (Portal * Env) :=
  let '(p, e) := pe in
  match rotationPoint p with
  | None => TypeError
  | Some rp =>
    let angle := bearing rp pos + rotationAdjustment p in
    let xy := rotatePoint (px rp) (py rp) (px (group_position p)) (py (group_position p))
                (angle - rotation p) in
    Ok (reDraw (with_rotation (rem angle (PI * 2)) (with_xy xy.1 xy.2 p), e))
  end.

(** [onMove(obj, pos, info)] of the portal: a drag by [info.deltaPos]. *)
Definition onMove (deltaPos : Vec3) (pe : Portal * Env) : Portal * Env :=
  reDraw (with_xy (x pe.1 + px deltaPos) (y pe.1 + py deltaPos) pe.1, pe.2).

(** *** Observations *)

(** The bodies the engine holds for a portal. *)
Definition bodiesOf (owner : nat) (ph : Physics) : list nat :=
  body_id <$> filter (fun b => body_owner b = owner) (bodies ph).

(** The bodies a node refers to, and the bodies the current children of the
    group refer to: what the current mesh set requires. *)
Definition nodeBodies (c : Node) : list nat := default [] (physicsBodies c).
Definition bodiesOfNodes (cs : list Node) : list nat := concat (nodeBodies <$> cs).
Definition requiredBodies (p : Portal) : list nat := bodiesOfNodes (children p).

(** The removals the destruction of one node performs, in order. *)
Definition nodeRemovals (c : Node) : list Removal :=
  (RemovedBody <$> nodeBodies c)
  ++ match node_type c with
     | TPointLight => []
     | _ => [RemovedNode (node_id c)]
     end.

(** The allocators are ahead of every handle in use, and the bodies the
    engine holds for the portal are exactly those its children refer to. *)
Definition hygienic (pe : Portal * Env) : Prop :=
  Forall (fun c => (node_id c < nextNode pe.2)%nat) (children pe.1)
  /\ Forall (fun b => (body_id b < nextBody (physics pe.2))%nat) (bodies (physics pe.2))
  /\ NoDup (body_id <$> bodies (physics pe.2))
  /\ bodiesOf (self pe.1) (physics pe.2) = requiredBodies pe.1.

(** The wrapped angular difference the specification speaks of: the angle
    between the directions [a] and [b], between 0 and PI. *)
Definition spec_wrappedAngularDifference (a b : R) : R :=
  let d := Rabs (rem (a - b) (PI * 2)) in
  Rmin d (PI * 2 - d).

Definition vec2_of (xy : R * R) : Vec2 := mkVec2 xy.1 xy.2.

(** The fields of a portal that drawing never writes. *)
Definition core (p : Portal) :=
  (self p, name p, portalId p, x p, y p, rotation p, enabled p, broker p,
   bindToQueue p, queueName p, useSubscriptionList p, subscriptionList p,
   brokerConnection p, connected p, selected p, rotationPoint p,
   rotationAdjustment p).

(** Removal [a] happened before removal [b] in a record kept most recent
    first. *)
Definition removedBefore (a b : Removal) (log : list Removal) : Prop :=
  exists l1 l2 l3, log = l1 ++ b :: l2 ++ a :: l3.

End Portal.


(** ** Sample portals, objects and messages *)

Module PortalSamples.
Import JsNum Geometry Portal.

Definition env0 : Env := mkEnv (mkPhysics [] 0) 0 [].

Definition emptyConfig : Envelope := mkEnvelope [] 0 0 None 0 0 "" "".

Definition liveConnection : Connection := newConnection.

(** A portal as constructed, connected to its broker. *)
Definition portalAt (id : nat) (rot : R) : Portal :=
  mkPortal id "A" "1" 0 0 rot true "broker" false "" false ["text/one"; "text/two"]
    (Some liveConnection) true false vzero 0 [] None [] None 0.

Definition ball : WorldObj :=
  mkWorldObj "g-1" "Ball" "red" false false None false "" emptyConfig 0 false.

Definition movingRight : RigidBody := mkRigidBody (mkVec2 1 0) 0.

(** A world registry that accepts every envelope. *)
Definition acceptAll (m : Envelope) (t : string) : option WorldObj :=
  Some (mkWorldObj (env_guid m) (env_type m) "red" false false None false "" m
          (env_rotation m) false).

(** The ball arrived from portal 1 and is cooling down; portal 2 is another
    connected portal. *)
Definition arrivedBall : WorldObj := setFromPortal 1 ball.

(** A portal that was live and has been disabled: [manageConnection] has
    dropped its connection, and the broker has reported the disconnect. *)
Definition disabledPortal : Portal :=
  onDisconnect (manageConnection ["broker"] (with_enabled false (portalAt 1 0))).

(** An envelope sent by portal 2 that is still in flight. *)
Definition lateEnvelope : Envelope :=
  transitEnvelope movingRight ball (portalAt 2 0).

(** A portal turned to 7 PI / 4 whose two screw heads are nodes 5 and 6. *)
Definition turnedPortal : Portal :=
  with_screwHeads [5%nat; 6%nat] (portalAt 1 (7 * PI / 4)).

End PortalSamples.


(** ** Further observations on the selection manager *)

Module SelectionObs.
Import Geometry UISelection.

(** The capability record [registerObject] stores for its options. *)
Definition recordOf (opts : Opts) : UisInfo :=
  mkUisInfo (opt_moveable opts) (opt_rotatable opts) (opt_selectable opts)
    (opt_onDown opts) (opt_onDelete opts) (opt_onDragStart opts)
    (opt_onRotateStart opts) (opt_onRotate opts) (opt_onMove opts)
    (opt_onUp opts) (opt_onSelected opts) (opt_onUnselected opts)
    (opt_selectedMaterial opts) (opt_configForm opts) None.

Definition is_throw (c : Call) : bool :=
  match c with ThrowTypeError => true | _ => false end.

(** The number of [TypeError]s thrown so far. *)
Definition throwCount (w : UIS) : nat :=
  length (filter (fun c => is_throw c = true) (calls w)).

(** While a drag is in progress its reference positions are set. *)
Definition dragReady (w : UIS) : Prop :=
  isDragging (state w) = true ->
  is_Some (posAtMouseDown (state w)) /\ is_Some (prevPos (state w)).

(** [obj.material] of a scene object. *)
Definition materialOf (o : nat) (w : UIS) : option Material :=
  material <$> heap w !! o.

(** An entity with a capability record. *)
Definition registered (o : nat) (info : UisInfo) (w : UIS) : Prop :=
  getUisInfo (Some o) w = Some info.

(** What the selection callbacks have told entity [o]: it has been told
    that it is selected when the most recent of its [onSelected] and
    [onUnselected] calls, in a log kept most recent first, is an
    [onSelected]. *)
Fixpoint toldSelected (o : nat) (cs : list Call) : bool :=
  match cs with
  | [] => false
  | CallOnSelected o' :: cs' => if decide (o' = o) then true else toldSelected o cs'
  | CallOnUnselected o' :: cs' => if decide (o' = o) then false else toldSelected o cs'
  | _ :: cs' => toldSelected o cs'
  end.

(** The entity wears the selected material of its capability record. *)
Definition wearsSelectedMaterial (w : UIS) (o : nat) : Prop :=
  exists so info,
    heap w !! o = Some so /\ uisInfo so = Some info
    /\ selectedMaterial info = Some (material so).

(** An entity is shown as selected: it has been told so and wears its
    selected material. *)
Definition shownSelected (w : UIS) (o : nat) : Prop :=
  toldSelected o (calls w) = true /\ wearsSelectedMaterial w o.

End SelectionObs.

(** ** Further sample scenes *)

Module MoreSamples.
Import Geometry UISelection SelectionSamples.

(** Options with a selected material, as the screw heads of a portal give
    one, here for a selectable entity; the record stored for them. *)
Definition highlightOpts : Opts :=
  mkOpts true false true true true false false false true true true true
    (Some (MkMaterial 9)) (Some (MkConfigForm 3)).
Definition highlightInfo : UisInfo :=
  mkUisInfo true false true true true false false false true true true true
    (Some (MkMaterial 9)) (Some (MkConfigForm 3)) None.
Definition highlightMesh : SceneObj :=
  mkSceneObj (Some highlightInfo) (MkMaterial 0) vzero.

(** A scene of two such entities, 1 and 2; the scene after a click on
    entity 1, and the object entity 1 is then. *)
Definition highlightScene : UIS :=
  registerObject 2 highlightOpts
    (registerObject 1 highlightOpts
       (constructor cam12 None (<[1%nat := plainObj]> (<[2%nat := plainObj]> ∅)))).

End MoreSamples.


(** ** Further observations on the portal *)

Module PortalObs.
Import Geometry Portal.

#[global] Instance NodeType_eq_dec : EqDecision NodeType.
Proof. solve_decision. Defined.

(** The bodies the engine holds for an owner, as registered. *)
Definition ownedBodies (owner : nat) (ph : Physics) : list Body :=
  filter (fun b => body_owner b = owner) (bodies ph).

(** The six bodies [createPortal] creates, from handle [n] on: two circles
    for the torus, two boxes for the tube, two boxes for the back, the last
    of which carries the collision hook. *)
Definition portalBodies (owner n : nat) : list Body :=
  [mkBody n owner Circle false;
   mkBody (S n) owner Circle false;
   mkBody (S (S n)) owner Box false;
   mkBody (S (S (S n))) owner Box false;
   mkBody (S (S (S (S n)))) owner Box false;
   mkBody (S (S (S (S (S n))))) owner Box true].

(** Identity and type of the children of the group, in order. *)
Definition shape (p : Portal) : list (nat * NodeType) :=
  (fun c => (node_id c, node_type c)) <$> children p.

(** The light nodes among the children. *)
Definition lights (p : Portal) : list nat :=
  (filter (fun it => it.2 = TPointLight) (shape p)).*1.

(** The children have distinct identities, older than the allocator, and
    the light the portal remembers is the one light among them. *)
Definition tidy (pe : Portal * Env) : Prop :=
  NoDup (shape pe.1).*1
  /\ Forall (fun it => (it.1 < nextNode pe.2)%nat) (shape pe.1)
  /\ lights pe.1 = match pointLight pe.1 with Some l => [l] | None => [] end.

(** What drawing reads and writes, apart from the bodies the nodes refer
    to: the shape of the group, the light and the screw heads the portal
    remembers, its identity, the engine, and the allocator of nodes. *)
Definition drawn (pe : Portal * Env) :=
  (shape pe.1, pointLight pe.1, screwHeads pe.1, self pe.1,
   bodies (physics pe.2), nextBody (physics pe.2), nextNode pe.2).

(** The subscription set [subscribeToPortalTopics] issues. *)
Definition portalSubscriptions (p : Portal) : list (string * nat) :=
  if useSubscriptionList p
  then (fun sub => (sub, 0%nat)) <$> subscriptionList p
  else [("portal/*/" +:+ portalId p +:+ "/#", 0%nat)].

End PortalObs.
(** * Properties *)

(** ** Facts about the arithmetic and the geometry *)

Module NumFacts.
Import JsNum Geometry.

Lemma trunc_small r : -1 < r < 1 -> trunc r = 0%Z.
Proof.
  intros [Hlo Hhi]. unfold trunc. destruct (decide (0 <= r)) as [Hr|Hr].
  - symmetry. apply Int_part_spec. simpl. lra.
  - assert (H0 : Int_part (- r) = 0%Z).
    { symmetry. apply Int_part_spec. simpl. lra. }
    rewrite H0. reflexivity.
Qed.

Lemma rem_small x m : 0 < m -> - m < x < m -> rem x m = x.
Proof.
  intros Hm [Hlo Hhi]. unfold rem. rewrite trunc_small.
  - simpl. lra.
  - split.
    + apply (Rmult_lt_reg_r m); [assumption|]. field_simplify; lra.
    + apply (Rmult_lt_reg_r m); [assumption|]. field_simplify; lra.
Qed.

Lemma atan2_x0_pos y : 0 < y -> atan2 y 0 = PI / 2.
Proof.
  intros Hy. unfold atan2.
  destruct (decide (0 < 0)) as [H|_]; [lra|].
  destruct (decide (0 < 0)) as [H|_]; [lra|].
  destruct (decide (0 < y)) as [_|H]; [reflexivity|lra].
Qed.

Lemma atan2_x0_neg y : y < 0 -> atan2 y 0 = - (PI / 2).
Proof.
  intros Hy. unfold atan2.
  destruct (decide (0 < 0)) as [H|_]; [lra|].
  destruct (decide (0 < 0)) as [H|_]; [lra|].
  destruct (decide (0 < y)) as [H|_]; [lra|].
  destruct (decide (y < 0)) as [_|H]; [reflexivity|lra].
Qed.

Lemma PI_lower : 3 < PI.
Proof. pose proof PI2_3_2. lra. Qed.

(** Pi to seventeen figures, from the series of [atan] at 1/3 and 1/7. *)
Lemma PI_digits :
  31415926535897932 / 10000000000000000 < PI < 31415926535897933 / 10000000000000000.
Proof.
  split.
  - pose proof (PI_2_3_7_ineq 8) as [H _].
    unfold PI_2_3_7_tg, tg_alt, Ratan_seq in H.
    cbn [sum_f_R0 Nat.mul Nat.add pow INR] in H. lra.
  - pose proof (PI_2_3_7_ineq 9) as [_ H].
    unfold PI_2_3_7_tg, tg_alt, Ratan_seq in H.
    cbn [sum_f_R0 Nat.mul Nat.add pow INR] in H. lra.
Qed.

(** [Math.PI + Math.PI] falls short of a full turn. *)
Lemma Math_PI_below : 16 / 10 ^ 17 < 2 * PI - (Math_PI + Math_PI) < 37 / 10 ^ 17.
Proof. pose proof PI_digits. unfold Math_PI. lra. Qed.

Lemma sin_2_Math_PI : - (4 / 10 ^ 16) < sin (Math_PI + Math_PI) < - (1 / 10 ^ 16).
Proof.
  pose proof Math_PI_below as [Hlo Hhi].
  set (d := 2 * PI - (Math_PI + Math_PI)) in *.
  assert (E : sin (Math_PI + Math_PI) = - sin d).
  { replace (Math_PI + Math_PI) with (2 * PI - d) by (unfold d; ring).
    rewrite sin_minus, sin_2PI, cos_2PI. ring. }
  rewrite E. clearbody d.
  assert (Hd0 : 0 < d) by lra.
  pose proof (sin_lt_x d Hd0) as Hub.
  assert (HPI : d <= PI) by (pose proof PI_digits; lra).
  pose proof (sin_bound d 0 (Rlt_le _ _ Hd0) HPI) as [Hlb _].
  unfold sin_approx, sin_term in Hlb.
  cbn [sum_f_R0 Nat.mul Nat.add pow Factorial.fact INR] in Hlb.
  split; [lra|].
  assert (Hd2 : d * d < 1) by nra.
  assert (Hd3 : d * (d * d) <= d) by nra.
  lra.
Qed.

Lemma cos_2_Math_PI : 1 - 1 / 10 ^ 30 < cos (Math_PI + Math_PI) <= 1.
Proof.
  pose proof Math_PI_below as [Hlo Hhi].
  set (d := 2 * PI - (Math_PI + Math_PI)) in *.
  assert (E : cos (Math_PI + Math_PI) = cos d).
  { replace (Math_PI + Math_PI) with (2 * PI - d) by (unfold d; ring).
    rewrite cos_minus, sin_2PI, cos_2PI. ring. }
  rewrite E. clearbody d. split; [|apply COS_bound].
  replace d with (2 * (d / 2)) by field. rewrite cos_2a_sin.
  assert (Hh : 0 < d / 2) by lra.
  pose proof (sin_lt_x (d / 2) Hh) as Hub.
  assert (Hs : 0 <= sin (d / 2)).
  { apply sin_ge_0; [lra|]. pose proof PI_digits. lra. }
  nra.
Qed.

Lemma rotatePoint_origin_0 x y : rotatePoint 0 0 x y (- 0) = (x, y).
Proof.
  unfold rotatePoint. rewrite Ropp_0, cos_0, sin_0. f_equal; lra.
Qed.

Lemma rotatePoint_origin_2PI x y : rotatePoint 0 0 x y (PI + PI) = (x, y).
Proof.
  unfold rotatePoint. replace (PI + PI) with (2 * PI) by lra.
  rewrite cos_2PI, sin_2PI. f_equal; lra.
Qed.

(** Two rotations about the origin compose into the rotation by the sum. *)
Lemma rotatePoint_compose x y a b :
  rotatePoint 0 0 (rotatePoint 0 0 x y a).1 (rotatePoint 0 0 x y a).2 b
  = rotatePoint 0 0 x y (a + b).
Proof.
  unfold rotatePoint. simpl. rewrite cos_plus, sin_plus. f_equal; lra.
Qed.

(** The centre of a rotation is its fixed point. *)
Lemma rotatePoint_centre cx cy angle : rotatePoint cx cy cx cy angle = (cx, cy).
Proof. unfold rotatePoint. f_equal; lra. Qed.

End NumFacts.

(** ** The selection manager *)

Module SelectionProps.
Import JsNum Geometry UISelection SelectionSamples.

(** Unfolds the handlers down to the record updates. *)
Ltac unfold_handlers :=
  unfold step, onDown, onUp, onMove, selectObject, unselectObject,
    deleteSelectedObject, deletePointerUp, registerObject, unregisterObject,
    setUisInfo, getUisInfo, upd_state, call, with_form, with_heap, with_state in *.

Ltac reduce_state :=
  cbn [state selectedObject isDragging posAtMouseDown rotAtMouseDown
       persistentSelectable persistentSelected prevPos deltaPos ctrlKey
       camera selectAllowedRange heap formShown calls
       set_selectedObject set_isDragging set_posAtMouseDown set_rotAtMouseDown
       set_persistentSelectable set_persistentSelected set_prevPos
       set_deltaPos set_ctrlKey mbind option_bind] in *.

(** *** Selecting and unselecting a registered entity *)

Lemma unselectObject_registered w o so info :
  heap w !! o = Some so -> uisInfo so = Some info ->
  unselectObject (Some o) w
  = mkUIS (camera w) (selectAllowedRange w)
      (set_selectedObject None (set_persistentSelected false (state w)))
      (match unselectedMaterial info with
       | Some m => <[o := set_material m so]> (heap w)
       | None => heap w
       end)
      None
      (CallClearConfigForm
       :: (if has_onUnselected info then [CallOnUnselected o] else []) ++ calls w).
Proof.
  intros Hh Hi. unfold unselectObject. rewrite Hh, Hi.
  destruct (has_onUnselected info), (unselectedMaterial info); reflexivity.
Qed.

Lemma selectObject_registered w o so info :
  heap w !! o = Some so -> uisInfo so = Some info ->
  selectedObject (state (selectObject (Some o) w)) = Some o
  /\ persistentSelected (state (selectObject (Some o) w)) = true
  /\ posAtMouseDown (state (selectObject (Some o) w)) = posAtMouseDown (state w)
  /\ camera (selectObject (Some o) w) = camera w
  /\ calls (selectObject (Some o) w)
     = match configForm info with Some f => [CallShowConfigForm f] | None => [] end
       ++ (if has_onSelected info then [CallOnSelected o] else []) ++ calls w.
Proof.
  intros Hh Hi. unfold selectObject. rewrite Hh, Hi.
  destruct (has_onSelected info), (selectedMaterial info), (configForm info);
    repeat split; reflexivity.
Qed.

Lemma unselectObject_camera obj w : camera (unselectObject obj w) = camera w.
Proof. unfold unselectObject. repeat case_match; reflexivity. Qed.

Lemma unselectObject_range obj w :
  selectAllowedRange (unselectObject obj w) = selectAllowedRange w.
Proof. unfold unselectObject. repeat case_match; reflexivity. Qed.

(** Unselecting writes at most the material of the entity unselected. *)
Lemma unselectObject_heap_other obj w o :
  obj <> Some o -> (obj = None -> selectedObject (state w) <> Some o) ->
  heap (unselectObject obj w) !! o = heap w !! o.
Proof.
  intros Hne Hsel. unfold unselectObject.
  destruct obj as [a|].
  - destruct (heap w !! a) as [so|]; [|reflexivity].
    destruct (uisInfo so) as [info|]; [|reflexivity].
    destruct (has_onUnselected info);
      (destruct (unselectedMaterial info); [|reflexivity]);
      cbn [heap with_heap]; apply lookup_insert_ne; congruence.
  - destruct (selectedObject (state w)) as [a|]; [|reflexivity].
    destruct (heap w !! a) as [so|]; [|reflexivity].
    destruct (uisInfo so) as [info|]; [|reflexivity].
    destruct (has_onUnselected info);
      (destruct (unselectedMaterial info); [|reflexivity]);
      cbn [heap with_heap]; apply lookup_insert_ne; intros ->;
      apply (Hsel eq_refl eq_refl).
Qed.

(** *** Counting [onUnselected] calls *)

Lemma unselectedCalls_cons s c cs w :
  calls w = c :: cs ->
  unselectedCalls s w
  = ((if is_unselected_of s c then 1 else 0)
     + length (filter (fun c => is_unselected_of s c = true) cs))%nat.
Proof.
  intros H. unfold unselectedCalls. rewrite H.
  destruct (is_unselected_of s c) eqn:Hc.
  - rewrite filter_cons_True by exact Hc. reflexivity.
  - rewrite filter_cons_False by congruence. reflexivity.
Qed.

Lemma unselectedCalls_eq s w w' : calls w' = calls w -> unselectedCalls s w' = unselectedCalls s w.
Proof. unfold unselectedCalls. intros ->. reflexivity. Qed.

Lemma unselectedCalls_other s c w w' :
  calls w' = c :: calls w -> is_unselected_of s c = false ->
  unselectedCalls s w' = unselectedCalls s w.
Proof.
  intros H Hc. rewrite (unselectedCalls_cons s c (calls w) w' H), Hc. reflexivity.
Qed.

Lemma unselectObject_registered_calls w o so info s :
  heap w !! o = Some so -> uisInfo so = Some info ->
  unselectedCalls s (unselectObject (Some o) w)
  = ((if has_onUnselected info && bool_decide (o = s) then 1 else 0)
     + unselectedCalls s w)%nat.
Proof.
  intros Hh Hi. rewrite (unselectObject_registered w o so info Hh Hi).
  unfold unselectedCalls. cbn [calls].
  rewrite filter_cons_False by (simpl; congruence).
  destruct (has_onUnselected info); cbn [app andb]; [|reflexivity].
  destruct (bool_decide (o = s)) eqn:Hd.
  - rewrite filter_cons_True by exact Hd. reflexivity.
  - rewrite filter_cons_False by (simpl; congruence). reflexivity.
Qed.

(** C10. Unselecting a registered entity clears the shared selection state
    (the slot, the persistent flag and the config form) whether or not that
    entity is the selected one; any other entity, the selected one
    included, keeps its material and capability record and receives no
    [onUnselected] call. *)
Theorem C10_unselect_clears_shared_state w o so info :
  heap w !! o = Some so ->
  uisInfo so = Some info ->
  let w' := unselectObject (Some o) w in
  selectedObject (state w') = None
  /\ persistentSelected (state w') = false
  /\ formShown w' = None
  /\ forall s, s <> o ->
       heap w' !! s = heap w !! s /\ unselectedCalls s w' = unselectedCalls s w.
Proof.
  intros Hh Hi w'. unfold w'.
  rewrite (unselectObject_registered w o so info Hh Hi) at 1 2 3.
  repeat split.
  - apply unselectObject_heap_other; congruence.
  - rewrite (unselectObject_registered_calls w o so info s Hh Hi).
    rewrite (bool_decide_eq_false_2 (o = s)) by congruence.
    rewrite andb_false_r. reflexivity.
Qed.

Lemma C10_unselect_clears_shared_state_witness :
  holdsPersistentSelection sceneSelected1 1
  /\ let w' := unselectObject (Some 2%nat) sceneSelected1 in
     selectedObject (state w') = None
     /\ persistentSelected (state w') = false
     /\ formShown w' = None
     /\ forall s, s <> 2%nat ->
          heap w' !! s = heap sceneSelected1 !! s
          /\ unselectedCalls s w' = unselectedCalls s sceneSelected1.
Proof.
  split; [split; reflexivity|].
  apply (C10_unselect_clears_shared_state sceneSelected1 2%nat portalMesh portalInfo);
    reflexivity.
Defined.

(** *** Pointer-down *)

Lemma getMousePosGivenZ_camera e z w w' :
  camera w' = camera w -> getMousePosGivenZ e z w' = getMousePosGivenZ e z w.
Proof. unfold getMousePosGivenZ. intros ->. reflexivity. Qed.

(** The state a pointer-down starts from once a persistent selection on
    another entity has been released. *)
Lemma onDown_spec e w hit :
  intersect e = Some hit ->
  exists w1,
    w1 = (if persistentSelected (state w)
             && negb (bool_decide (selectedObject (state w) = Some (object hit)))
          then unselectObject (selectedObject (state w)) w
          else w)
    /\ ((getUisInfo (Some (object hit)) w1 = None /\ onDown e w = w1)
        \/ exists so info,
             heap w1 !! object hit = Some so /\ uisInfo so = Some info
             /\ camera (onDown e w) = camera w
             /\ selectAllowedRange (onDown e w) = selectAllowedRange w
             /\ heap (onDown e w) = heap w1
             /\ formShown (onDown e w) = formShown w1
             /\ calls (onDown e w)
                = (if has_onDown info
                   then [CallOnDown (object hit)
                           (getMousePosGivenZ e (pz (point hit)) w)]
                   else []) ++ calls w1
             /\ state (onDown e w)
                = mkState (Some (object hit))
                    (if moveable info then true else isDragging (state w1))
                    (Some (getMousePosGivenZ e (pz (point hit)) w))
                    (Some (rotation so)) (selectable info)
                    (persistentSelected (state w1))
                    (Some (getMousePosGivenZ e (pz (point hit)) w))
                    (deltaPos (state w1))
                    (if has_onDown info then ev_ctrlKey e else ctrlKey (state w1))).
Proof.
  intros Hhit. unfold onDown. rewrite Hhit. cbv zeta.
  match goal with
  | |- context [heap ?x !! _] => set (w1 := x)
  end.
  exists w1. split; [reflexivity|].
  assert (Hcam : camera w1 = camera w).
  { unfold w1. case_match; [apply unselectObject_camera|reflexivity]. }
  assert (Hrange : selectAllowedRange w1 = selectAllowedRange w).
  { unfold w1. case_match; [apply unselectObject_range|reflexivity]. }
  rewrite (getMousePosGivenZ_camera e _ w w1 Hcam).
  clearbody w1. unfold getUisInfo. cbn [mbind option_bind].
  destruct (heap w1 !! object hit) as [so|] eqn:Hso; [|left; split; reflexivity].
  cbn [mbind option_bind].
  destruct (uisInfo so) as [info|] eqn:Hinfo; [|left; split; reflexivity].
  right. exists so, info.
  split; [reflexivity|]. split; [exact Hinfo|].
  destruct (moveable info), (has_onDown info); repeat split; assumption.
Qed.

(** C3 fails on the code. Entity 1 holds the persistent selection; a
    pointer-down on entity 2 releases it then and there: entity 1 no longer
    holds the selection, it has received its [onUnselected] call and the
    form is hidden, before any pointer-up. *)
Lemma C3_release_at_pointer_down_counterexample :
  holdsPersistentSelection sceneSelected1 1
  /\ ~ holdsPersistentSelection (onDown (downOn 2) sceneSelected1) 1
  /\ persistentSelected (state (onDown (downOn 2) sceneSelected1)) = false
  /\ unselectedCalls 1 sceneSelected1 = 0%nat
  /\ unselectedCalls 1 (onDown (downOn 2) sceneSelected1) = 1%nat.
Proof.
  split; [split; reflexivity|].
  split; [intros [H _]; discriminate H|].
  repeat split.
Qed.

(** *** Pointer-move and pointer-up *)

Ltac unfold_updates :=
  unfold upd_state, call, with_form, with_heap, with_state in *.

Ltac solve_calls :=
  unfold unselectedCalls; unfold_updates; cbn [calls];
  rewrite ?filter_cons_False by (simpl; congruence); reflexivity.

Lemma getUisInfo_heap obj w w' : heap w' = heap w -> getUisInfo obj w' = getUisInfo obj w.
Proof. unfold getUisInfo. intros ->. reflexivity. Qed.

Lemma selectObject_unselectedCalls s obj w :
  unselectedCalls s (selectObject obj w) = unselectedCalls s w.
Proof. unfold selectObject. repeat case_match; solve_calls. Qed.

Lemma selectObject_moveDeltas obj w :
  moveDeltas (calls (selectObject obj w)) = moveDeltas (calls w).
Proof. unfold selectObject. repeat case_match; reflexivity. Qed.

Lemma unselectObject_moveDeltas obj w :
  moveDeltas (calls (unselectObject obj w)) = moveDeltas (calls w).
Proof. unfold unselectObject. repeat case_match; reflexivity. Qed.

(** A pointer-move writes the drag bookkeeping only. *)
Lemma onMove_frame m w :
  camera (onMove m w) = camera w
  /\ selectAllowedRange (onMove m w) = selectAllowedRange w
  /\ heap (onMove m w) = heap w
  /\ formShown (onMove m w) = formShown w
  /\ selectedObject (state (onMove m w)) = selectedObject (state w)
  /\ isDragging (state (onMove m w)) = isDragging (state w)
  /\ posAtMouseDown (state (onMove m w)) = posAtMouseDown (state w)
  /\ persistentSelected (state (onMove m w)) = persistentSelected (state w)
  /\ (forall s, unselectedCalls s (onMove m w) = unselectedCalls s w)
  /\ (persistentSelectable (state (onMove m w)) = true ->
      persistentSelectable (state w) = true).
Proof.
  unfold onMove. repeat case_match; unfold_updates; reduce_state;
    repeat split; auto; try discriminate; intros; solve_calls.
Qed.

Lemma onMove_within m w :
  (forall p0, posAtMouseDown (state w) = Some p0 ->
     planarDist (getMousePosGivenZ m (pz p0) w) p0 <= selectAllowedRange w) ->
  persistentSelectable (state (onMove m w)) = persistentSelectable (state w).
Proof.
  intros Hin. unfold onMove. destruct (negb (isDragging (state w))); [reflexivity|].
  destruct (selectedObject (state w)) as [o|]; [|reflexivity].
  destruct (getUisInfo (Some o) w) as [info|]; [|reflexivity].
  destruct (posAtMouseDown (state w)) as [p0|]; [|reflexivity].
  specialize (Hin p0 eq_refl).
  rewrite (bool_decide_eq_false_2 (planarDist _ p0 > selectAllowedRange w)) by lra.
  rewrite andb_false_r.
  repeat case_match; reflexivity.
Qed.

Lemma onMove_exceeds m w o info p0 :
  isDragging (state w) = true ->
  selectedObject (state w) = Some o ->
  getUisInfo (Some o) w = Some info ->
  selectable info = true ->
  posAtMouseDown (state w) = Some p0 ->
  planarDist (getMousePosGivenZ m (pz p0) w) p0 > selectAllowedRange w ->
  persistentSelectable (state (onMove m w)) = false.
Proof.
  intros Hd Ho Hi Hs Hp Hx. unfold onMove. rewrite Hd, Ho, Hi, Hp, Hs.
  cbn [negb andb]. rewrite bool_decide_eq_true_2 by exact Hx.
  repeat case_match; reflexivity.
Qed.

Lemma onMove_deltas m w o info p0 pp :
  isDragging (state w) = true ->
  selectedObject (state w) = Some o ->
  getUisInfo (Some o) w = Some info ->
  has_onMove info = true ->
  posAtMouseDown (state w) = Some p0 ->
  prevPos (state w) = Some pp ->
  prevPos (state (onMove m w)) = Some (getMousePosGivenZ m (pz p0) w)
  /\ moveDeltas (calls (onMove m w))
     = vsub (getMousePosGivenZ m (pz p0) w) pp :: moveDeltas (calls w).
Proof.
  intros Hd Ho Hi Hm Hp Hpp. unfold onMove. rewrite Hd, Ho, Hi, Hp, Hm.
  cbn [negb].
  destruct (selectable info && bool_decide (_ > _));
    unfold_updates; reduce_state; rewrite Hpp; split; reflexivity.
Qed.

(** A pointer-up invokes no [onUnselected] and no [onMove]. *)
Lemma onUp_unselectedCalls s e w : unselectedCalls s (onUp e w) = unselectedCalls s w.
Proof.
  unfold onUp. destruct (selectedObject (state w)) as [o|]; [|solve_calls].
  destruct (getUisInfo (Some o) w) as [info|]; [|solve_calls].
  cbv zeta.
  match goal with
  | |- context [if has_onUp info then match posAtMouseDown (state ?x) with _ => _ end else _] =>
    set (w1 := x)
  end.
  assert (H1 : unselectedCalls s w1 = unselectedCalls s w).
  { unfold w1. case_match; [apply selectObject_unselectedCalls|solve_calls]. }
  rewrite <- H1. clearbody w1. repeat case_match; solve_calls.
Qed.

Lemma onUp_moveDeltas e w : moveDeltas (calls (onUp e w)) = moveDeltas (calls w).
Proof.
  unfold onUp. destruct (selectedObject (state w)) as [o|]; [|reflexivity].
  destruct (getUisInfo (Some o) w) as [info|]; [|reflexivity].
  cbv zeta.
  match goal with
  | |- context [if has_onUp info then match posAtMouseDown (state ?x) with _ => _ end else _] =>
    set (w1 := x)
  end.
  assert (H1 : moveDeltas (calls w1) = moveDeltas (calls w)).
  { unfold w1. case_match; [apply selectObject_moveDeltas|reflexivity]. }
  rewrite <- H1. clearbody w1. repeat case_match; reflexivity.
Qed.

(** The selection a pointer-up leaves, for a registered entity in the slot. *)
Lemma onUp_registered e w o so info :
  selectedObject (state w) = Some o ->
  heap w !! o = Some so -> uisInfo so = Some info ->
  if selectable info && persistentSelectable (state w)
  then selectedObject (state (onUp e w)) = Some o
       /\ persistentSelected (state (onUp e w)) = true
  else selectedObject (state (onUp e w)) = None
       /\ persistentSelected (state (onUp e w)) = false.
Proof.
  intros Ho Hh Hi.
  assert (Hg : getUisInfo (Some o) w = Some info).
  { unfold getUisInfo. cbn [mbind option_bind]. rewrite Hh.
    cbn [mbind option_bind]. exact Hi. }
  unfold onUp. rewrite Ho, Hg. cbv zeta.
  destruct (selectable info && persistentSelectable (state w)).
  - destruct (selectObject_registered w o so info Hh Hi) as (H1 & H2 & _).
    set (w1 := selectObject (Some o) w) in *. clearbody w1.
    repeat case_match; unfold_updates; reduce_state; auto.
  - repeat case_match; unfold_updates; reduce_state; auto.
Qed.

(** *** Drag sessions *)

Lemma moves_frame ms : forall w,
  camera (moves ms w) = camera w
  /\ selectAllowedRange (moves ms w) = selectAllowedRange w
  /\ heap (moves ms w) = heap w
  /\ selectedObject (state (moves ms w)) = selectedObject (state w)
  /\ isDragging (state (moves ms w)) = isDragging (state w)
  /\ posAtMouseDown (state (moves ms w)) = posAtMouseDown (state w)
  /\ persistentSelected (state (moves ms w)) = persistentSelected (state w)
  /\ (forall s, unselectedCalls s (moves ms w) = unselectedCalls s w)
  /\ (persistentSelectable (state (moves ms w)) = true ->
      persistentSelectable (state w) = true).
Proof.
  induction ms as [|m ms IH]; intros w; [repeat split; auto|].
  cbn [moves].
  destruct (IH (onMove m w)) as (H1 & H2 & H3 & H4 & H5 & H6 & H7 & H8 & H9).
  destruct (onMove_frame m w) as (G1 & G2 & G3 & _ & G4 & G5 & G6 & G7 & G8 & G9).
  do 7 (split; [congruence|]). split.
  - intros s. rewrite H8. apply G8.
  - intros H. apply G9, H9, H.
Qed.

Lemma moves_within ms : forall w p0,
  posAtMouseDown (state w) = Some p0 ->
  Forall (fun m => planarDist (getMousePosGivenZ m (pz p0) w) p0 <= selectAllowedRange w) ms ->
  persistentSelectable (state (moves ms w)) = persistentSelectable (state w).
Proof.
  induction ms as [|m ms IH]; intros w p0 Hp Hin; [reflexivity|].
  cbn [moves]. apply Forall_cons in Hin as [Hm Hin].
  destruct (onMove_frame m w) as (G1 & G2 & _ & _ & _ & _ & G6 & _).
  rewrite (IH (onMove m w) p0).
  - apply onMove_within. intros p Hp'. rewrite Hp in Hp'. injection Hp' as <-. exact Hm.
  - rewrite G6. exact Hp.
  - eapply Forall_impl; [exact Hin|]. cbn beta. intros m' Hm'.
    rewrite (getMousePosGivenZ_camera m' _ w (onMove m w) G1), G2. exact Hm'.
Qed.

Lemma moves_exceeds ms : forall w o info p0,
  isDragging (state w) = true ->
  selectedObject (state w) = Some o ->
  getUisInfo (Some o) w = Some info ->
  selectable info = true ->
  posAtMouseDown (state w) = Some p0 ->
  Exists (fun m => planarDist (getMousePosGivenZ m (pz p0) w) p0 > selectAllowedRange w) ms ->
  persistentSelectable (state (moves ms w)) = false.
Proof.
  induction ms as [|m ms IH]; intros w o info p0 Hd Ho Hi Hs Hp Hex.
  - apply Exists_nil in Hex. contradiction.
  - cbn [moves].
    destruct (onMove_frame m w) as (G1 & G2 & G3 & _ & G4 & G5 & G6 & _).
    apply Exists_cons in Hex as [Hm|Hex].
    + pose proof (onMove_exceeds m w o info p0 Hd Ho Hi Hs Hp Hm) as Hf.
      destruct (moves_frame ms (onMove m w)) as (_ & _ & _ & _ & _ & _ & _ & _ & Hmono).
      destruct (persistentSelectable (state (moves ms (onMove m w)))); [|reflexivity].
      rewrite Hmono in Hf by reflexivity. discriminate.
    + apply (IH (onMove m w) o info p0); try congruence.
      * rewrite (getUisInfo_heap _ w (onMove m w) G3). exact Hi.
      * eapply Exists_impl; [exact Hex|]. cbn beta. intros m' Hm'.
        rewrite (getMousePosGivenZ_camera m' _ w (onMove m w) G1), G2. exact Hm'.
Qed.

Lemma vec3_eq a b : px a = px b -> py a = py b -> pz a = pz b -> a = b.
Proof. destruct a, b. simpl. intros -> -> ->. reflexivity. Qed.

Lemma vsum_snoc ds d : vsum (ds ++ [d]) = vadd (vsum ds) d.
Proof.
  unfold vsum. induction ds as [|a ds IH]; cbn [foldr app].
  - apply vec3_eq; simpl; lra.
  - rewrite IH. apply vec3_eq; simpl; lra.
Qed.

(** The deltas handed to [onMove] telescope: added to the position before
    the first move they give the position of the last move. *)
Lemma moves_deltas ms : forall w o info p0 pp,
  isDragging (state w) = true ->
  selectedObject (state w) = Some o ->
  getUisInfo (Some o) w = Some info ->
  has_onMove info = true ->
  posAtMouseDown (state w) = Some p0 ->
  prevPos (state w) = Some pp ->
  exists ds,
    moveDeltas (calls (moves ms w)) = ds ++ moveDeltas (calls w)
    /\ length ds = length ms
    /\ vadd (vsum ds) pp
       = default pp (last ((fun m => getMousePosGivenZ m (pz p0) w) <$> ms)).
Proof.
  induction ms as [|m ms IH]; intros w o info p0 pp Hd Ho Hi Hm Hp Hpp.
  - exists []. repeat split. apply vec3_eq; simpl; lra.
  - cbn [moves].
    destruct (onMove_frame m w) as (G1 & G2 & G3 & _ & G4 & G5 & G6 & _).
    destruct (onMove_deltas m w o info p0 pp Hd Ho Hi Hm Hp Hpp) as [Hprev Hcalls].
    destruct (IH (onMove m w) o info p0 (getMousePosGivenZ m (pz p0) w))
      as (ds & Hds & Hlen & Hsum); try congruence.
    { rewrite (getUisInfo_heap _ w (onMove m w) G3). exact Hi. }
    exists (ds ++ [vsub (getMousePosGivenZ m (pz p0) w) pp]).
    split; [|split].
    + rewrite Hds, Hcalls, <- app_assoc. reflexivity.
    + rewrite length_app, Hlen. cbn [length]. lia.
    + rewrite vsum_snoc.
      assert (Hpos : (fun m' => getMousePosGivenZ m' (pz p0) (onMove m w)) <$> ms
                     = (fun m' => getMousePosGivenZ m' (pz p0) w) <$> ms).
      { apply list_fmap_ext. intros _ m' _.
        apply getMousePosGivenZ_camera, G1. }
      rewrite Hpos in Hsum. cbn [fmap list_fmap].
      destruct ((fun m' => getMousePosGivenZ m' (pz p0) w) <$> ms) as [|q qs] eqn:Hq.
      * cbn [last] in *.
        change (vadd (vsum ds) (getMousePosGivenZ m (pz p0) w)
                = getMousePosGivenZ m (pz p0) w) in Hsum.
        change (vadd (vadd (vsum ds) (vsub (getMousePosGivenZ m (pz p0) w) pp)) pp
                = getMousePosGivenZ m (pz p0) w).
        pose proof (f_equal px Hsum) as Hx. pose proof (f_equal py Hsum) as Hy.
        pose proof (f_equal pz Hsum) as Hz. simpl in Hx, Hy, Hz.
        apply vec3_eq; simpl; lra.
      * rewrite last_cons_cons.
        destruct (last (q :: qs)) as [r|] eqn:Hr;
          [|apply last_None in Hr; discriminate].
        change (vadd (vsum ds) (getMousePosGivenZ m (pz p0) w) = r) in Hsum.
        change (vadd (vadd (vsum ds) (vsub (getMousePosGivenZ m (pz p0) w) pp)) pp = r).
        pose proof (f_equal px Hsum) as Hx. pose proof (f_equal py Hsum) as Hy.
        pose proof (f_equal pz Hsum) as Hz. simpl in Hx, Hy, Hz.
        apply vec3_eq; simpl; lra.
Qed.

Lemma onDown_registered d w hit so info :
  intersect d = Some hit ->
  heap w !! object hit = Some so -> uisInfo so = Some info ->
  camera (onDown d w) = camera w
  /\ selectAllowedRange (onDown d w) = selectAllowedRange w
  /\ heap (onDown d w) !! object hit = Some so
  /\ selectedObject (state (onDown d w)) = Some (object hit)
  /\ posAtMouseDown (state (onDown d w)) = Some (downPos d w)
  /\ prevPos (state (onDown d w)) = Some (downPos d w)
  /\ persistentSelectable (state (onDown d w)) = selectable info
  /\ (moveable info = true -> isDragging (state (onDown d w)) = true)
  /\ moveDeltas (calls (onDown d w)) = moveDeltas (calls w).
Proof.
  intros Hhit Hh Hi. unfold downPos. rewrite Hhit.
  destruct (onDown_spec d w hit Hhit) as (w1 & Hw1 & Hcases).
  assert (Hh1 : heap w1 !! object hit = Some so).
  { rewrite Hw1. destruct (persistentSelected (state w)); [|exact Hh].
    cbn [andb]. case_bool_decide as Hsel; [exact Hh|]. cbn [negb].
    rewrite unselectObject_heap_other; [exact Hh|exact Hsel|]. intros _. exact Hsel. }
  assert (Hd1 : moveDeltas (calls w1) = moveDeltas (calls w)).
  { rewrite Hw1. case_match; [apply unselectObject_moveDeltas|reflexivity]. }
  destruct Hcases as [[Hnone _]|(so' & info' & Hso' & Hinfo' & Hc & Hr & Hheap & _ & Hcalls & Hst)].
  - unfold getUisInfo in Hnone. cbn [mbind option_bind] in Hnone.
    rewrite Hh1 in Hnone. cbn [mbind option_bind] in Hnone. congruence.
  - rewrite Hh1 in Hso'. injection Hso' as <-. rewrite Hi in Hinfo'.
    injection Hinfo' as <-. rewrite Hst, Hheap, Hcalls. reduce_state.
    repeat (split; [assumption || reflexivity|]). split.
    + intros ->. reflexivity.
    + rewrite <- Hd1. destruct (has_onDown info); reflexivity.
Qed.

(** A pointer-down on another entity releases the persistent selection. *)
Lemma onDown_release d w hit a soa infoa :
  intersect d = Some hit ->
  holdsPersistentSelection w a ->
  object hit <> a ->
  heap w !! a = Some soa -> uisInfo soa = Some infoa ->
  selectedObject (state (onDown d w)) <> Some a
  /\ persistentSelected (state (onDown d w)) = false
  /\ formShown (onDown d w) = None
  /\ unselectedCalls a (onDown d w)
     = ((if has_onUnselected infoa then 1 else 0) + unselectedCalls a w)%nat.
Proof.
  intros Hhit [Hp Hs] Hne Hh Hi.
  destruct (onDown_spec d w hit Hhit) as (w1 & Hw1 & Hcases).
  rewrite Hp, Hs in Hw1. rewrite bool_decide_eq_false_2 in Hw1 by congruence.
  cbn [andb negb] in Hw1.
  pose proof (unselectObject_registered w a soa infoa Hh Hi) as Hu.
  pose proof (unselectObject_registered_calls w a soa infoa a Hh Hi) as Hc.
  rewrite bool_decide_eq_true_2, andb_true_r in Hc by reflexivity.
  rewrite <- Hw1 in Hu, Hc.
  destruct Hcases as [[_ ->]|(so' & info' & _ & _ & _ & _ & _ & Hform & Hcalls & Hst)].
  - rewrite Hc. rewrite Hu. reduce_state. repeat split. discriminate.
  - rewrite Hst, Hform. reduce_state. split; [congruence|].
    split; [rewrite Hu; reflexivity|]. split; [rewrite Hu; reflexivity|].
    rewrite <- Hc. destruct (has_onDown info').
    + eapply unselectedCalls_other; [exact Hcalls|reflexivity].
    + apply unselectedCalls_eq. exact Hcalls.
Qed.

(** A pointer-down on the selected entity itself invokes no [onUnselected]. *)
Lemma onDown_keep d w hit s :
  intersect d = Some hit ->
  selectedObject (state w) = Some (object hit) ->
  unselectedCalls s (onDown d w) = unselectedCalls s w.
Proof.
  intros Hhit Hs.
  destruct (onDown_spec d w hit Hhit) as (w1 & Hw1 & Hcases).
  rewrite bool_decide_eq_true_2, andb_false_r in Hw1 by exact Hs. subst w1.
  destruct Hcases as [[_ ->]|(so' & info' & _ & _ & _ & _ & _ & _ & Hcalls & _)];
    [reflexivity|].
  destruct (has_onDown info').
  - eapply unselectedCalls_other; [exact Hcalls|reflexivity].
  - apply unselectedCalls_eq. exact Hcalls.
Qed.

Lemma onUp_slot e w :
  selectedObject (state (onUp e w)) = selectedObject (state w)
  \/ selectedObject (state (onUp e w)) = None.
Proof.
  unfold onUp. destruct (selectedObject (state w)) as [o|] eqn:Ho; [|left; exact Ho].
  destruct (getUisInfo (Some o) w) as [info|] eqn:Hg; [|left; exact Ho].
  unfold getUisInfo in Hg. cbn [mbind option_bind] in Hg.
  destruct (heap w !! o) as [so|] eqn:Hh; [|discriminate]. cbn [mbind option_bind] in Hg.
  cbv zeta. destruct (selectable info && persistentSelectable (state w)).
  - left. destruct (selectObject_registered w o so info Hh Hg) as (H1 & _).
    set (w1 := selectObject (Some o) w) in *. clearbody w1.
    repeat case_match; unfold_updates; reduce_state; exact H1.
  - right. repeat case_match; unfold_updates; reduce_state; reflexivity.
Qed.

(** A session that stays within the threshold commits the selection. *)
Lemma session_commits d ms u w hit so info :
  intersect d = Some hit ->
  heap w !! object hit = Some so -> uisInfo so = Some info ->
  selectable info = true ->
  staysWithinRange d ms w ->
  holdsPersistentSelection (session d ms u w) (object hit).
Proof.
  intros Hhit Hh Hi Hsel Hin. unfold session.
  destruct (onDown_registered d w hit so info Hhit Hh Hi)
    as (Dc & Dr & Dh & Ds & Dp & _ & Dps & _).
  destruct (moves_frame ms (onDown d w)) as (Mc & Mr & Mh & Ms & _ & Mp & _).
  assert (Hps : persistentSelectable (state (moves ms (onDown d w))) = true).
  { rewrite (moves_within ms (onDown d w) (downPos d w) Dp); [congruence|].
    eapply Forall_impl; [exact Hin|]. cbn beta. intros m Hm.
    rewrite (getMousePosGivenZ_camera m _ w (onDown d w) Dc), Dr. exact Hm. }
  pose proof (onUp_registered u (moves ms (onDown d w)) (object hit) so info) as Hup.
  rewrite Hsel, Hps in Hup. cbn [andb] in Hup.
  destruct Hup as [H1 H2]; [congruence|congruence|exact Hi|].
  split; assumption.
Qed.

(** A session of a moveable, selectable entity that exceeds the threshold
    at some pointer-move leaves no selection. *)
Lemma session_aborts d ms u w hit so info :
  intersect d = Some hit ->
  heap w !! object hit = Some so -> uisInfo so = Some info ->
  moveable info = true -> selectable info = true ->
  exceedsRange d ms w ->
  selectedObject (state (session d ms u w)) = None
  /\ persistentSelected (state (session d ms u w)) = false.
Proof.
  intros Hhit Hh Hi Hmv Hsel Hex. unfold session.
  destruct (onDown_registered d w hit so info Hhit Hh Hi)
    as (Dc & Dr & Dh & Ds & Dp & _ & Dps & Dd & _).
  destruct (moves_frame ms (onDown d w)) as (Mc & Mr & Mh & Ms & _ & Mp & _).
  assert (Hg : getUisInfo (Some (object hit)) (onDown d w) = Some info).
  { unfold getUisInfo. cbn [mbind option_bind]. rewrite Dh.
    cbn [mbind option_bind]. exact Hi. }
  assert (Hps : persistentSelectable (state (moves ms (onDown d w))) = false).
  { apply (moves_exceeds ms (onDown d w) (object hit) info (downPos d w));
      auto.
    eapply Exists_impl; [exact Hex|]. cbn beta. intros m Hm.
    rewrite (getMousePosGivenZ_camera m _ w (onDown d w) Dc), Dr. exact Hm. }
  pose proof (onUp_registered u (moves ms (onDown d w)) (object hit) so info) as Hup.
  rewrite Hps, andb_false_r in Hup. apply Hup; congruence.
Qed.

(** The deltas of a session telescope to the last pointer-move. *)
Lemma session_deltas d ms u w hit so info :
  intersect d = Some hit ->
  heap w !! object hit = Some so -> uisInfo so = Some info ->
  moveable info = true -> has_onMove info = true ->
  exists ds,
    moveDeltas (calls (session d ms u w)) = ds ++ moveDeltas (calls w)
    /\ length ds = length ms
    /\ vsum ds = vsub (lastMovePos d ms w) (downPos d w).
Proof.
  intros Hhit Hh Hi Hmv Hom. unfold session. rewrite onUp_moveDeltas.
  destruct (onDown_registered d w hit so info Hhit Hh Hi)
    as (Dc & Dr & Dh & Ds & Dp & Dpp & _ & Dd & Dcalls).
  assert (Hg : getUisInfo (Some (object hit)) (onDown d w) = Some info).
  { unfold getUisInfo. cbn [mbind option_bind]. rewrite Dh.
    cbn [mbind option_bind]. exact Hi. }
  destruct (moves_deltas ms (onDown d w) (object hit) info (downPos d w) (downPos d w)
              (Dd Hmv) Ds Hg Hom Dp Dpp) as (ds & Hds & Hlen & Hsum).
  exists ds. split; [rewrite Hds, Dcalls; reflexivity|]. split; [exact Hlen|].
  assert (Hpos : (fun m => getMousePosGivenZ m (pz (downPos d w)) (onDown d w)) <$> ms
                 = (fun m => sessionPos d m w) <$> ms).
  { apply list_fmap_ext. intros _ m _. apply getMousePosGivenZ_camera, Dc. }
  rewrite Hpos in Hsum. fold (lastMovePos d ms w) in Hsum.
  pose proof (f_equal px Hsum) as Hx. pose proof (f_equal py Hsum) as Hy.
  pose proof (f_equal pz Hsum) as Hz. simpl in Hx, Hy, Hz.
  apply vec3_eq; simpl; lra.
Qed.

(** Pointer-moves are ignored while nothing is dragged. *)
Lemma onMove_idle m w : isDragging (state w) = false -> onMove m w = w.
Proof. intros H. unfold onMove. rewrite H. reflexivity. Qed.

Lemma moves_idle ms w : isDragging (state w) = false -> moves ms w = w.
Proof.
  intros H. induction ms as [|m ms IH]; [reflexivity|].
  cbn [moves]. rewrite (onMove_idle m w H). exact IH.
Qed.

(** *** The sample scene *)

Lemma sample_downPos o w : camera w = cam12 -> downPos (downOn o) w = vzero.
Proof.
  intros Hc. unfold downPos, getMousePosGivenZ. cbn [intersect downOn point ray].
  rewrite Hc. apply vec3_eq; simpl; field.
Qed.

Lemma sample_nearPos o w :
  camera w = cam12 -> sessionPos (downOn o) moveNear w = mkVec3 9 0 0.
Proof.
  intros Hc. unfold sessionPos. rewrite (sample_downPos o w Hc).
  unfold getMousePosGivenZ. rewrite Hc. apply vec3_eq; simpl; field.
Qed.

Lemma sample_farPos o w :
  camera w = cam12 -> sessionPos (downOn o) upFar w = mkVec3 16 0 0.
Proof.
  intros Hc. unfold sessionPos. rewrite (sample_downPos o w Hc).
  unfold getMousePosGivenZ. rewrite Hc. apply vec3_eq; simpl; field.
Qed.

Lemma planarDist_on_axis a : 0 <= a -> planarDist (mkVec3 a 0 0) vzero = a.
Proof.
  intros Ha. unfold planarDist. simpl.
  replace ((a - 0) * (a - 0) + (0 - 0) * (0 - 0)) with (a * a) by ring.
  apply sqrt_square, Ha.
Qed.

Lemma sample_within o w :
  camera w = cam12 -> selectAllowedRange w = 15 ->
  staysWithinRange (downOn o) [moveNear] w.
Proof.
  intros Hc Hr. unfold staysWithinRange. apply Forall_singleton.
  rewrite (sample_nearPos o w Hc), (sample_downPos o w Hc), Hr.
  rewrite planarDist_on_axis; lra.
Qed.

Lemma sample_exceeds o w :
  camera w = cam12 -> selectAllowedRange w = 15 ->
  exceedsRange (downOn o) [moveNear; upFar] w.
Proof.
  intros Hc Hr. unfold exceedsRange. apply Exists_cons_tl, Exists_cons_hd.
  rewrite (sample_farPos o w Hc), (sample_downPos o w Hc), Hr.
  rewrite planarDist_on_axis; lra.
Qed.

(** *** C3 *)

(** C3, amended. A pointer-down on an entity other than the one holding the
    persistent selection releases that selection at pointer-down time: the
    holder receives its [onUnselected] call if it has the handler, the
    persistent flag is cleared and the form hidden. Whatever the rest of
    the session, the former holder does not hold the selection after it,
    and no pointer-up ever invokes [onUnselected]. *)
Theorem C3_release_at_pointer_down d w hit a soa infoa :
  intersect d = Some hit ->
  holdsPersistentSelection w a ->
  object hit <> a ->
  heap w !! a = Some soa -> uisInfo soa = Some infoa ->
  (~ holdsPersistentSelection (onDown d w) a
   /\ persistentSelected (state (onDown d w)) = false
   /\ formShown (onDown d w) = None
   /\ unselectedCalls a (onDown d w)
      = ((if has_onUnselected infoa then 1 else 0) + unselectedCalls a w)%nat)
  /\ (forall ms u, ~ holdsPersistentSelection (session d ms u w) a)
  /\ (forall s u w0, unselectedCalls s (onUp u w0) = unselectedCalls s w0).
Proof.
  intros Hhit Hholds Hne Hh Hi.
  destruct (onDown_release d w hit a soa infoa Hhit Hholds Hne Hh Hi)
    as (H1 & H2 & H3 & H4).
  split; [|split].
  - split; [intros [_ Hs]; contradiction|]. auto.
  - intros ms u [_ Hs]. unfold session in Hs.
    destruct (moves_frame ms (onDown d w)) as (_ & _ & _ & Ms & _).
    destruct (onUp_slot u (moves ms (onDown d w))) as [Hu|Hu]; congruence.
  - intros s u w0. apply onUp_unselectedCalls.
Qed.

Lemma C3_release_at_pointer_down_witness :
  (~ holdsPersistentSelection (onDown (downOn 2) sceneSelected1) 1
   /\ persistentSelected (state (onDown (downOn 2) sceneSelected1)) = false
   /\ formShown (onDown (downOn 2) sceneSelected1) = None
   /\ unselectedCalls 1 (onDown (downOn 2) sceneSelected1)
      = (1 + unselectedCalls 1 sceneSelected1)%nat)
  /\ (forall ms u, ~ holdsPersistentSelection (session (downOn 2) ms u sceneSelected1) 1)
  /\ (forall s u w0, unselectedCalls s (onUp u w0) = unselectedCalls s w0).
Proof.
  apply (C3_release_at_pointer_down (downOn 2) sceneSelected1
           (mkIntersect 2 vzero) 1%nat portalMesh portalInfo);
    [reflexivity | split; reflexivity | simpl; lia | reflexivity | reflexivity].
Defined.

(** *** C6 *)

(** C6 fails on the code when the entity clicked is the one already
    selected: entity 1 holds the persistent selection and has an
    [onUnselected] handler; after a short drag on entity 1 it holds the
    selection again and has received no [onUnselected] call. It also fails
    when the previous holder has no [onUnselected] handler, as a note has
    none: after a short drag on entity 2 the note is unselected without any
    [onUnselected] call. *)
Lemma C6_reselect_counterexample :
  (holdsPersistentSelection sceneSelected1 1
   /\ (has_onUnselected <$> getUisInfo (Some 1%nat) sceneSelected1) = Some true
   /\ staysWithinRange (downOn 1) [moveNear] sceneSelected1
   /\ holdsPersistentSelection (session (downOn 1) [moveNear] upHere sceneSelected1) 1
   /\ unselectedCalls 1 (session (downOn 1) [moveNear] upHere sceneSelected1)
      = unselectedCalls 1 sceneSelected1)
  /\ (holdsPersistentSelection noteSceneSelected1 1
      /\ staysWithinRange (downOn 2) [moveNear] noteSceneSelected1
      /\ holdsPersistentSelection
           (session (downOn 2) [moveNear] upHere noteSceneSelected1) 2
      /\ unselectedCalls 1 (session (downOn 2) [moveNear] upHere noteSceneSelected1)
         = unselectedCalls 1 noteSceneSelected1).
Proof.
  assert (Hlater : forall d w s,
            unselectedCalls s (session d [moveNear] upHere w)
            = unselectedCalls s (onDown d w)).
  { intros d w s. unfold session. rewrite onUp_unselectedCalls.
    destruct (moves_frame [moveNear] (onDown d w))
      as (_ & _ & _ & _ & _ & _ & _ & Hc & _).
    apply Hc. }
  split.
  - split; [split; reflexivity|]. split; [reflexivity|].
    split; [apply sample_within; reflexivity|]. split.
    + apply (session_commits (downOn 1) [moveNear] upHere sceneSelected1
               (mkIntersect 1 vzero) portalMesh portalInfo);
        [reflexivity | reflexivity | reflexivity | reflexivity
        | apply sample_within; reflexivity].
    + rewrite Hlater. reflexivity.
  - split; [split; reflexivity|].
    split; [apply sample_within; reflexivity|]. split.
    + apply (session_commits (downOn 2) [moveNear] upHere noteSceneSelected1
               (mkIntersect 2 vzero) portalMesh portalInfo);
        [reflexivity | reflexivity | reflexivity | reflexivity
        | apply sample_within; reflexivity].
    + rewrite Hlater. reflexivity.
Qed.

(** C6, amended. After a drag session on a selectable entity whose
    pointer-moves all stay within the threshold, the entity holds the
    persistent selection. A different registered entity that held it before
    received its [onUnselected] call, once if it has the handler and not at
    all otherwise, at the pointer-down, and none later in the session. When
    the entity itself held the selection before, it receives no
    [onUnselected] call. *)
Theorem C6_short_drag_commits d ms u w hit so info :
  intersect d = Some hit ->
  heap w !! object hit = Some so -> uisInfo so = Some info ->
  selectable info = true ->
  staysWithinRange d ms w ->
  holdsPersistentSelection (session d ms u w) (object hit)
  /\ (forall a soa infoa,
        holdsPersistentSelection w a -> a <> object hit ->
        heap w !! a = Some soa -> uisInfo soa = Some infoa ->
        unselectedCalls a (onDown d w)
        = ((if has_onUnselected infoa then 1 else 0) + unselectedCalls a w)%nat
        /\ unselectedCalls a (session d ms u w) = unselectedCalls a (onDown d w))
  /\ (holdsPersistentSelection w (object hit) ->
      unselectedCalls (object hit) (session d ms u w)
      = unselectedCalls (object hit) w).
Proof.
  intros Hhit Hh Hi Hsel Hin.
  assert (Hlater : forall s,
            unselectedCalls s (session d ms u w) = unselectedCalls s (onDown d w)).
  { intros s. unfold session. rewrite onUp_unselectedCalls.
    destruct (moves_frame ms (onDown d w)) as (_ & _ & _ & _ & _ & _ & _ & Hc & _).
    apply Hc. }
  split; [|split].
  - exact (session_commits d ms u w hit so info Hhit Hh Hi Hsel Hin).
  - intros a soa infoa Hholds Hne Ha Hia. split; [|apply Hlater].
    apply (onDown_release d w hit a soa infoa Hhit Hholds); auto.
  - intros [_ Hs]. rewrite Hlater. apply (onDown_keep d w hit _ Hhit Hs).
Qed.

Lemma C6_short_drag_commits_witness :
  holdsPersistentSelection (session (downOn 2) [moveNear] upHere sceneSelected1) 2
  /\ unselectedCalls 1 (onDown (downOn 2) sceneSelected1)
     = (1 + unselectedCalls 1 sceneSelected1)%nat
  /\ unselectedCalls 1 (session (downOn 2) [moveNear] upHere sceneSelected1)
     = unselectedCalls 1 (onDown (downOn 2) sceneSelected1).
Proof.
  destruct (C6_short_drag_commits (downOn 2) [moveNear] upHere sceneSelected1
              (mkIntersect 2 vzero) portalMesh portalInfo)
    as (H1 & H2 & _);
    [reflexivity | reflexivity | reflexivity | reflexivity
    | apply sample_within; reflexivity |].
  split; [exact H1|].
  apply (H2 1%nat portalMesh portalInfo);
    [split; reflexivity | simpl; lia | reflexivity | reflexivity].
Defined.

(** *** C7 *)

(** C7 fails on the code. The position of the pointer-up is never handed to
    [onMove]: entity 1 is pressed at (0,0), moved to (9,0) and released at
    (16,0), and the one delta handed to [onMove] sums to (9,0), not to the
    displacement (16,0) between pointer-down and pointer-up. And pointer-moves
    are ignored for an entity that is not moveable: entity 3, selectable
    only, is pressed and the pointer moved to (16,0), beyond the threshold
    of 15, and entity 3 is the persistent selection after the pointer-up. *)
Lemma C7_delta_sum_counterexample :
  (exists ds,
     moveDeltas (calls (session (downOn 1) [moveNear] upFar scene))
     = ds ++ moveDeltas (calls scene)
     /\ vsum ds = mkVec3 9 0 0
     /\ vsub (sessionPos (downOn 1) upFar scene) (downPos (downOn 1) scene)
        = mkVec3 16 0 0
     /\ vsum ds <> vsub (sessionPos (downOn 1) upFar scene) (downPos (downOn 1) scene))
  /\ (exceedsRange (downOn 3) [moveNear; upFar] sceneWithLabel
      /\ holdsPersistentSelection
           (session (downOn 3) [moveNear; upFar] upFar sceneWithLabel) 3).
Proof.
  split.
  - destruct (session_deltas (downOn 1) [moveNear] upFar scene
                (mkIntersect 1 vzero) portalMesh portalInfo)
      as (ds & Hds & _ & Hsum);
      [reflexivity | reflexivity | reflexivity | reflexivity | reflexivity |].
    assert (Hc : camera scene = cam12) by reflexivity.
    assert (H9 : vsum ds = mkVec3 9 0 0).
    { rewrite Hsum. unfold lastMovePos. cbn [fmap list_fmap last default from_option id].
      rewrite (sample_nearPos 1 scene Hc), (sample_downPos 1 scene Hc).
      apply vec3_eq; simpl; lra. }
    assert (H16 : vsub (sessionPos (downOn 1) upFar scene) (downPos (downOn 1) scene)
                  = mkVec3 16 0 0).
    { rewrite (sample_farPos 1 scene Hc), (sample_downPos 1 scene Hc).
      apply vec3_eq; simpl; lra. }
    exists ds. split; [exact Hds|]. split; [exact H9|]. split; [exact H16|].
    rewrite H9, H16. intros Heq. apply (f_equal px) in Heq. simpl in Heq. lra.
  - split; [apply sample_exceeds; reflexivity|].
    unfold session. rewrite moves_idle by reflexivity. split; reflexivity.
Qed.

(** C7, amended. For a drag session on a moveable entity: if the entity is
    selectable and some pointer-move lies farther than the threshold from
    the pointer-down position, no entity holds the persistent selection
    after the session; if the entity has an [onMove] handler, one delta is
    handed to it per pointer-move and the deltas sum to the position of the
    last pointer-move minus the position of the pointer-down. *)
Theorem C7_long_drag_and_deltas d ms u w hit so info :
  intersect d = Some hit ->
  heap w !! object hit = Some so -> uisInfo so = Some info ->
  moveable info = true ->
  (selectable info = true -> exceedsRange d ms w ->
   forall o, ~ holdsPersistentSelection (session d ms u w) o)
  /\ (has_onMove info = true ->
      exists ds,
        moveDeltas (calls (session d ms u w)) = ds ++ moveDeltas (calls w)
        /\ length ds = length ms
        /\ vsum ds = vsub (lastMovePos d ms w) (downPos d w)).
Proof.
  intros Hhit Hh Hi Hmv. split.
  - intros Hsel Hex o [Hp _].
    destruct (session_aborts d ms u w hit so info Hhit Hh Hi Hmv Hsel Hex) as [_ Hf].
    congruence.
  - intros Hom. exact (session_deltas d ms u w hit so info Hhit Hh Hi Hmv Hom).
Qed.

Lemma C7_long_drag_and_deltas_witness :
  (forall o, ~ holdsPersistentSelection
                 (session (downOn 1) [moveNear; upFar] upFar scene) o)
  /\ exists ds,
       moveDeltas (calls (session (downOn 1) [moveNear; upFar] upFar scene))
       = ds ++ moveDeltas (calls scene)
       /\ length ds = 2%nat
       /\ vsum ds = vsub (lastMovePos (downOn 1) [moveNear; upFar] scene)
                      (downPos (downOn 1) scene).
Proof.
  destruct (C7_long_drag_and_deltas (downOn 1) [moveNear; upFar] upFar scene
              (mkIntersect 1 vzero) portalMesh portalInfo)
    as (H1 & H2); [reflexivity | reflexivity | reflexivity | reflexivity |].
  split.
  - apply H1; [reflexivity|]. apply sample_exceeds; reflexivity.
  - apply H2. reflexivity.
Defined.

(** *** The single slot *)

Lemma unselectObject_slot obj w :
  state (unselectObject obj w) = state w
  \/ (selectedObject (state (unselectObject obj w)) = None
      /\ persistentSelected (state (unselectObject obj w)) = false).
Proof.
  unfold unselectObject. repeat case_match; auto; right; unfold_handlers;
    repeat case_match; reduce_state; auto.
Qed.

Lemma selectObject_slot obj w :
  state (selectObject obj w) = state w
  \/ (exists o, selectedObject (state (selectObject obj w)) = Some o
                /\ persistentSelected (state (selectObject obj w)) = true).
Proof.
  unfold selectObject. repeat case_match; auto; right; unfold_handlers;
    repeat case_match; reduce_state; eauto.
Qed.

Lemma unselectObject_slotConsistent obj w :
  slotConsistent w -> slotConsistent (unselectObject obj w).
Proof.
  unfold slotConsistent. intros H.
  destruct (unselectObject_slot obj w) as [->|[_ ->]]; [exact H|discriminate].
Qed.

Lemma selectObject_slotConsistent obj w :
  slotConsistent w -> slotConsistent (selectObject obj w).
Proof.
  unfold slotConsistent. intros H.
  destruct (selectObject_slot obj w) as [->|(o & -> & _)]; [exact H|discriminate].
Qed.

Lemma call_slotConsistent c w : slotConsistent w -> slotConsistent (call c w).
Proof. intros H. exact H. Qed.

Lemma deleteSelectedObject_slotConsistent force w :
  slotConsistent w -> slotConsistent (deleteSelectedObject force w).
Proof.
  intros H. unfold deleteSelectedObject. repeat case_match; try exact H;
    try apply call_slotConsistent; apply unselectObject_slotConsistent, H.
Qed.

Lemma onDown_slotConsistent e w : slotConsistent w -> slotConsistent (onDown e w).
Proof.
  intros H. unfold onDown. destruct (intersect e) as [hit|]; [|exact H].
  cbv zeta.
  match goal with
  | |- context [heap ?x !! _] => set (w1 := x)
  end.
  assert (H1 : slotConsistent w1).
  { unfold w1. case_match; [apply unselectObject_slotConsistent|]; exact H. }
  clearbody w1. repeat case_match; try exact H1;
    unfold slotConsistent, upd_state, call, with_state; reduce_state;
    intros _; discriminate.
Qed.

Lemma onUp_slotConsistent e w : slotConsistent w -> slotConsistent (onUp e w).
Proof.
  intros H. unfold onUp.
  destruct (selectedObject (state w)) as [o|] eqn:Ho;
    [|unfold slotConsistent, upd_state, with_state in *; reduce_state; exact H].
  destruct (getUisInfo (Some o) w) as [info|];
    [|unfold slotConsistent, upd_state, with_state in *; reduce_state; exact H].
  cbv zeta.
  match goal with
  | |- context [if has_onUp info then match posAtMouseDown (state ?x) with _ => _ end else _] =>
    set (w1 := x)
  end.
  assert (H1 : slotConsistent w1).
  { unfold w1. case_match; [apply selectObject_slotConsistent, H|].
    unfold slotConsistent, upd_state, with_state. reduce_state. discriminate. }
  clearbody w1. repeat case_match;
    unfold slotConsistent, upd_state, call, with_state in *; reduce_state; exact H1.
Qed.

Lemma onMove_slotConsistent e w : slotConsistent w -> slotConsistent (onMove e w).
Proof.
  intros H. unfold onMove. repeat case_match; try exact H;
    unfold slotConsistent, upd_state, call, with_state in *; reduce_state; exact H.
Qed.

Lemma setUisInfo_slotConsistent obj i w :
  slotConsistent w -> slotConsistent (setUisInfo obj i w).
Proof. intros H. unfold setUisInfo. case_match; exact H. Qed.

Lemma step_slotConsistent w op : slotConsistent w -> slotConsistent (step w op).
Proof.
  intros H. destruct op; cbn [step].
  - apply onDown_slotConsistent, H.
  - apply onMove_slotConsistent, H.
  - apply onUp_slotConsistent, H.
  - apply selectObject_slotConsistent, H.
  - apply unselectObject_slotConsistent, H.
  - apply deleteSelectedObject_slotConsistent, H.
  - unfold deletePointerUp. case_match; [apply deleteSelectedObject_slotConsistent|]; exact H.
  - apply setUisInfo_slotConsistent, H.
  - apply setUisInfo_slotConsistent, H.
Qed.

Lemma run_slotConsistent ops : forall w, slotConsistent w -> slotConsistent (run ops w).
Proof.
  induction ops as [|op ops IH]; intros w H; [exact H|].
  cbn [run fold_left]. apply IH, step_slotConsistent, H.
Qed.

End SelectionProps.

(** ** Portal transit *)

Module TransitProps.
Import JsNum Geometry Portal PortalSamples NumFacts.

Lemma createPortal_core pe : core (createPortal pe).1 = core pe.1.
Proof.
  destruct pe as [p e]. unfold createPortal, createScrewHeads, createBack,
    createTube, createMist, createPointLight, createTorus.
  destruct p; destruct (pointLight0) eqn:Hl; cbn; rewrite ?Hl; cbn; reflexivity.
Qed.

Lemma createPortal_group_rotation pe :
  group_rotation_z (createPortal pe).1 = rotation pe.1.
Proof.
  destruct pe as [p e]. unfold createPortal, createScrewHeads, createBack,
    createTube, createMist, createPointLight, createTorus.
  destruct p; destruct (pointLight0) eqn:Hl; cbn; rewrite ?Hl; cbn; reflexivity.
Qed.

Lemma destroyMesh_core pe n : core (destroyMesh pe n).1 = core pe.1.
Proof.
  destruct pe as [p e]. unfold destroyMesh.
  destruct (physicsBodies n); destruct (node_type n); reflexivity.
Qed.

Lemma destroyPortal_core pe : core (destroyPortal pe).1 = core pe.1.
Proof.
  unfold destroyPortal. generalize ([] ++ children pe.1). intros l.
  revert pe. induction l as [|n l IH]; intros pe; simpl; [reflexivity|].
  rewrite IH. apply destroyMesh_core.
Qed.

Lemma reDraw_core pe : core (reDraw pe).1 = core pe.1.
Proof. unfold reDraw. rewrite createPortal_core. apply destroyPortal_core. Qed.

Lemma reDraw_group_rotation pe : group_rotation_z (reDraw pe).1 = rotation pe.1.
Proof.
  unfold reDraw. rewrite createPortal_group_rotation.
  pose proof (destroyPortal_core pe) as H. unfold core in H. congruence.
Qed.

(** *** C1 *)

(** The composition of the two transforms: an object leaving portal A and
    arriving at portal B has its velocity rotated by
    [rotation B + PI - rotation A]. *)
Lemma transit_velocity_composed body obj pe world topic pB :
  exists newObj added,
    onMessage world topic (transitEnvelope body obj (createPortal pe).1) pB
    = Ok (newObj, added)
    /\ velocity newObj
       = Some (vec2_of (rotatePoint 0 0 (vx (linearVelocity body))
                          (vy (linearVelocity body))
                          (- rotation pe.1 + (rotation pB + PI)))).
Proof.
  unfold onMessage, onMessageWith, transitEnvelope. cbn [velocity vx vy].
  rewrite createPortal_group_rotation.
  destruct (world _ topic); eexists _, _; (split; [reflexivity|]);
    cbn [velocity vx vy]; rewrite rotatePoint_compose; reflexivity.
Qed.

(** The velocity [onMessage] gives the new object, whatever value the
    constant [Math.PI] has. *)
Lemma onMessageWith_velocity mathPI world topic payload v p :
  velocity payload = Some v ->
  exists newObj added,
    onMessageWith mathPI world topic payload p = Ok (newObj, added)
    /\ velocity newObj
       = Some (vec2_of (rotatePoint 0 0 (vx v) (vy v) (rotation p + mathPI))).
Proof.
  intros Hv. unfold onMessageWith. rewrite Hv.
  destruct (world _ topic); eexists _, _; (split; [reflexivity|reflexivity]).
Qed.

(** The envelope of a body moving at (1,0) through a drawn portal of
    rotation 0. *)
Lemma envelope_velocity_unit body obj pA e :
  linearVelocity body = mkVec2 1 0 -> rotation pA = 0 ->
  velocity (transitEnvelope body obj (createPortal (pA, e)).1) = Some (mkVec2 1 0).
Proof.
  intros Hb HA. unfold transitEnvelope. cbn [velocity].
  rewrite createPortal_group_rotation. cbn [fst]. rewrite Hb, HA.
  cbn [vx vy]. rewrite rotatePoint_origin_0. reflexivity.
Qed.

(** C1 fails on the code. [Math.PI] is a double, a little less than pi.
    A body moving at (1,0) crosses portal 1, of rotation 0, and its
    envelope is received at portal 2, of rotation [Math.PI]: the velocity
    of the object spawned there has a negative second component, so it
    is not (1,0). *)
Lemma C1_exact_round_trip_counterexample :
  exists newObj added u,
    onMessageWith Math_PI acceptAll "portal/A/1/Ball/red"
      (transitEnvelope movingRight ball (createPortal (portalAt 1 0, env0)).1)
      (portalAt 2 Math_PI)
    = Ok (newObj, added)
    /\ velocity newObj = Some u
    /\ vy u < 0
    /\ u <> mkVec2 1 0.
Proof.
  pose proof (envelope_velocity_unit movingRight ball (portalAt 1 0) env0 eq_refl eq_refl)
    as Henv.
  destruct (onMessageWith_velocity Math_PI acceptAll "portal/A/1/Ball/red" _
              (mkVec2 1 0) (portalAt 2 Math_PI) Henv) as (newObj & added & Hm & Hv).
  exists newObj, added. eexists. split; [exact Hm|]. split; [exact Hv|].
  cbn [vx vy rotation portalAt vec2_of rotatePoint fst snd].
  pose proof sin_2_Math_PI as Hs.
  assert (Hy : 0 + (1 - 0) * sin (Math_PI + Math_PI) + (0 - 0) * cos (Math_PI + Math_PI) < 0)
    by lra.
  split; [exact Hy|]. intros E. apply (f_equal vy) in E.
  cbn [vy vec2_of rotatePoint snd] in E. lra.
Qed.

(** C1, amended. Outbound: the envelope a drawn portal publishes for a
    transit carries the body's velocity rotated about the origin by minus
    the portal's rotation. Inbound: the velocity of the object handed to the
    world is the envelope's velocity rotated by the portal's rotation plus
    [Math.PI]. A body moving at (1,0) through a portal of rotation 0 gives
    the envelope velocity (1,0). Received at a portal of rotation pi, with
    pi for [Math.PI], that envelope is spawned with velocity (1,0); with the
    double [Math.PI] for both, the velocity is (1,0) only up to rounding:
    its first component is within 10^-30 of 1 and its second lies between
    -4 10^-16 and -10^-16. *)
Theorem C1_frame_transform_round_trip :
  (forall body obj pe c,
     brokerConnection pe.1 = Some c ->
     exists p' m,
       sendObjectToBroker body obj (createPortal pe).1 = Ok p'
       /\ publishedBy p' = (transitTopic obj (createPortal pe).1, m) :: published c
       /\ velocity m
          = Some (vec2_of (rotatePoint 0 0 (vx (linearVelocity body))
                             (vy (linearVelocity body)) (- rotation pe.1))))
  /\ (forall mathPI world topic payload v p,
        velocity payload = Some v ->
        exists newObj added,
          onMessageWith mathPI world topic payload p = Ok (newObj, added)
          /\ velocity newObj
             = Some (vec2_of (rotatePoint 0 0 (vx v) (vy v) (rotation p + mathPI))))
  /\ (forall body obj pA e world topic pB,
        linearVelocity body = mkVec2 1 0 ->
        rotation pA = 0 ->
        let envelope := transitEnvelope body obj (createPortal (pA, e)).1 in
        velocity envelope = Some (mkVec2 1 0)
        /\ (rotation pB = PI ->
            exists newObj added,
              onMessageWith PI world topic envelope pB = Ok (newObj, added)
              /\ velocity newObj = Some (mkVec2 1 0))
        /\ (rotation pB = Math_PI ->
            exists newObj added u,
              onMessageWith Math_PI world topic envelope pB = Ok (newObj, added)
              /\ velocity newObj = Some u
              /\ 1 - 1 / 10 ^ 30 < vx u <= 1
              /\ - (4 / 10 ^ 16) < vy u < - (1 / 10 ^ 16))).
Proof.
  split; [|split].
  - intros body obj pe c Hc.
    pose proof (createPortal_group_rotation pe) as Hg.
    pose proof (createPortal_core pe) as Hcore. unfold core in Hcore.
    set (q := (createPortal pe).1) in *. clearbody q.
    assert (Hb : brokerConnection q = Some c) by congruence.
    unfold sendObjectToBroker. rewrite Hb. eexists _, _.
    split; [reflexivity|]. split.
    + unfold publishedBy. reflexivity.
    + unfold transitEnvelope. cbn [velocity]. rewrite Hg. reflexivity.
  - intros mathPI world topic payload v p Hv.
    apply onMessageWith_velocity, Hv.
  - intros body obj pA e world topic pB Hb HA envelope.
    pose proof (envelope_velocity_unit body obj pA e Hb HA) as Henv.
    fold envelope in Henv. clearbody envelope.
    split; [exact Henv|]. split.
    + intros HB.
      destruct (onMessageWith_velocity PI world topic envelope (mkVec2 1 0) pB Henv)
        as (newObj & added & Hm & Hv).
      exists newObj, added. split; [exact Hm|]. rewrite Hv, HB. cbn [vx vy].
      rewrite rotatePoint_origin_2PI. reflexivity.
    + intros HB.
      destruct (onMessageWith_velocity Math_PI world topic envelope (mkVec2 1 0) pB Henv)
        as (newObj & added & Hm & Hv).
      exists newObj, added. eexists. split; [exact Hm|]. split; [exact Hv|].
      rewrite HB. cbn [vx vy vec2_of rotatePoint fst snd].
      pose proof sin_2_Math_PI as Hs. pose proof cos_2_Math_PI as Hco.
      split; lra.
Qed.

Lemma C1_frame_transform_round_trip_witness :
  let envelope := transitEnvelope movingRight ball (createPortal (portalAt 1 0, env0)).1 in
  velocity envelope = Some (mkVec2 1 0)
  /\ (rotation (portalAt 2 Math_PI) = PI ->
      exists newObj added,
        onMessageWith PI acceptAll "portal/A/1/Ball/red" envelope (portalAt 2 Math_PI)
        = Ok (newObj, added)
        /\ velocity newObj = Some (mkVec2 1 0))
  /\ (rotation (portalAt 2 Math_PI) = Math_PI ->
      exists newObj added u,
        onMessageWith Math_PI acceptAll "portal/A/1/Ball/red" envelope
          (portalAt 2 Math_PI)
        = Ok (newObj, added)
        /\ velocity newObj = Some u
        /\ 1 - 1 / 10 ^ 30 < vx u <= 1
        /\ - (4 / 10 ^ 16) < vy u < - (1 / 10 ^ 16)).
Proof.
  apply (proj2 (proj2 C1_frame_transform_round_trip)
           movingRight ball (portalAt 1 0) env0 acceptAll "portal/A/1/Ball/red"
           (portalAt 2 Math_PI)); reflexivity.
Defined.

(** *** C2 *)

(** C2. Anti-bounce and outbound guard. A collision publishes only when the
    portal is connected, the object is not static and the object is not
    cooling down from this same portal. An object cooling down from portal P
    that collides with P leaves everything as it was: nothing is published.
    Colliding instead with another connected portal Q publishes one
    envelope on Q's connection and consumes the object. *)
Theorem C2_outbound_guard_anti_bounce :
  (forall body obj p p' obj',
     onCollision body obj p = Ok (p', obj') ->
     publishedBy p' <> publishedBy p ->
     connected p = true /\ isStatic obj = false
     /\ ~ (isCoolingDown obj = true /\ getFromPortal obj = Some (self p)))
  /\ (forall body obj p,
        isCoolingDown obj = true ->
        getFromPortal obj = Some (self p) ->
        onCollision body obj p = Ok (p, obj))
  /\ (forall body obj P q c,
        getFromPortal obj = Some P ->
        P <> self q ->
        connected q = true ->
        brokerConnection q = Some c ->
        isStatic obj = false ->
        exists q',
          onCollision body obj q = Ok (q', destroy obj)
          /\ publishedBy q'
             = (transitTopic obj q, transitEnvelope body obj q) :: publishedBy q).
Proof.
  split; [|split].
  - intros body obj p p' obj' H Hne. unfold onCollision in H.
    destruct (connected p); simpl in H; [|injection H as <- <-; congruence].
    destruct (isCoolingDown obj && bool_decide (getFromPortal obj = Some (self p)))
      eqn:Hcool; [injection H as <- <-; congruence|].
    destruct (isStatic obj); simpl in H; [injection H as <- <-; congruence|].
    repeat split; try reflexivity.
    intros [Hc Hf]. rewrite Hc in Hcool. simpl in Hcool.
    apply bool_decide_eq_false in Hcool. contradiction.
  - intros body obj p Hc Hf. unfold onCollision.
    destruct (connected p); simpl; [|reflexivity].
    rewrite Hc. simpl. rewrite bool_decide_eq_true_2 by assumption. reflexivity.
  - intros body obj P q c Hf Hne Hconn Hc Hs. unfold onCollision.
    rewrite Hconn. simpl.
    rewrite (bool_decide_eq_false_2 (getFromPortal obj = Some (self q))),
      andb_false_r by congruence.
    rewrite Hs. simpl. unfold sendObjectToBroker. rewrite Hc.
    eexists. split; [reflexivity|]. unfold publishedBy. simpl. rewrite Hc.
    reflexivity.
Qed.

Lemma C2_outbound_guard_anti_bounce_witness :
  onCollision movingRight arrivedBall (portalAt 1 0) = Ok (portalAt 1 0, arrivedBall)
  /\ exists q',
       onCollision movingRight arrivedBall (portalAt 2 PI) = Ok (q', destroy arrivedBall)
       /\ publishedBy q'
          = (transitTopic arrivedBall (portalAt 2 PI),
             transitEnvelope movingRight arrivedBall (portalAt 2 PI))
            :: publishedBy (portalAt 2 PI).
Proof.
  split.
  - apply (proj1 (proj2 C2_outbound_guard_anti_bounce)); reflexivity.
  - apply (proj2 (proj2 C2_outbound_guard_anti_bounce)
             movingRight arrivedBall 1%nat (portalAt 2 PI) liveConnection);
      [reflexivity | simpl; lia | reflexivity | reflexivity | reflexivity].
Defined.

(** The object the inbound handler has just handed to the world is tagged
    with the receiving portal: a collision with that portal publishes
    nothing. *)
Lemma arrival_is_guarded world topic payload p newObj arrived body :
  onMessage world topic payload p = Ok (newObj, Some arrived) ->
  onCollision body arrived p = Ok (p, arrived).
Proof.
  intros H. unfold onMessage, onMessageWith in H.
  destruct (velocity payload); [|discriminate].
  destruct (world _ topic) as [o|]; [|discriminate].
  injection H as _ <-. unfold onCollision.
  destruct (connected p); simpl; [|reflexivity].
  rewrite bool_decide_eq_true_2 by reflexivity. reflexivity.
Qed.

(** *** C4 *)

(** C4 fails on the code: a portal that has been disabled, whose connection
    handle is dropped and whose [connected] flag is false, still hands a
    message that reaches [onMessage] to the world, and the object is
    spawned. *)
Lemma C4_late_message_counterexample :
  enabled disabledPortal = false
  /\ brokerConnection disabledPortal = None
  /\ connected disabledPortal = false
  /\ exists newObj spawned,
       onMessage acceptAll "portal/A/2/Ball/red" lateEnvelope disabledPortal
       = Ok (newObj, Some spawned).
Proof.
  repeat split.
  eexists _, _. unfold onMessage, onMessageWith. cbn [velocity lateEnvelope transitEnvelope].
  reflexivity.
Qed.

(** C4, amended. Disabling drops the connection handle at once:
    [manageConnection] on a disabled portal leaves no [brokerConnection].
    The message handler itself consults none of [enabled], [connected] and
    [brokerConnection]: whatever their values, a message that reaches it
    with a payload carrying a velocity, as every envelope a portal sends
    does, is processed: the payload is rewritten for the receiving portal
    and handed to the world registry, and the object the registry returns
    is tagged with the portal. So after a disable and the broker's
    disconnect report, with the flag, the handle and [connected] all off,
    a late message still spawns its object. *)
Theorem C4_inbound_ignores_connection_state :
  (forall brokers p,
     brokerConnection (manageConnection brokers (with_enabled false p)) = None)
  /\ (forall world topic payload p en conn cn,
        onMessage world topic payload
          (with_connected cn (with_brokerConnection conn (with_enabled en p)))
        = onMessage world topic payload p)
  /\ (forall body obj p, velocity (transitEnvelope body obj p) <> None)
  /\ (forall world topic payload v p,
        velocity payload = Some v ->
        exists newObj,
          onMessage world topic payload p
          = Ok (newObj, setFromPortal (self p) <$> world newObj topic)
          /\ objectConfig newObj = objectConfig payload
          /\ env_guid newObj = env_guid payload
          /\ env_type newObj = env_type payload)
  /\ (forall brokers world topic payload v p spawned,
        velocity payload = Some v ->
        (forall m, world m topic = Some spawned) ->
        let late := onDisconnect (manageConnection brokers (with_enabled false p)) in
        enabled late = false /\ brokerConnection late = None /\ connected late = false
        /\ exists newObj,
             onMessage world topic payload late
             = Ok (newObj, Some (setFromPortal (self p) spawned))).
Proof.
  assert (Hdrop : forall brokers p,
            brokerConnection (manageConnection brokers (with_enabled false p)) = None).
  { intros brokers p. unfold manageConnection.
    change (enabled (with_enabled false p)) with false.
    change (brokerConnection (with_enabled false p)) with (brokerConnection p).
    cbn [andb negb].
    destruct (brokerConnection p) eqn:Hc.
    + rewrite bool_decide_eq_true_2 by eauto. unfold disconnect.
      change (brokerConnection (with_enabled false p)) with (brokerConnection p).
      rewrite Hc. reflexivity.
    + rewrite bool_decide_eq_false_2 by (intros [? ?]; discriminate).
      exact Hc. }
  assert (Hproc : forall world topic payload v p,
            velocity payload = Some v ->
            exists newObj,
              onMessage world topic payload p
              = Ok (newObj, setFromPortal (self p) <$> world newObj topic)
              /\ objectConfig newObj = objectConfig payload
              /\ env_guid newObj = env_guid payload
              /\ env_type newObj = env_type payload).
  { intros world topic payload v p Hv. unfold onMessage, onMessageWith. rewrite Hv. cbv zeta.
    match goal with |- context [world ?n topic] => exists n end.
    split; [destruct (world _ topic); reflexivity|]. repeat split. }
  split; [exact Hdrop|]. split; [intros; reflexivity|].
  split; [intros body obj p; unfold transitEnvelope; cbn [velocity]; discriminate|].
  split; [exact Hproc|].
  intros brokers world topic payload v p spawned Hv Hw late.
  assert (Hflags : enabled late = false /\ brokerConnection late = None
                   /\ connected late = false /\ self late = self p).
  { unfold late, onDisconnect.
    pose proof (Hdrop brokers p) as Hn.
    assert (He : enabled (manageConnection brokers (with_enabled false p)) = false
                 /\ self (manageConnection brokers (with_enabled false p)) = self p).
    { unfold manageConnection, connect, disconnect.
      change (enabled (with_enabled false p)) with false.
      cbn [andb negb]. repeat case_match; split; reflexivity. }
    set (q := manageConnection brokers (with_enabled false p)) in *. clearbody q.
    destruct He as [He Hs]. repeat split; assumption. }
  destruct Hflags as (He & Hn & Hc & Hs).
  split; [exact He|]. split; [exact Hn|]. split; [exact Hc|].
  destruct (Hproc world topic payload v late Hv) as (newObj & Hm & _).
  exists newObj. rewrite Hm, Hw, Hs. reflexivity.
Qed.

Lemma C4_inbound_ignores_connection_state_witness :
  enabled disabledPortal = false
  /\ brokerConnection disabledPortal = None
  /\ connected disabledPortal = false
  /\ exists newObj,
       onMessage (fun m _ => Some ball) "portal/A/2/Ball/red" lateEnvelope disabledPortal
       = Ok (newObj, Some (setFromPortal 1 ball)).
Proof.
  apply (proj2 (proj2 (proj2 (proj2 C4_inbound_ignores_connection_state)))
           ["broker"] (fun m _ => Some ball) "portal/A/2/Ball/red" lateEnvelope
           (vec2_of (rotatePoint 0 0 1 0 (- 0))) (portalAt 1 0) ball).
  - reflexivity.
  - intros m. reflexivity.
Defined.

End TransitProps.

(** ** Pivot rotation *)

Module PivotProps.
Import JsNum Geometry Portal PortalSamples NumFacts.

Lemma flipCorrection_no_wrap rotation angle :
  - (PI * 2) < rotation - angle < PI * 2 ->
  flipCorrection rotation angle
  = if decide (Rabs (rotation - angle) > PI / 2) then PI else 0.
Proof.
  intros H. unfold flipCorrection. rewrite rem_small; [reflexivity| |exact H].
  pose proof PI_RGT_0. lra.
Qed.

(** The examples of the specification: from rotation 0, a bearing of PI is
    corrected by PI and a bearing of 0.2 is not corrected. *)
Lemma flipCorrection_examples :
  flipCorrection 0 PI = PI /\ flipCorrection 0 (2 / 10) = 0.
Proof.
  pose proof PI_lower as HPI. split.
  - rewrite flipCorrection_no_wrap by lra.
    destruct (decide (Rabs (0 - PI) > PI / 2)) as [_|Hn]; [reflexivity|].
    exfalso. apply Hn. rewrite Rabs_left by lra. lra.
  - rewrite flipCorrection_no_wrap by lra.
    destruct (decide (Rabs (0 - 2 / 10) > PI / 2)) as [Hy|_]; [|reflexivity].
    exfalso. rewrite Rabs_left in Hy by lra. lra.
Qed.

(** Below a difference of three quarter turns the code agrees with the
    wrapped angular difference of the specification. *)
Lemma flipCorrection_agrees rotation angle :
  Rabs (rotation - angle) < 3 * PI / 2 ->
  flipCorrection rotation angle
  = if decide (spec_wrappedAngularDifference angle rotation > PI / 2) then PI else 0.
Proof.
  intros H. pose proof PI_lower as HPI.
  assert (Hd : - (PI * 2) < rotation - angle < PI * 2).
  { apply Rabs_def2 in H. lra. }
  rewrite flipCorrection_no_wrap by exact Hd.
  unfold spec_wrappedAngularDifference. rewrite rem_small; [|lra|lra].
  replace (Rabs (angle - rotation)) with (Rabs (rotation - angle))
    by (rewrite <- Rabs_Ropp; f_equal; lra).
  set (d := Rabs (rotation - angle)) in *.
  assert (0 <= d) by apply Rabs_pos.
  unfold Rmin. destruct (Rle_dec d (PI * 2 - d)) as [Hle|Hgt].
  - reflexivity.
  - destruct (decide (d > PI / 2)) as [_|Hn]; [|lra].
    destruct (decide (PI * 2 - d > PI / 2)) as [_|Hn]; [reflexivity|lra].
Qed.

(** From three quarter turns up to a full turn the code corrects by PI
    although the two directions are less than a quarter turn apart. *)
Lemma flipCorrection_wrap_slip rotation angle :
  3 * PI / 2 < rotation - angle < PI * 2 ->
  flipCorrection rotation angle = PI
  /\ spec_wrappedAngularDifference angle rotation < PI / 2.
Proof.
  intros H. pose proof PI_lower as HPI. split.
  - rewrite flipCorrection_no_wrap by lra.
    destruct (decide (Rabs (rotation - angle) > PI / 2)) as [_|Hn]; [reflexivity|].
    exfalso. apply Hn. rewrite Rabs_right by lra. lra.
  - unfold spec_wrappedAngularDifference. rewrite rem_small; [|lra|lra].
    rewrite Rabs_left by lra.
    apply Rle_lt_trans with (PI * 2 - - (angle - rotation)); [apply Rmin_r|lra].
Qed.

Lemma bearing_below pivot pos :
  px pivot = px pos -> py pivot < py pos -> bearing pivot pos = 0.
Proof.
  intros Hx Hy. unfold bearing.
  replace (px pivot - px pos) with 0 by lra.
  rewrite atan2_x0_neg by lra. lra.
Qed.

Lemma bearing_above pivot pos :
  px pivot = px pos -> py pos < py pivot -> bearing pivot pos = PI.
Proof.
  intros Hx Hy. unfold bearing.
  replace (px pivot - px pos) with 0 by lra.
  rewrite atan2_x0_pos by lra. lra.
Qed.

(** C5. Pivot-flip correction at a wrap. The portal is turned to 7 PI / 4,
    the pivot is at (0,0) and the pointer goes down at (0,1): the bearing is
    0, so the bearing and the rotation are PI / 4 apart, which does not
    exceed PI / 2, and yet the recorded correction is PI. *)
Theorem C5_pivot_flip_correction_wrap :
  exists p',
    onDownScrewHead (fun _ => vzero) 5 (mkVec3 0 1 0) turnedPortal = Ok p'
    /\ rotationPoint p' = Some vzero
    /\ bearing vzero (mkVec3 0 1 0) = 0
    /\ spec_wrappedAngularDifference (bearing vzero (mkVec3 0 1 0))
         (rotation turnedPortal) = PI / 4
    /\ rotationAdjustment p' = PI.
Proof.
  pose proof PI_lower as HPI.
  assert (Hb : bearing vzero (mkVec3 0 1 0) = 0).
  { apply bearing_below; simpl; lra. }
  eexists. split; [reflexivity|]. split; [reflexivity|]. split; [exact Hb|].
  cbn [rotationAdjustment with_pivot rotation turnedPortal with_screwHeads portalAt].
  rewrite Hb. split.
  - unfold spec_wrappedAngularDifference. rewrite rem_small; [|lra|lra].
    rewrite Rabs_left by lra. unfold Rmin.
    destruct (Rle_dec _ _); lra.
  - apply flipCorrection_wrap_slip. lra.
Qed.

(** With the pivot at (0,0) and rotation 0, a pointer below the pivot gives
    the bearing PI and the correction PI. *)
Lemma onDownScrewHead_opposite :
  exists p',
    onDownScrewHead (fun _ => vzero) 5 (mkVec3 0 (-1) 0)
      (with_screwHeads [5%nat; 6%nat] (portalAt 1 0)) = Ok p'
    /\ bearing vzero (mkVec3 0 (-1) 0) = PI
    /\ rotationAdjustment p' = PI.
Proof.
  assert (Hb : bearing vzero (mkVec3 0 (-1) 0) = PI).
  { apply bearing_above; simpl; lra. }
  eexists. split; [reflexivity|]. split; [exact Hb|].
  cbn [rotationAdjustment with_pivot rotation with_screwHeads portalAt].
  rewrite Hb. apply flipCorrection_examples.
Qed.

End PivotProps.

(** ** Portal geometry *)

Module HygieneProps.
Import JsNum Geometry Portal PortalSamples TransitProps.

(** *** Destruction *)

Lemma filter_all {A} (P : A -> Prop) `{forall x, Decision (P x)} (l : list A) :
  Forall P l -> filter P l = l.
Proof.
  induction 1 as [|a l Ha _ IH]; [reflexivity|].
  rewrite filter_cons_True by assumption. f_equal. exact IH.
Qed.

Lemma filter_none {A} (P : A -> Prop) `{forall x, Decision (P x)} (l : list A) :
  Forall (fun a => ~ P a) l -> filter P l = [].
Proof.
  induction 1 as [|a l Ha _ IH]; [reflexivity|].
  rewrite filter_cons_False by assumption. exact IH.
Qed.

(** Removing the bodies of one mesh. *)
Lemma removeBodies_fold bs e :
  fold_left
    (fun e b => mkEnv (removeBody b (physics e)) (nextNode e)
                      (RemovedBody b :: removals e)) bs e
  = mkEnv (mkPhysics (filter (fun a => body_id a ∉ bs) (bodies (physics e)))
             (nextBody (physics e)))
      (nextNode e) (rev (RemovedBody <$> bs) ++ removals e).
Proof.
  revert e. induction bs as [|b bs IH]; intros e.
  - simpl. destruct e as [[l nb] nn rm]. simpl. rewrite filter_all; [reflexivity|].
    apply Forall_forall. intros a _. apply not_elem_of_nil.
  - cbn [fold_left]. rewrite IH. cbn [physics nextNode removals removeBody bodies nextBody].
    f_equal.
    + f_equal. rewrite list_filter_filter. apply list_filter_iff.
      intros a. rewrite not_elem_of_cons. tauto.
    + cbn [fmap list_fmap rev]. rewrite <- app_assoc. reflexivity.
Qed.

(** The engine and the record of removals after the destruction of the
    nodes [cs] depend on [cs] alone. *)
Lemma destroy_fold_env cs p e :
  (fold_left destroyMesh cs (p, e)).2
  = mkEnv (mkPhysics (filter (fun a => body_id a ∉ bodiesOfNodes cs) (bodies (physics e)))
             (nextBody (physics e)))
      (nextNode e) (rev (concat (nodeRemovals <$> cs)) ++ removals e).
Proof.
  revert p e. induction cs as [|c cs IH]; intros p e.
  - simpl. destruct e as [[l nb] nn rm]. simpl. rewrite filter_all; [reflexivity|].
    apply Forall_forall. intros a _. apply not_elem_of_nil.
  - cbn [fold_left].
    destruct (destroyMesh (p, e) c) as [p1 e1] eqn:Hd. rewrite IH.
    assert (He1 : e1 = mkEnv
              (mkPhysics (filter (fun a => body_id a ∉ nodeBodies c) (bodies (physics e)))
                 (nextBody (physics e)))
              (nextNode e) (rev (nodeRemovals c) ++ removals e)).
    { unfold destroyMesh in Hd. unfold nodeRemovals, nodeBodies.
      destruct (physicsBodies c) as [bs|]; cbn [default].
      - rewrite removeBodies_fold in Hd.
        destruct (node_type c); injection Hd as _ <-;
          cbn [physics nextNode removals]; rewrite ?rev_app_distr, ?app_nil_r;
          reflexivity.
      - assert (Hf : filter (fun a => body_id a ∉ @nil nat) (bodies (physics e))
                     = bodies (physics e)).
        { apply filter_all, Forall_forall. intros a _. apply not_elem_of_nil. }
        rewrite Hf. destruct e as [[l nb] nn rm].
        destruct (node_type c); injection Hd as _ <-; reflexivity. }
    subst e1. cbn [physics nextNode removals bodies nextBody]. f_equal.
    + f_equal. rewrite list_filter_filter. apply list_filter_iff.
      intros a. unfold bodiesOfNodes. cbn [fmap list_fmap concat].
      rewrite not_elem_of_app. tauto.
    + cbn [fmap list_fmap concat]. rewrite rev_app_distr, <- app_assoc. reflexivity.
Qed.

Lemma set_node_bodies_id n bs c : node_id (set_node_bodies n bs c) = node_id c.
Proof. unfold set_node_bodies. destruct (decide (node_id c = n)); reflexivity. Qed.

Lemma destroyMesh_children p e c c'' :
  c'' ∈ children (destroyMesh (p, e) c).1 ->
  (physicsBodies c = None /\ c'' ∈ children p)
  \/ (physicsBodies c <> None
      /\ exists c', c' ∈ children p /\ c'' = set_node_bodies (node_id c) (Some []) c').
Proof.
  unfold destroyMesh. intros Hin.
  destruct (physicsBodies c) as [bs|] eqn:Hb.
  - right. split; [congruence|].
    assert (Hin' : c'' ∈ children (setPhysicsBodies (node_id c) (Some []) p)).
    { destruct (node_type c); cbn [fst removeNode children with_children] in Hin;
        try (apply list_elem_of_filter in Hin as [_ Hin]); exact Hin. }
    cbn [setPhysicsBodies children with_children] in Hin'.
    apply list_elem_of_fmap in Hin' as (c' & -> & Hc'). exists c'. auto.
  - left. split; [reflexivity|].
    destruct (node_type c); cbn [fst removeNode children with_children] in Hin;
      try (apply list_elem_of_filter in Hin as [_ Hin]); exact Hin.
Qed.

(** After the destruction no remaining child refers to a body. *)
Lemma destroy_fold_cleared cs : forall p e,
  (forall c', c' ∈ children p -> nodeBodies c' = [] \/ c' ∈ cs) ->
  forall c', c' ∈ children (fold_left destroyMesh cs (p, e)).1 -> nodeBodies c' = [].
Proof.
  induction cs as [|c cs IH]; intros p e Hinv c' Hin.
  - simpl in Hin. destruct (Hinv c' Hin) as [H|H]; [exact H|].
    apply elem_of_nil in H. contradiction.
  - cbn [fold_left] in Hin.
    destruct (destroyMesh (p, e) c) as [p1 e1] eqn:Hd.
    apply (IH p1 e1); [|exact Hin].
    intros c1 H1.
    assert (H1' : c1 ∈ children (destroyMesh (p, e) c).1) by (rewrite Hd; exact H1).
    apply destroyMesh_children in H1' as [[Hnone Hc1]|(Hsome & c0 & Hc0 & ->)].
    + destruct (Hinv c1 Hc1) as [H|H]; [left; exact H|].
      apply elem_of_cons in H as [->|H]; [|right; exact H].
      left. unfold nodeBodies. rewrite Hnone. reflexivity.
    + unfold set_node_bodies. destruct (decide (node_id c0 = node_id c)) as [Hid|Hid].
      * left. reflexivity.
      * destruct (Hinv c0 Hc0) as [H|H]; [left; exact H|].
        apply elem_of_cons in H as [->|H]; [contradiction|right; exact H].
Qed.

(** The destruction creates no node. *)
Lemma destroy_fold_ids (Q : nat -> Prop) cs : forall p e,
  Forall (fun c => Q (node_id c)) (children p) ->
  Forall (fun c => Q (node_id c)) (children (fold_left destroyMesh cs (p, e)).1).
Proof.
  induction cs as [|c cs IH]; intros p e HQ; [exact HQ|].
  cbn [fold_left]. destruct (destroyMesh (p, e) c) as [p1 e1] eqn:Hd.
  apply IH. apply Forall_forall. intros c1 H1.
  assert (H1' : c1 ∈ children (destroyMesh (p, e) c).1) by (rewrite Hd; exact H1).
  rewrite Forall_forall in HQ.
  apply destroyMesh_children in H1' as [[_ Hc1]|(_ & c0 & Hc0 & ->)].
  - apply HQ, Hc1.
  - rewrite set_node_bodies_id. apply HQ, Hc0.
Qed.

Lemma bodiesOfNodes_nil cs : (forall c, c ∈ cs -> nodeBodies c = []) -> bodiesOfNodes cs = [].
Proof.
  unfold bodiesOfNodes. induction cs as [|c cs IH]; intros H; [reflexivity|].
  cbn [fmap list_fmap concat]. rewrite (H c) by apply list_elem_of_here.
  apply IH. intros c' Hc'. apply H. apply list_elem_of_further, Hc'.
Qed.

Lemma self_of_core p q : core p = core q -> self p = self q.
Proof. unfold core. congruence. Qed.

(** [destroyPortal] keeps the portal hygienic and leaves it without bodies. *)
Lemma destroyPortal_hygienic pe :
  hygienic pe ->
  hygienic (destroyPortal pe)
  /\ requiredBodies (destroyPortal pe).1 = []
  /\ bodiesOf (self pe.1) (physics (destroyPortal pe).2) = [].
Proof.
  destruct pe as [p e]. intros (Hn & Hb & Hnd & Heq). cbn [fst snd] in *.
  assert (Hreq : requiredBodies (destroyPortal (p, e)).1 = []).
  { apply bodiesOfNodes_nil. unfold destroyPortal. cbn [fst app].
    apply destroy_fold_cleared. auto. }
  assert (Hself : self (destroyPortal (p, e)).1 = self p).
  { apply self_of_core, destroyPortal_core. }
  assert (Hbodies : bodiesOf (self p) (physics (destroyPortal (p, e)).2) = []).
  { unfold destroyPortal. cbn [fst app]. rewrite destroy_fold_env. cbn [physics].
    unfold bodiesOf. cbn [bodies]. rewrite list_filter_filter.
    rewrite filter_none; [reflexivity|].
    apply Forall_forall. intros a Ha [Ho Hnot]. apply Hnot.
    change (bodiesOfNodes (children p)) with (requiredBodies p). rewrite <- Heq.
    unfold bodiesOf. apply list_elem_of_fmap_2. apply list_elem_of_filter. auto. }
  split; [|split; assumption].
  unfold hygienic. rewrite Hself, Hreq, Hbodies.
  unfold destroyPortal. cbn [fst app]. rewrite destroy_fold_env.
  cbn [snd physics nextNode bodies nextBody].
  split; [apply (destroy_fold_ids (fun n => (n < nextNode e)%nat)); exact Hn|].
  split; [|split; [|reflexivity]].
  - apply Forall_forall. intros a Ha. apply list_elem_of_filter in Ha as [_ Ha].
    rewrite Forall_forall in Hb. apply Hb, Ha.
  - eapply sublist_NoDup; [exact Hnd|apply fmap_sublist, sublist_filter].
Qed.

(** *** Creation *)

Lemma bodiesOfNodes_app cs1 cs2 :
  bodiesOfNodes (cs1 ++ cs2) = bodiesOfNodes cs1 ++ bodiesOfNodes cs2.
Proof. unfold bodiesOfNodes. rewrite fmap_app, concat_app. reflexivity. Qed.

Lemma set_node_bodies_other n bs cs :
  Forall (fun c => node_id c <> n) cs -> set_node_bodies n bs <$> cs = cs.
Proof.
  induction 1 as [|c cs Hc _ IH]; [reflexivity|].
  cbn [fmap list_fmap]. unfold set_node_bodies at 1.
  rewrite decide_False by exact Hc. f_equal. exact IH.
Qed.

(** The loop that creates the bodies of a mesh just added to the group:
    [acc] are the bodies already created for it. *)
Lemma createBodies_hygienic specs : forall n t acc cs p e,
  children p = cs ++ [mkNode n t None] ->
  Forall (fun c => (node_id c < n)%nat) cs ->
  (n < nextNode e)%nat ->
  Forall (fun b => (body_id b < nextBody (physics e))%nat) (bodies (physics e)) ->
  NoDup (body_id <$> bodies (physics e)) ->
  bodiesOf (self p) (physics e) = bodiesOfNodes cs ++ acc ->
  let r := createBodies n specs acc (p, e) in
  hygienic r
  /\ core r.1 = core p
  /\ pointLight r.1 = pointLight p
  /\ nextNode r.2 = nextNode e
  /\ length (requiredBodies r.1) = (length (bodiesOfNodes cs) + length acc + length specs)%nat.
Proof.
  induction specs as [|[sh hook] specs IH]; intros n t acc cs p e Hch Hcs Hn Hb Hnd Heq.
  - cbn [createBodies fst snd].
    assert (Hch' : children (setPhysicsBodies n (Some acc) p)
                   = cs ++ [mkNode n t (Some acc)]).
    { cbn [setPhysicsBodies children with_children].
      rewrite Hch, fmap_app, set_node_bodies_other.
      2:{ eapply Forall_impl; [exact Hcs|]. simpl. intros; lia. }
      cbn [fmap list_fmap]. unfold set_node_bodies. cbn [node_id].
      rewrite decide_True by reflexivity. reflexivity. }
    assert (Hreq : requiredBodies (setPhysicsBodies n (Some acc) p)
                   = bodiesOfNodes cs ++ acc).
    { unfold requiredBodies. rewrite Hch', bodiesOfNodes_app. f_equal.
      unfold bodiesOfNodes. cbn [fmap list_fmap concat nodeBodies physicsBodies default].
      apply app_nil_r. }
    unfold hygienic. cbn [fst snd]. rewrite Hreq, Hch'.
    repeat split; try assumption; try reflexivity.
    + apply Forall_app. split.
      * eapply Forall_impl; [exact Hcs|]. simpl. intros; lia.
      * apply Forall_singleton. simpl. exact Hn.
    + rewrite length_app. cbn [length]. lia.
  - cbn [createBodies fst snd createBody].
    specialize (IH n t (acc ++ [nextBody (physics e)]) cs p
                  (with_physics
                     (mkPhysics (bodies (physics e)
                                 ++ [mkBody (nextBody (physics e)) (self p) sh hook])
                        (S (nextBody (physics e)))) e)).
    cbn [with_physics physics nextNode bodies nextBody] in IH.
    destruct IH as (H1 & H2 & H3 & H4 & H5); try assumption.
    + apply Forall_app. split.
      * eapply Forall_impl; [exact Hb|]. simpl. intros; lia.
      * apply Forall_singleton. simpl. lia.
    + rewrite fmap_app. apply NoDup_app. split; [exact Hnd|]. split.
      * intros i Hi Hi'. cbn [fmap list_fmap body_id] in Hi'.
        apply list_elem_of_singleton in Hi'. subst i.
        apply list_elem_of_fmap in Hi as (b & Hbid & Hbin).
        rewrite Forall_forall in Hb. specialize (Hb b Hbin). lia.
      * apply NoDup_singleton.
    + unfold bodiesOf in *. cbn [bodies] in *. rewrite filter_app, fmap_app, Heq.
      rewrite filter_cons_True by reflexivity. rewrite filter_nil.
      cbn [fmap list_fmap body_id]. rewrite app_assoc. reflexivity.
    + split; [exact H1|]. split; [exact H2|]. split; [exact H3|].
      split; [exact H4|]. rewrite H5, length_app. cbn [length]. lia.
Qed.

(** A mesh added to the group together with its bodies. *)
Lemma meshWithBodies_hygienic specs pe :
  hygienic pe ->
  let r := (let '(mesh, pe1) := addNode TMesh pe in createBodies mesh specs [] pe1) in
  hygienic r
  /\ core r.1 = core pe.1
  /\ pointLight r.1 = pointLight pe.1
  /\ length (requiredBodies r.1) = (length (requiredBodies pe.1) + length specs)%nat.
Proof.
  destruct pe as [p e]. intros (Hn & Hb & Hnd & Heq). cbn [fst snd] in *.
  cbn [addNode].
  pose proof (createBodies_hygienic specs (nextNode e) TMesh [] (children p)
                (with_children (children p ++ [mkNode (nextNode e) TMesh None]) p)
                (mkEnv (physics e) (S (nextNode e)) (removals e))) as H.
  cbn [children with_children physics nextNode self] in H.
  destruct H as (H1 & H2 & H3 & H4 & H5); try assumption; try reflexivity.
  - lia.
  - rewrite app_nil_r. exact Heq.
  - split; [exact H1|]. split; [exact H2|]. split; [exact H3|].
    rewrite H5. cbn [length]. unfold requiredBodies. lia.
Qed.

(** A node without bodies added to the group. *)
Lemma addNode_hygienic t pe :
  hygienic pe ->
  let r := (addNode t pe).2 in
  hygienic r
  /\ core r.1 = core pe.1
  /\ pointLight r.1 = pointLight pe.1
  /\ requiredBodies r.1 = requiredBodies pe.1.
Proof.
  destruct pe as [p e]. intros (Hn & Hb & Hnd & Heq). cbn [fst snd] in *.
  cbn [addNode snd fst].
  assert (Hreq : requiredBodies
                   (with_children (children p ++ [mkNode (nextNode e) t None]) p)
                 = requiredBodies p).
  { unfold requiredBodies. cbn [children with_children].
    rewrite bodiesOfNodes_app. unfold bodiesOfNodes at 2.
    cbn [fmap list_fmap concat nodeBodies physicsBodies default].
    rewrite !app_nil_r. reflexivity. }
  split; [|split; [reflexivity|split; [reflexivity|exact Hreq]]].
  unfold hygienic. cbn [fst snd physics nextNode]. rewrite Hreq.
  split; [|split; [exact Hb|split; [exact Hnd|exact Heq]]].
  cbn [children with_children]. apply Forall_app. split.
  - eapply Forall_impl; [exact Hn|]. simpl. intros; lia.
  - apply Forall_singleton. simpl. lia.
Qed.

Lemma hygienic_ext pe pe' :
  self pe'.1 = self pe.1 -> children pe'.1 = children pe.1 -> pe'.2 = pe.2 ->
  hygienic pe -> hygienic pe'.
Proof.
  unfold hygienic, requiredBodies. intros -> -> ->. trivial.
Qed.

Lemma createTorus_hygienic pe :
  hygienic pe ->
  hygienic (createTorus pe) /\ core (createTorus pe).1 = core pe.1
  /\ pointLight (createTorus pe).1 = pointLight pe.1
  /\ length (requiredBodies (createTorus pe).1) = (length (requiredBodies pe.1) + 2)%nat.
Proof. intros H. exact (meshWithBodies_hygienic [(Circle, false); (Circle, false)] pe H). Qed.

Lemma createTube_hygienic pe :
  hygienic pe ->
  hygienic (createTube pe) /\ core (createTube pe).1 = core pe.1
  /\ pointLight (createTube pe).1 = pointLight pe.1
  /\ length (requiredBodies (createTube pe).1) = (length (requiredBodies pe.1) + 2)%nat.
Proof. intros H. exact (meshWithBodies_hygienic [(Box, false); (Box, false)] pe H). Qed.

Lemma createBack_hygienic pe :
  hygienic pe ->
  hygienic (createBack pe) /\ core (createBack pe).1 = core pe.1
  /\ pointLight (createBack pe).1 = pointLight pe.1
  /\ length (requiredBodies (createBack pe).1) = (length (requiredBodies pe.1) + 2)%nat.
Proof. intros H. exact (meshWithBodies_hygienic [(Box, false); (Box, true)] pe H). Qed.

Lemma createMist_hygienic pe :
  hygienic pe ->
  hygienic (createMist pe) /\ core (createMist pe).1 = core pe.1
  /\ pointLight (createMist pe).1 = pointLight pe.1
  /\ requiredBodies (createMist pe).1 = requiredBodies pe.1.
Proof. intros H. exact (addNode_hygienic TMesh pe H). Qed.

Lemma createPointLight_hygienic pe :
  hygienic pe ->
  hygienic (createPointLight pe) /\ core (createPointLight pe).1 = core pe.1
  /\ requiredBodies (createPointLight pe).1 = requiredBodies pe.1.
Proof.
  intros H. unfold createPointLight. destruct (pointLight pe.1); [auto|].
  destruct (addNode_hygienic TPointLight pe H) as (H1 & H2 & _ & H4).
  destruct (addNode TPointLight pe) as [light [p e]]. cbn [fst snd] in *.
  split; [|split; [exact H2|exact H4]].
  eapply hygienic_ext; [| | |exact H1]; reflexivity.
Qed.

Lemma createScrewHeads_hygienic pe :
  hygienic pe ->
  hygienic (createScrewHeads pe) /\ core (createScrewHeads pe).1 = core pe.1
  /\ requiredBodies (createScrewHeads pe).1 = requiredBodies pe.1.
Proof.
  intros H. unfold createScrewHeads. cbn [fold_left].
  assert (H0 : hygienic (with_screwHeads [] pe.1, pe.2)).
  { eapply hygienic_ext; [| | |exact H]; reflexivity. }
  destruct (addNode_hygienic TGroup _ H0) as (H1 & H2 & _ & H4).
  destruct (addNode TGroup (with_screwHeads [] pe.1, pe.2)) as [pivot1 [p1 e1]].
  cbn [fst snd] in *.
  assert (H1' : hygienic (with_screwHeads (screwHeads p1 ++ [pivot1]) p1, e1)).
  { eapply hygienic_ext; [| | |exact H1]; reflexivity. }
  destruct (addNode_hygienic TGroup _ H1') as (H5 & H6 & _ & H8).
  destruct (addNode TGroup (with_screwHeads (screwHeads p1 ++ [pivot1]) p1, e1))
    as [pivot2 [p2 e2]].
  cbn [fst snd] in *.
  split; [|split].
  - eapply hygienic_ext; [| | |exact H5]; reflexivity.
  - change (core (with_screwHeads (screwHeads p2 ++ [pivot2]) p2)) with (core p2).
    rewrite H6. exact H2.
  - change (requiredBodies (with_screwHeads (screwHeads p2 ++ [pivot2]) p2))
      with (requiredBodies p2).
    rewrite H8. exact H4.
Qed.

(** [createPortal] adds six bodies and refers to each of them. *)
Lemma createPortal_hygienic pe :
  hygienic pe ->
  hygienic (createPortal pe)
  /\ length (requiredBodies (createPortal pe).1) = (length (requiredBodies pe.1) + 6)%nat.
Proof.
  intros H. unfold createPortal.
  destruct (createTorus_hygienic _ H) as (Ha & _ & _ & La).
  destruct (createPointLight_hygienic _ Ha) as (Hb & _ & Lb).
  destruct (createMist_hygienic _ Hb) as (Hc & _ & _ & Lc).
  destruct (createTube_hygienic _ Hc) as (Hd & _ & _ & Ld).
  destruct (createBack_hygienic _ Hd) as (He & _ & _ & Le).
  destruct (createScrewHeads_hygienic _ He) as (Hf & _ & Lf).
  destruct (createScrewHeads _) as [p e]. cbn [fst snd] in *.
  split.
  - eapply hygienic_ext; [| | |exact Hf]; reflexivity.
  - change (requiredBodies (with_group_pose (mkVec3 (x p) (y p) 0) (rotation p) p))
      with (requiredBodies p).
    rewrite Lf, Le, Ld, Lc, Lb, La. lia.
Qed.

(** [reDraw] keeps the portal hygienic, with the six bodies of its meshes. *)
Lemma reDraw_hygienic pe :
  hygienic pe ->
  hygienic (reDraw pe) /\ length (requiredBodies (reDraw pe).1) = 6%nat.
Proof.
  intros H. unfold reDraw.
  destruct (destroyPortal_hygienic pe H) as (Hd & Hreq & _).
  destruct (createPortal_hygienic _ Hd) as (Hc & Lc).
  split; [exact Hc|]. rewrite Lc, Hreq. reflexivity.
Qed.

Lemma iter_reDraw_hygienic n pe :
  hygienic pe -> hygienic (Nat.iter n reDraw pe).
Proof.
  intros H. induction n as [|n IH]; [exact H|].
  cbn [Nat.iter]. apply reDraw_hygienic, IH.
Qed.

Lemma iter_reDraw_self n pe : self (Nat.iter n reDraw pe).1 = self pe.1.
Proof.
  induction n as [|n IH]; [reflexivity|].
  cbn [Nat.iter]. rewrite <- IH. apply self_of_core, reDraw_core.
Qed.

Lemma bodiesOf_NoDup owner ph :
  NoDup (body_id <$> bodies ph) -> NoDup (bodiesOf owner ph).
Proof.
  intros H. unfold bodiesOf.
  eapply sublist_NoDup; [exact H|apply fmap_sublist, sublist_filter].
Qed.

(** *** C9 *)

(** C9. Portal body hygiene. [destroyPortal] removes from the engine every
    body the portal's meshes refer to, each of them before the mesh that
    owns it is removed from the group, and the engine then holds no body of
    the portal. After any number of [reDraw] calls the bodies the engine
    holds for the portal are exactly the bodies its current meshes refer
    to, without repetition: none is orphaned and none is duplicated. *)
Theorem C9_portal_body_hygiene pe :
  hygienic pe ->
  (let pe' := destroyPortal pe in
   (forall b, b ∈ requiredBodies pe.1 -> b ∉ body_id <$> bodies (physics pe'.2))
   /\ bodiesOf (self pe.1) (physics pe'.2) = []
   /\ requiredBodies pe'.1 = []
   /\ exists new,
        removals pe'.2 = new ++ removals pe.2
        /\ forall c bs b,
             c ∈ children pe.1 -> physicsBodies c = Some bs -> b ∈ bs ->
             node_type c <> TPointLight ->
             removedBefore (RemovedBody b) (RemovedNode (node_id c)) new)
  /\ (forall n,
        let pe_n := Nat.iter n reDraw pe in
        bodiesOf (self pe.1) (physics pe_n.2) = requiredBodies pe_n.1
        /\ NoDup (bodiesOf (self pe.1) (physics pe_n.2))
        /\ (length (bodiesOf (self pe.1) (physics pe_n.2))
            <= length (requiredBodies pe_n.1))%nat
        /\ (0 < n -> length (bodiesOf (self pe.1) (physics pe_n.2)) = 6)%nat).
Proof.
  intros H. split.
  - destruct (destroyPortal_hygienic pe H) as (_ & Hreq & Hbodies).
    cbn zeta. split; [|split; [exact Hbodies|split; [exact Hreq|]]].
    + intros b Hb Hin. destruct pe as [p e]. unfold destroyPortal in Hin.
      cbn [fst app] in Hin. rewrite destroy_fold_env in Hin. cbn [physics bodies] in Hin.
      apply list_elem_of_fmap in Hin as (a & -> & Ha).
      apply list_elem_of_filter in Ha as [Hnot _]. apply Hnot. exact Hb.
    + destruct pe as [p e]. unfold destroyPortal. cbn [fst snd app].
      rewrite destroy_fold_env. cbn [removals].
      eexists. split; [reflexivity|].
      intros c bs b Hc Hbs Hb Ht.
      apply list_elem_of_split in Hc as (cs1 & cs2 & ->).
      apply list_elem_of_split in Hb as (bs1 & bs2 & ->).
      rewrite fmap_app, concat_app. cbn [fmap list_fmap concat].
      unfold nodeRemovals at 2. unfold nodeBodies. rewrite Hbs.
      change (default [] (Some (bs1 ++ b :: bs2))) with (bs1 ++ b :: bs2).
      rewrite fmap_app. cbn [fmap list_fmap].
      exists (rev (concat (nodeRemovals <$> cs2))), (rev (RemovedBody <$> bs2)),
        (rev (RemovedBody <$> bs1) ++ rev (concat (nodeRemovals <$> cs1))).
      destruct (node_type c); try contradiction;
        rewrite !rev_app_distr; cbn [rev app];
        rewrite ?rev_app_distr; cbn [rev app];
        repeat (rewrite <- app_assoc; cbn [app]); reflexivity.
  - intros n pe_n. pose proof (iter_reDraw_hygienic n pe H) as Hn.
    fold pe_n in Hn. destruct Hn as (_ & _ & Hnd & Heq).
    pose proof (iter_reDraw_self n pe) as Hself. fold pe_n in Hself.
    rewrite Hself in Heq.
    split; [exact Heq|]. split; [apply bodiesOf_NoDup, Hnd|].
    split; [rewrite Heq; lia|].
    intros Hpos. rewrite Heq. destruct n as [|n]; [lia|].
    unfold pe_n. cbn [Nat.iter].
    apply reDraw_hygienic, iter_reDraw_hygienic, H.
Qed.

(** A portal constructed into an empty world is hygienic. *)
Lemma constructed_hygienic : hygienic (createPortal (portalAt 1 0, env0)).
Proof.
  apply createPortal_hygienic. unfold hygienic. cbn.
  repeat split; try constructor.
Qed.

Lemma C9_portal_body_hygiene_witness :
  hygienic (createPortal (portalAt 1 0, env0))
  /\ let pe_3 := Nat.iter 3 reDraw (createPortal (portalAt 1 0, env0)) in
     bodiesOf 1 (physics pe_3.2) = requiredBodies pe_3.1
     /\ NoDup (bodiesOf 1 (physics pe_3.2))
     /\ (length (bodiesOf 1 (physics pe_3.2)) <= length (requiredBodies pe_3.1))%nat
     /\ (0 < 3 -> length (bodiesOf 1 (physics pe_3.2)) = 6)%nat.
Proof.
  split.
  - apply createPortal_hygienic. unfold hygienic. cbn.
    repeat split; try constructor.
  - apply (proj2 (C9_portal_body_hygiene (createPortal (portalAt 1 0, env0))
                    constructed_hygienic) 3%nat).
Defined.

End HygieneProps.
(** ** The selection manager: registration, materials, deletion *)

Module SelectionMore.
Import JsNum Geometry UISelection SelectionSamples SelectionObs MoreSamples SelectionProps.

Lemma getUisInfo_Some o info w :
  getUisInfo (Some o) w = Some info <->
  exists so, heap w !! o = Some so /\ uisInfo so = Some info.
Proof.
  unfold getUisInfo. cbn [mbind option_bind]. split.
  - destruct (heap w !! o) as [so|]; [|discriminate]. cbn [mbind option_bind]. eauto.
  - intros (so & -> & H). exact H.
Qed.

Lemma getUisInfo_None_cases o w :
  getUisInfo (Some o) w = None <->
  heap w !! o = None \/ exists so, heap w !! o = Some so /\ uisInfo so = None.
Proof.
  unfold getUisInfo. cbn [mbind option_bind]. split.
  - destruct (heap w !! o) as [so|]; [|auto]. cbn [mbind option_bind]. eauto.
  - intros [->|(so & -> & H)]; [reflexivity|exact H].
Qed.

(** *** Registration *)

Lemma setUisInfo_lookup obj i w :
  getUisInfo (Some obj) (setUisInfo obj i w)
  = if decide (is_Some (heap w !! obj)) then i else None.
Proof.
  unfold setUisInfo, getUisInfo. cbn [mbind option_bind].
  destruct (heap w !! obj) as [so|] eqn:Hh.
  - cbn [heap with_heap]. rewrite lookup_insert_eq. cbn [mbind option_bind].
    rewrite decide_True by eauto. reflexivity.
  - rewrite Hh. rewrite decide_False by (intros [? ?]; discriminate). reflexivity.
Qed.

Lemma setUisInfo_other obj i w o :
  o <> obj -> getUisInfo (Some o) (setUisInfo obj i w) = getUisInfo (Some o) w.
Proof.
  intros Hne. unfold setUisInfo, getUisInfo. cbn [mbind option_bind].
  destruct (heap w !! obj) as [so|]; [|reflexivity].
  cbn [heap with_heap]. rewrite lookup_insert_ne by congruence. reflexivity.
Qed.

(** X1. Registration round trip. A scene object that is registered carries
    the record of its options; once unregistered it carries none.
    Unregistering twice is the same as unregistering once, unregistering a
    handle that is not a scene object changes nothing, and unregistering
    touches neither the records of other objects, nor the selection state,
    nor any handler. *)
Theorem X1_registration_round_trip w obj opts :
  (is_Some (heap w !! obj) ->
   getUisInfo (Some obj) (registerObject obj opts w) = Some (recordOf opts))
  /\ getUisInfo (Some obj) (unregisterObject obj (registerObject obj opts w)) = None
  /\ unregisterObject obj (unregisterObject obj w) = unregisterObject obj w
  /\ (heap w !! obj = None -> unregisterObject obj w = w)
  /\ (forall o, o <> obj ->
        getUisInfo (Some o) (unregisterObject obj w) = getUisInfo (Some o) w)
  /\ state (unregisterObject obj w) = state w
  /\ calls (unregisterObject obj w) = calls w.
Proof.
  split; [|split; [|split; [|split; [|split; [|split]]]]].
  - intros Hs. unfold registerObject. rewrite setUisInfo_lookup.
    rewrite decide_True by exact Hs. reflexivity.
  - unfold unregisterObject. rewrite setUisInfo_lookup. case_decide; reflexivity.
  - unfold unregisterObject, setUisInfo.
    destruct (heap w !! obj) as [so|] eqn:Hh; [|rewrite Hh; reflexivity].
    cbn [heap with_heap]. rewrite lookup_insert_eq. unfold with_heap.
    cbn [camera selectAllowedRange state heap formShown calls].
    rewrite insert_insert_eq. reflexivity.
  - intros Hh. unfold unregisterObject, setUisInfo. rewrite Hh. reflexivity.
  - intros o Hne. apply setUisInfo_other, Hne.
  - unfold unregisterObject, setUisInfo. case_match; reflexivity.
  - unfold unregisterObject, setUisInfo. case_match; reflexivity.
Qed.

Lemma X1_registration_round_trip_witness :
  getUisInfo (Some 3%nat) (registerObject 3 portalOpts scene) = Some (recordOf portalOpts)
  /\ unregisterObject 7 scene = scene.
Proof.
  split.
  - apply (proj1 (X1_registration_round_trip scene 3%nat portalOpts)).
    eexists. reflexivity.
  - apply (proj1 (proj2 (proj2 (proj2 (X1_registration_round_trip scene 7%nat portalOpts))))).
    reflexivity.
Defined.

(** *** Entities without a record *)

(** X2. An entity without a capability record is inert: a pointer-down on
    it stores nothing about it and calls none of its handlers. The only
    effect it can have is the release of a persistent selection held by
    another entity; without one, the pointer-down changes nothing at all. *)
Theorem X2_unregistered_entity_inert e w hit :
  intersect e = Some hit ->
  getUisInfo (Some (object hit)) w = None ->
  (onDown e w = w \/ onDown e w = unselectObject (selectedObject (state w)) w)
  /\ (persistentSelected (state w) = false -> onDown e w = w)
  /\ (forall o pos, CallOnDown o pos ∈ calls (onDown e w) -> CallOnDown o pos ∈ calls w).
Proof.
  intros Hhit Hnone.
  destruct (onDown_spec e w hit Hhit) as (w1 & Hw1 & Hcases).
  assert (Hg1 : getUisInfo (Some (object hit)) w1 = None).
  { rewrite Hw1. destruct (persistentSelected (state w)); [|exact Hnone].
    cbn [andb]. case_bool_decide as Hsel; [exact Hnone|]. cbn [negb].
    unfold getUisInfo. cbn [mbind option_bind].
    rewrite unselectObject_heap_other; [exact Hnone|exact Hsel|].
    intros _. exact Hsel. }
  assert (Hw : onDown e w = w1).
  { destruct Hcases as [[_ H]|(so & info & Hso & Hinfo & _)]; [exact H|].
    unfold getUisInfo in Hg1. cbn [mbind option_bind] in Hg1.
    rewrite Hso in Hg1. cbn [mbind option_bind] in Hg1. congruence. }
  rewrite Hw, Hw1. split; [|split].
  - case_match; auto.
  - intros ->. reflexivity.
  - intros o pos. case_match; [|auto].
    unfold unselectObject. repeat case_match; unfold_updates; cbn [calls];
      auto; intros Hin; repeat (apply elem_of_cons in Hin as [Hin|Hin];
                                 [discriminate|]); exact Hin.
Qed.

Lemma X2_unregistered_entity_inert_witness :
  (onDown (downOn 3) sceneSelected1 = sceneSelected1
   \/ onDown (downOn 3) sceneSelected1
      = unselectObject (selectedObject (state sceneSelected1)) sceneSelected1)
  /\ (persistentSelected (state sceneSelected1) = false ->
      onDown (downOn 3) sceneSelected1 = sceneSelected1)
  /\ (forall o pos,
        CallOnDown o pos ∈ calls (onDown (downOn 3) sceneSelected1) ->
        CallOnDown o pos ∈ calls sceneSelected1).
Proof.
  apply (X2_unregistered_entity_inert (downOn 3) sceneSelected1 (mkIntersect 3 vzero));
    reflexivity.
Defined.

(** *** Materials *)

Lemma selectObject_heap w o so info :
  heap w !! o = Some so -> uisInfo so = Some info ->
  heap (selectObject (Some o) w)
  = match selectedMaterial info with
    | Some m =>
      <[o := mkSceneObj (Some (set_unselectedMaterial (Some (material so)) info))
               m (rotation so)]> (heap w)
    | None => heap w
    end
  /\ formShown (selectObject (Some o) w)
     = match configForm info with Some f => Some f | None => formShown w end.
Proof.
  intros Hh Hi. unfold selectObject. rewrite Hh, Hi.
  destruct (has_onSelected info), (selectedMaterial info), (configForm info);
    split; reflexivity.
Qed.

(** X3. Selecting an entity that has a selected material swaps that
    material in and shows its config form; unselecting it afterwards puts
    the original material back, hides the form and empties the slot. *)
Theorem X3_select_unselect_restores_material w o so info m :
  heap w !! o = Some so -> uisInfo so = Some info ->
  selectedMaterial info = Some m ->
  let ws := selectObject (Some o) w in
  let wu := unselectObject (Some o) ws in
  materialOf o ws = Some m
  /\ holdsPersistentSelection ws o
  /\ (forall f, configForm info = Some f -> formShown ws = Some f)
  /\ materialOf o wu = Some (material so)
  /\ formShown wu = None
  /\ selectedObject (state wu) = None
  /\ persistentSelected (state wu) = false.
Proof.
  intros Hh Hi Hm ws wu.
  destruct (selectObject_heap w o so info Hh Hi) as [Hheap Hform].
  destruct (selectObject_registered w o so info Hh Hi) as (Hs & Hp & _).
  rewrite Hm in Hheap. fold ws in Hheap, Hform, Hs, Hp.
  assert (Hl : heap ws !! o
               = Some (mkSceneObj (Some (set_unselectedMaterial (Some (material so)) info))
                         m (rotation so))).
  { rewrite Hheap. apply lookup_insert_eq. }
  pose proof (unselectObject_registered ws o _ _ Hl eq_refl) as Hu.
  fold wu in Hu.
  split; [unfold materialOf; rewrite Hl; reflexivity|].
  split; [split; assumption|].
  split; [intros f Hf; rewrite Hform, Hf; reflexivity|].
  rewrite Hu. cbn [formShown state]. reduce_state.
  split; [|repeat split].
  unfold materialOf. cbn [heap unselectedMaterial set_unselectedMaterial].
  rewrite lookup_insert_eq. reflexivity.
Qed.

Lemma X3_select_unselect_restores_material_witness :
  let w := registerObject 1 highlightOpts scene in
  let ws := selectObject (Some 1%nat) w in
  let wu := unselectObject (Some 1%nat) ws in
  materialOf 1 ws = Some (MkMaterial 9)
  /\ holdsPersistentSelection ws 1
  /\ (forall f, configForm highlightInfo = Some f -> formShown ws = Some f)
  /\ materialOf 1 wu = Some (MkMaterial 0)
  /\ formShown wu = None
  /\ selectedObject (state wu) = None
  /\ persistentSelected (state wu) = false.
Proof.
  apply (X3_select_unselect_restores_material (registerObject 1 highlightOpts scene)
           1%nat highlightMesh highlightInfo (MkMaterial 9));
    reflexivity.
Defined.

(** X4. Selecting an entity a second time while it is selected records the
    selected material as the one to restore: unselecting it afterwards
    leaves the selected material on the object, and the original material
    is not put back. This is what a click on the selected entity does,
    since the pointer-up selects it again. *)
Theorem X4_reselect_loses_original_material w o so info m :
  heap w !! o = Some so -> uisInfo so = Some info ->
  selectedMaterial info = Some m ->
  materialOf o
    (unselectObject (Some o) (selectObject (Some o) (selectObject (Some o) w)))
  = Some m.
Proof.
  intros Hh Hi Hm.
  destruct (selectObject_heap w o so info Hh Hi) as [Hheap _].
  rewrite Hm in Hheap.
  set (ws := selectObject (Some o) w) in *.
  set (so1 := mkSceneObj (Some (set_unselectedMaterial (Some (material so)) info))
                m (rotation so)) in *.
  assert (Hl : heap ws !! o = Some so1) by (rewrite Hheap; apply lookup_insert_eq).
  destruct (selectObject_heap ws o so1 _ Hl eq_refl) as [Hheap2 _].
  cbn [selectedMaterial set_unselectedMaterial] in Hheap2. rewrite Hm in Hheap2.
  set (ws2 := selectObject (Some o) ws) in *.
  assert (Hl2 : heap ws2 !! o
                = Some (mkSceneObj
                          (Some (set_unselectedMaterial (Some (material so1))
                                   (set_unselectedMaterial (Some (material so)) info)))
                          m (rotation so1))).
  { rewrite Hheap2. apply lookup_insert_eq. }
  rewrite (unselectObject_registered ws2 o _ _ Hl2 eq_refl).
  unfold materialOf. cbn [heap unselectedMaterial set_unselectedMaterial].
  rewrite lookup_insert_eq. reflexivity.
Qed.

Lemma X4_reselect_loses_original_material_witness :
  materialOf 1 (registerObject 1 highlightOpts scene) = Some (MkMaterial 0)
  /\ materialOf 1
       (unselectObject (Some 1%nat)
          (selectObject (Some 1%nat)
             (selectObject (Some 1%nat) (registerObject 1 highlightOpts scene))))
     = Some (MkMaterial 9).
Proof.
  split; [reflexivity|].
  apply (X4_reselect_loses_original_material (registerObject 1 highlightOpts scene)
           1%nat highlightMesh highlightInfo (MkMaterial 9));
    reflexivity.
Defined.

(** X5. Programmatic selection of another entity releases nothing: the
    entity selected before keeps its material and its record and receives
    no [onUnselected] call, while the slot passes to the new entity. *)
Theorem X5_select_does_not_release_previous w a b so info :
  heap w !! b = Some so -> uisInfo so = Some info ->
  a <> b ->
  holdsPersistentSelection (selectObject (Some b) w) b
  /\ heap (selectObject (Some b) w) !! a = heap w !! a
  /\ unselectedCalls a (selectObject (Some b) w) = unselectedCalls a w.
Proof.
  intros Hh Hi Hne.
  destruct (selectObject_registered w b so info Hh Hi) as (Hs & Hp & _).
  destruct (selectObject_heap w b so info Hh Hi) as [Hheap _].
  split; [split; assumption|]. split; [|apply selectObject_unselectedCalls].
  rewrite Hheap. destruct (selectedMaterial info); [|reflexivity].
  apply lookup_insert_ne. congruence.
Qed.

Lemma X5_select_does_not_release_previous_witness :
  holdsPersistentSelection sceneSelected1 1
  /\ holdsPersistentSelection (selectObject (Some 2%nat) sceneSelected1) 2
  /\ heap (selectObject (Some 2%nat) sceneSelected1) !! 1%nat = heap sceneSelected1 !! 1%nat
  /\ unselectedCalls 1 (selectObject (Some 2%nat) sceneSelected1)
     = unselectedCalls 1 sceneSelected1.
Proof.
  split; [split; reflexivity|].
  apply (X5_select_does_not_release_previous sceneSelected1 1%nat 2%nat
           portalMesh portalInfo); [reflexivity | reflexivity | lia].
Defined.

(** *** Deletion *)

Lemma delete_acts w force o so info :
  selectedObject (state w) = Some o ->
  heap w !! o = Some so -> uisInfo so = Some info ->
  persistentSelected (state w) || force = true ->
  calls (deleteSelectedObject force w)
  = (if has_onDelete info then [CallOnDelete o] else [])
    ++ CallClearConfigForm
       :: (if has_onUnselected info then [CallOnUnselected o] else []) ++ calls w
  /\ state (deleteSelectedObject force w)
     = set_selectedObject None (set_persistentSelected false (state w))
  /\ formShown (deleteSelectedObject force w) = None.
Proof.
  intros Ho Hh Hi Hc. unfold deleteSelectedObject.
  rewrite Ho. rewrite (proj2 (getUisInfo_Some o info w)) by eauto. rewrite Hc.
  rewrite (unselectObject_registered w o so info Hh Hi).
  destruct (has_onDelete info); unfold_updates; cbn [calls state formShown];
    repeat split.
Qed.

(** X6. Deleting the selection. With a registered entity in the slot and the
    selection persistent, or deletion forced, the entity is unselected
    first and [onDelete] is invoked after that, if present: the handler
    calls made are, in order, [onUnselected], the hiding of the form, and
    [onDelete]. Slot, flag and form are cleared. *)
Theorem X6_delete_unselects_then_deletes w force o so info :
  selectedObject (state w) = Some o ->
  heap w !! o = Some so -> uisInfo so = Some info ->
  persistentSelected (state w) || force = true ->
  let w' := deleteSelectedObject force w in
  calls w'
  = (if has_onDelete info then [CallOnDelete o] else [])
    ++ CallClearConfigForm
       :: (if has_onUnselected info then [CallOnUnselected o] else []) ++ calls w
  /\ selectedObject (state w') = None
  /\ persistentSelected (state w') = false
  /\ formShown w' = None.
Proof.
  intros Ho Hh Hi Hc w'.
  destruct (delete_acts w force o so info Ho Hh Hi Hc) as (H1 & H2 & H3).
  unfold w'. rewrite H2. repeat split; assumption.
Qed.

Lemma X6_delete_unselects_then_deletes_witness :
  let w' := deleteSelectedObject false sceneSelected1 in
  calls w'
  = [CallOnDelete 1] ++ CallClearConfigForm :: [CallOnUnselected 1] ++ calls sceneSelected1
  /\ selectedObject (state w') = None
  /\ persistentSelected (state w') = false
  /\ formShown w' = None.
Proof.
  apply (X6_delete_unselects_then_deletes sceneSelected1 false 1%nat portalMesh portalInfo);
    reflexivity.
Defined.

(** X7. Deletion is guarded and does not repeat. Without an entity in the
    slot nothing happens; without a persistent selection an unforced delete
    does nothing; and deleting again after a delete changes nothing more,
    so [onDelete] is never invoked twice for one selection. *)
Theorem X7_delete_guarded_and_idempotent w force :
  (selectedObject (state w) = None -> deleteSelectedObject force w = w)
  /\ (persistentSelected (state w) = false -> deleteSelectedObject false w = w)
  /\ deleteSelectedObject force (deleteSelectedObject force w)
     = deleteSelectedObject force w.
Proof.
  split; [|split].
  - intros H. unfold deleteSelectedObject. rewrite H. reflexivity.
  - intros H. unfold deleteSelectedObject. rewrite H. cbn [orb].
    repeat case_match; reflexivity.
  - assert (Hr : deleteSelectedObject force w = w
                 \/ selectedObject (state (deleteSelectedObject force w)) = None).
    { unfold deleteSelectedObject.
      destruct (selectedObject (state w)) as [o|] eqn:Ho; [|auto].
      destruct (getUisInfo (Some o) w) as [info|] eqn:Hg; [|auto].
      destruct (persistentSelected (state w) || force) eqn:Hc; [|auto].
      right. apply getUisInfo_Some in Hg as (so & Hh & Hi).
      rewrite (unselectObject_registered w o so info Hh Hi).
      destruct (has_onDelete info); reflexivity. }
    destruct Hr as [Hr|Hr].
    + rewrite Hr. exact Hr.
    + unfold deleteSelectedObject at 1. rewrite Hr. reflexivity.
Qed.

(** X8. Dropping a dragged entity on the delete button. After a
    pointer-down on a registered moveable entity, [deletePointerUp] deletes
    it whether or not it was persistently selected: it is unselected,
    [onDelete] is invoked if present and the slot is emptied. [isDragging]
    stays set, yet the pointer-moves that follow dispatch nothing. *)
Theorem X8_drop_on_delete_button d w hit so info :
  intersect d = Some hit ->
  heap w !! object hit = Some so -> uisInfo so = Some info ->
  moveable info = true ->
  let w' := deletePointerUp (onDown d w) in
  calls w'
  = (if has_onDelete info then [CallOnDelete (object hit)] else [])
    ++ CallClearConfigForm
       :: (if has_onUnselected info then [CallOnUnselected (object hit)] else [])
       ++ calls (onDown d w)
  /\ selectedObject (state w') = None
  /\ persistentSelected (state w') = false
  /\ isDragging (state w') = true
  /\ forall ms, moves ms w' = w'.
Proof.
  intros Hhit Hh Hi Hmv w'.
  destruct (onDown_registered d w hit so info Hhit Hh Hi)
    as (_ & _ & Dh & Ds & _ & _ & _ & Dd & _).
  specialize (Dd Hmv).
  assert (Hw' : w' = deleteSelectedObject true (onDown d w)).
  { unfold w', deletePointerUp. rewrite Dd. reflexivity. }
  destruct (delete_acts (onDown d w) true (object hit) so info
              Ds Dh Hi (orb_true_r _)) as (Hc & Hst & _).
  rewrite <- Hw' in Hc, Hst.
  assert (Hs : selectedObject (state w') = None) by (rewrite Hst; reflexivity).
  assert (Hp : persistentSelected (state w') = false) by (rewrite Hst; reflexivity).
  assert (Hdrag : isDragging (state w') = true) by (rewrite Hst; exact Dd).
  repeat (split; [assumption|]).
  intros ms. induction ms as [|m ms IH]; [reflexivity|].
  cbn [moves].
  assert (Hm : onMove m w' = w').
  { unfold onMove. rewrite Hdrag, Hs. reflexivity. }
  rewrite Hm. exact IH.
Qed.

Lemma X8_drop_on_delete_button_witness :
  let w' := deletePointerUp (onDown (downOn 1) scene) in
  calls w'
  = [CallOnDelete 1] ++ CallClearConfigForm :: [CallOnUnselected 1]
    ++ calls (onDown (downOn 1) scene)
  /\ selectedObject (state w') = None
  /\ persistentSelected (state w') = false
  /\ isDragging (state w') = true
  /\ forall ms, moves ms w' = w'.
Proof.
  apply (X8_drop_on_delete_button (downOn 1) scene (mkIntersect 1 vzero)
           portalMesh portalInfo); reflexivity.
Defined.

(** *** A record removed from under the selection *)

Lemma unselectObject_unregistered obj w :
  match obj with
  | Some o => getUisInfo (Some o) w = None
  | None => getUisInfo (selectedObject (state w)) w = None
  end ->
  unselectObject obj w = w.
Proof.
  unfold unselectObject, getUisInfo. destruct obj as [o|].
  - cbn [mbind option_bind]. destruct (heap w !! o) as [so|]; [|reflexivity].
    cbn [mbind option_bind]. intros ->. reflexivity.
  - destruct (selectedObject (state w)) as [o|]; [|reflexivity].
    cbn [mbind option_bind]. destruct (heap w !! o) as [so|]; [|reflexivity].
    cbn [mbind option_bind]. intros ->. reflexivity.
Qed.

(** X9. Unregistering the entity that holds the persistent selection leaves
    the slot and the flag pointing at it. From then on unselecting, with or
    without naming it, and deleting do nothing, and a pointer-up only
    clears [isDragging]. A pointer-down on another registered entity puts
    that entity in the slot with the persistent flag still set, so that it
    holds the persistent selection at once, without having been selected. *)
Theorem X9_unregistered_selection_is_stuck w o :
  holdsPersistentSelection w o ->
  let w' := unregisterObject o w in
  holdsPersistentSelection w' o
  /\ unselectObject None w' = w'
  /\ unselectObject (Some o) w' = w'
  /\ (forall force, deleteSelectedObject force w' = w')
  /\ (forall u, onUp u w' = upd_state (set_isDragging false) w')
  /\ (forall d hit so info,
        intersect d = Some hit -> object hit <> o ->
        heap w' !! object hit = Some so -> uisInfo so = Some info ->
        holdsPersistentSelection (onDown d w') (object hit)).
Proof.
  intros [Hp Hs] w'.
  assert (Hst : state w' = state w).
  { unfold w', unregisterObject, setUisInfo. case_match; reflexivity. }
  assert (Hg : getUisInfo (Some o) w' = None).
  { unfold w', unregisterObject. rewrite setUisInfo_lookup. case_decide; reflexivity. }
  assert (Hs' : selectedObject (state w') = Some o) by (rewrite Hst; exact Hs).
  assert (Hp' : persistentSelected (state w') = true) by (rewrite Hst; exact Hp).
  split; [split; assumption|].
  split; [apply unselectObject_unregistered; rewrite Hs'; exact Hg|].
  split; [apply unselectObject_unregistered; exact Hg|].
  split; [intros force; unfold deleteSelectedObject; rewrite Hs', Hg; reflexivity|].
  split; [intros u; unfold onUp; rewrite Hs', Hg; reflexivity|].
  intros d hit so info Hhit Hne Hh Hi.
  destruct (onDown_spec d w' hit Hhit) as (w1 & Hw1 & Hcases).
  rewrite Hp', Hs' in Hw1. rewrite bool_decide_eq_false_2 in Hw1 by congruence.
  cbn [andb negb] in Hw1.
  rewrite (unselectObject_unregistered (Some o) w' Hg) in Hw1. subst w1.
  destruct Hcases as [[Hnone _]|(so' & info' & _ & _ & _ & _ & _ & _ & _ & Hstate)].
  - rewrite (proj2 (getUisInfo_Some (object hit) info w')) in Hnone by eauto.
    discriminate.
  - split; rewrite Hstate; [exact Hp'|reflexivity].
Qed.

Lemma X9_unregistered_selection_is_stuck_witness :
  let w' := unregisterObject 1 sceneSelected1 in
  holdsPersistentSelection w' 1
  /\ unselectObject None w' = w'
  /\ unselectObject (Some 1%nat) w' = w'
  /\ (forall force, deleteSelectedObject force w' = w')
  /\ (forall u, onUp u w' = upd_state (set_isDragging false) w')
  /\ (forall d hit so info,
        intersect d = Some hit -> object hit <> 1%nat ->
        heap w' !! object hit = Some so -> uisInfo so = Some info ->
        holdsPersistentSelection (onDown d w') (object hit)).
Proof.
  apply (X9_unregistered_selection_is_stuck sceneSelected1 1%nat).
  split; reflexivity.
Defined.

End SelectionMore.

(** ** The selection manager: exceptions and drag geometry *)

Module SessionMore.
Import JsNum Geometry UISelection SelectionSamples SelectionObs MoreSamples
  SelectionProps SelectionMore.

Ltac solve_throws :=
  unfold throwCount; unfold_updates; cbn [calls];
  rewrite ?filter_cons_False by (simpl; congruence); reflexivity.

Lemma unselectObject_throwCount obj w :
  throwCount (unselectObject obj w) = throwCount w.
Proof. unfold unselectObject. repeat case_match; solve_throws. Qed.

Lemma selectObject_throwCount obj w :
  throwCount (selectObject obj w) = throwCount w.
Proof. unfold selectObject. repeat case_match; solve_throws. Qed.

(** Selecting and unselecting leave the drag bookkeeping alone. *)
Lemma unselectObject_drag obj w :
  isDragging (state (unselectObject obj w)) = isDragging (state w)
  /\ posAtMouseDown (state (unselectObject obj w)) = posAtMouseDown (state w)
  /\ prevPos (state (unselectObject obj w)) = prevPos (state w).
Proof. unfold unselectObject. repeat case_match; repeat split. Qed.

Lemma selectObject_drag obj w :
  isDragging (state (selectObject obj w)) = isDragging (state w)
  /\ posAtMouseDown (state (selectObject obj w)) = posAtMouseDown (state w)
  /\ prevPos (state (selectObject obj w)) = prevPos (state w).
Proof. unfold selectObject. repeat case_match; repeat split. Qed.

Lemma deleteSelectedObject_drag force w :
  isDragging (state (deleteSelectedObject force w)) = isDragging (state w)
  /\ posAtMouseDown (state (deleteSelectedObject force w)) = posAtMouseDown (state w)
  /\ prevPos (state (deleteSelectedObject force w)) = prevPos (state w).
Proof.
  unfold deleteSelectedObject.
  repeat case_match; try (repeat split; fail);
    unfold call; cbn [state]; apply unselectObject_drag.
Qed.

Lemma dragReady_ext w w' :
  isDragging (state w') = isDragging (state w) ->
  posAtMouseDown (state w') = posAtMouseDown (state w) ->
  prevPos (state w') = prevPos (state w) ->
  dragReady w -> dragReady w'.
Proof. unfold dragReady. intros -> -> ->. trivial. Qed.

Lemma onDown_dragReady e w : dragReady w -> dragReady (onDown e w).
Proof.
  intros H. destruct (intersect e) as [hit|] eqn:Hhit;
    [|unfold onDown; rewrite Hhit; exact H].
  destruct (onDown_spec e w hit Hhit) as (w1 & Hw1 & Hcases).
  assert (H1 : dragReady w1).
  { rewrite Hw1. case_match; [|exact H].
    destruct (unselectObject_drag (selectedObject (state w)) w) as (A & B & C).
    exact (dragReady_ext w _ A B C H). }
  destruct Hcases as [[_ ->]|(so & info & _ & _ & _ & _ & _ & _ & _ & Hst)];
    [exact H1|].
  unfold dragReady. rewrite Hst. cbn [isDragging posAtMouseDown prevPos]. eauto.
Qed.

Lemma onMove_dragReady e w : dragReady w -> dragReady (onMove e w).
Proof.
  unfold dragReady. intros H.
  destruct (onMove_frame e w) as (_ & _ & _ & _ & _ & Hd & Hp & _).
  rewrite Hd, Hp. intros Hdrag. destruct (H Hdrag) as [Hpos [pp Hpp]].
  split; [exact Hpos|].
  unfold onMove. rewrite Hdrag. cbn [negb].
  destruct (selectedObject (state w)) as [o|]; [|eauto].
  destruct (getUisInfo (Some o) w) as [info|]; [|eauto].
  destruct Hpos as [p0 Hp0]. rewrite Hp0.
  repeat case_match; unfold_updates; reduce_state; eauto.
Qed.

Lemma onUp_drag e w :
  posAtMouseDown (state (onUp e w)) = posAtMouseDown (state w)
  /\ prevPos (state (onUp e w)) = prevPos (state w)
  /\ (isDragging (state (onUp e w)) = true -> isDragging (state w) = true).
Proof.
  unfold onUp. destruct (selectedObject (state w)) as [o|];
    [|repeat split; discriminate].
  destruct (getUisInfo (Some o) w) as [info|]; [|repeat split; discriminate].
  cbv zeta.
  match goal with
  | |- context [if has_onUp info then match posAtMouseDown (state ?x) with _ => _ end else _] =>
    set (w1 := x)
  end.
  assert (H1 : isDragging (state w1) = isDragging (state w)
               /\ posAtMouseDown (state w1) = posAtMouseDown (state w)
               /\ prevPos (state w1) = prevPos (state w)).
  { unfold w1. case_match; [apply selectObject_drag|repeat split]. }
  destruct H1 as (A & B & C). rewrite <- A, <- B, <- C. clearbody w1.
  repeat case_match; unfold_updates; reduce_state; repeat split; auto; discriminate.
Qed.

Lemma onUp_dragReady e w : dragReady w -> dragReady (onUp e w).
Proof.
  unfold dragReady. intros H. destruct (onUp_drag e w) as (A & B & C).
  rewrite A, B. intros Hd. apply H, C, Hd.
Qed.

Lemma step_dragReady w op : dragReady w -> dragReady (step w op).
Proof.
  intros H. destruct op; cbn [step].
  - apply onDown_dragReady, H.
  - apply onMove_dragReady, H.
  - apply onUp_dragReady, H.
  - destruct (selectObject_drag obj w) as (A & B & C). exact (dragReady_ext w _ A B C H).
  - destruct (unselectObject_drag obj w) as (A & B & C). exact (dragReady_ext w _ A B C H).
  - destruct (deleteSelectedObject_drag force w) as (A & B & C).
    exact (dragReady_ext w _ A B C H).
  - unfold deletePointerUp. case_match; [|exact H].
    destruct (deleteSelectedObject_drag true w) as (A & B & C).
    exact (dragReady_ext w _ A B C H).
  - unfold registerObject, setUisInfo. case_match; exact H.
  - unfold unregisterObject, setUisInfo. case_match; exact H.
Qed.

Lemma run_dragReady ops : forall w, dragReady w -> dragReady (run ops w).
Proof.
  induction ops as [|op ops IH]; intros w H; [exact H|].
  cbn [run fold_left]. apply IH, step_dragReady, H.
Qed.

Lemma onMove_no_throw e w : dragReady w -> throwCount (onMove e w) = throwCount w.
Proof.
  unfold dragReady. intros H. unfold onMove.
  destruct (isDragging (state w)); [|reflexivity]. cbn [negb].
  destruct (H eq_refl) as [[p0 Hp0] [pp Hpp]].
  destruct (selectedObject (state w)) as [o|]; [|reflexivity].
  destruct (getUisInfo (Some o) w) as [info|]; [|reflexivity].
  rewrite Hp0.
  destruct (selectable info && bool_decide (_ > _));
    unfold_updates; reduce_state; rewrite Hpp;
    destruct (has_onMove info); solve_throws.
Qed.

(** X10. Pointer-moves never throw. Whatever operations have run since the
    manager was constructed, [isDragging] is set only while the pointer-down
    position and the previous position are present, so that a pointer-move
    reads neither of them while undefined. *)
Theorem X10_moves_never_throw cam range scene0 ops e :
  let w := run ops (constructor cam range scene0) in
  dragReady w /\ throwCount (onMove e w) = throwCount w.
Proof.
  intros w.
  assert (H : dragReady w).
  { apply run_dragReady. unfold dragReady, constructor. cbn. discriminate. }
  split; [exact H|apply onMove_no_throw, H].
Qed.

(** *** Pointer-up *)

Lemma onUp_throw_cases e w o info :
  selectedObject (state w) = Some o ->
  getUisInfo (Some o) w = Some info ->
  (has_onUp info = true -> posAtMouseDown (state w) = None ->
   throwCount (onUp e w) = S (throwCount w)
   /\ isDragging (state (onUp e w)) = isDragging (state w))
  /\ (has_onUp info = false \/ is_Some (posAtMouseDown (state w)) ->
      throwCount (onUp e w) = throwCount w
      /\ isDragging (state (onUp e w)) = false).
Proof.
  intros Ho Hg. unfold onUp. rewrite Ho, Hg. cbv zeta.
  match goal with
  | |- context [if has_onUp info then match posAtMouseDown (state ?x) with _ => _ end else _] =>
    set (w1 := x)
  end.
  assert (H1 : isDragging (state w1) = isDragging (state w)
               /\ posAtMouseDown (state w1) = posAtMouseDown (state w)
               /\ throwCount w1 = throwCount w).
  { unfold w1. case_match.
    - destruct (selectObject_drag (Some o) w) as (A & B & _).
      repeat split; try assumption. apply selectObject_throwCount.
    - repeat split. }
  destruct H1 as (A & B & C). rewrite <- A, <- B, <- C. clearbody w1. split.
  - intros -> ->. split; [|reflexivity].
    unfold throwCount, call. cbn [calls].
    rewrite filter_cons_True by reflexivity. reflexivity.
  - intros [->|[p0 ->]]; [split; [solve_throws|reflexivity]|].
    destruct (has_onUp info); split; try solve_throws; reflexivity.
Qed.

(** X11. When a pointer-up throws. With a registered entity in the slot, a
    pointer-up throws a [TypeError] exactly when the entity has an [onUp]
    handler and no pointer-down position was ever recorded, as after a
    programmatic [selectObject]: the selection is committed or cleared all
    the same, but [isDragging] is left as it was. In every other case the
    pointer-up throws nothing and clears [isDragging]. *)
Theorem X11_pointer_up_throws_without_down_position e w o so info :
  selectedObject (state w) = Some o ->
  heap w !! o = Some so -> uisInfo so = Some info ->
  (has_onUp info = true -> posAtMouseDown (state w) = None ->
   throwCount (onUp e w) = S (throwCount w)
   /\ isDragging (state (onUp e w)) = isDragging (state w))
  /\ (has_onUp info = false \/ is_Some (posAtMouseDown (state w)) ->
      throwCount (onUp e w) = throwCount w
      /\ isDragging (state (onUp e w)) = false)
  /\ (if selectable info && persistentSelectable (state w)
      then holdsPersistentSelection (onUp e w) o
      else selectedObject (state (onUp e w)) = None
           /\ persistentSelected (state (onUp e w)) = false).
Proof.
  intros Ho Hh Hi.
  assert (Hg : getUisInfo (Some o) w = Some info) by (apply getUisInfo_Some; eauto).
  destruct (onUp_throw_cases e w o info Ho Hg) as [H1 H2].
  split; [exact H1|]. split; [exact H2|].
  pose proof (onUp_registered e w o so info Ho Hh Hi) as H3.
  destruct (selectable info && persistentSelectable (state w)); [|exact H3].
  destruct H3. split; assumption.
Qed.

Lemma X11_pointer_up_throws_without_down_position_witness :
  throwCount (onUp upHere sceneSelected1) = S (throwCount sceneSelected1)
  /\ isDragging (state (onUp upHere sceneSelected1)) = isDragging (state sceneSelected1).
Proof.
  apply (proj1 (X11_pointer_up_throws_without_down_position upHere sceneSelected1
                  1%nat portalMesh portalInfo eq_refl eq_refl eq_refl));
    reflexivity.
Defined.

(** *** Whole sessions *)

Lemma onDown_throwCount e w : throwCount (onDown e w) = throwCount w.
Proof.
  destruct (intersect e) as [hit|] eqn:Hhit;
    [|unfold onDown; rewrite Hhit; reflexivity].
  destruct (onDown_spec e w hit Hhit) as (w1 & Hw1 & Hcases).
  assert (H1 : throwCount w1 = throwCount w).
  { rewrite Hw1. case_match; [apply unselectObject_throwCount|reflexivity]. }
  rewrite <- H1.
  destruct Hcases as [[_ ->]|(so & info & _ & _ & _ & _ & _ & _ & Hc & _)];
    [reflexivity|].
  unfold throwCount. rewrite Hc. destruct (has_onDown info); cbn [app];
    rewrite ?filter_cons_False by (simpl; congruence); reflexivity.
Qed.

Lemma moves_no_throw ms : forall w,
  dragReady w -> throwCount (moves ms w) = throwCount w.
Proof.
  induction ms as [|m ms IH]; intros w H; [reflexivity|].
  cbn [moves]. rewrite IH by (apply onMove_dragReady, H).
  apply onMove_no_throw, H.
Qed.

(** X12. A session that starts on a registered entity runs clean: the
    pointer-down, any pointer-moves and the pointer-up throw nothing, and
    [isDragging] is cleared at the end. *)
Theorem X12_session_runs_clean d ms u w hit so info :
  intersect d = Some hit ->
  heap w !! object hit = Some so -> uisInfo so = Some info ->
  throwCount (session d ms u w) = throwCount w
  /\ isDragging (state (session d ms u w)) = false.
Proof.
  intros Hhit Hh Hi. unfold session.
  destruct (onDown_registered d w hit so info Hhit Hh Hi)
    as (_ & _ & Dh & Ds & Dp & Dpp & _).
  assert (Hr : dragReady (onDown d w)).
  { unfold dragReady. rewrite Dp, Dpp. eauto. }
  destruct (moves_frame ms (onDown d w)) as (_ & _ & Mh & Ms & _ & Mp & _).
  assert (Hg : getUisInfo (Some (object hit)) (moves ms (onDown d w)) = Some info).
  { apply getUisInfo_Some. exists so. rewrite Mh. auto. }
  destruct (onUp_throw_cases u (moves ms (onDown d w)) (object hit) info) as [_ H2];
    [congruence|exact Hg|].
  destruct H2 as [Ht Hd]; [right; rewrite Mp, Dp; eauto|].
  split; [|exact Hd].
  rewrite Ht, (moves_no_throw ms _ Hr). apply onDown_throwCount.
Qed.

Lemma X12_session_runs_clean_witness :
  throwCount (session (downOn 1) [moveNear; upFar] upFar scene) = throwCount scene
  /\ isDragging (state (session (downOn 1) [moveNear; upFar] upFar scene)) = false.
Proof.
  apply (X12_session_runs_clean (downOn 1) [moveNear; upFar] upFar scene
           (mkIntersect 1 vzero) portalMesh portalInfo); reflexivity.
Defined.

(** *** The plane of a drag *)

Lemma getMousePosGivenZ_plane e z w :
  pz (ray e) <> 0 -> pz (getMousePosGivenZ e z w) = z.
Proof. intros H. unfold getMousePosGivenZ. simpl. field. exact H. Qed.

Lemma moves_planar ms : forall w o info p0 pp,
  isDragging (state w) = true ->
  selectedObject (state w) = Some o ->
  getUisInfo (Some o) w = Some info ->
  has_onMove info = true ->
  posAtMouseDown (state w) = Some p0 ->
  prevPos (state w) = Some pp ->
  pz pp = pz p0 ->
  Forall (fun m => pz (ray m) <> 0) ms ->
  exists ds,
    moveDeltas (calls (moves ms w)) = ds ++ moveDeltas (calls w)
    /\ Forall (fun delta => pz delta = 0) ds.
Proof.
  induction ms as [|m ms IH]; intros w o info p0 pp Hd Ho Hi Hm Hp Hpp Hz Hrays.
  - exists []. split; [reflexivity|constructor].
  - cbn [moves]. apply Forall_cons in Hrays as [Hray Hrays].
    destruct (onMove_frame m w) as (G1 & G2 & G3 & _ & G4 & G5 & G6 & _).
    destruct (onMove_deltas m w o info p0 pp Hd Ho Hi Hm Hp Hpp) as [Hprev Hcalls].
    destruct (IH (onMove m w) o info p0 (getMousePosGivenZ m (pz p0) w))
      as (ds & Hds & Hall); try congruence.
    { rewrite (getUisInfo_heap _ w (onMove m w) G3). exact Hi. }
    { apply getMousePosGivenZ_plane, Hray. }
    exists (ds ++ [vsub (getMousePosGivenZ m (pz p0) w) pp]). split.
    + rewrite Hds, Hcalls, <- app_assoc. reflexivity.
    + apply Forall_app. split; [exact Hall|]. apply Forall_singleton.
      cbn [vsub pz]. rewrite (getMousePosGivenZ_plane m (pz p0) w Hray), Hz. lra.
Qed.

(** X13. A drag stays in the plane of the pointer-down. When no pointer ray
    of the session is parallel to that plane, the pointer-down position
    lies at the depth of the picked point and every delta handed to
    [onMove] has a zero z component. *)
Theorem X13_drag_deltas_are_planar d ms u w hit so info :
  intersect d = Some hit ->
  heap w !! object hit = Some so -> uisInfo so = Some info ->
  moveable info = true -> has_onMove info = true ->
  pz (ray d) <> 0 ->
  Forall (fun m => pz (ray m) <> 0) ms ->
  pz (downPos d w) = pz (point hit)
  /\ exists ds,
       moveDeltas (calls (session d ms u w)) = ds ++ moveDeltas (calls w)
       /\ Forall (fun delta => pz delta = 0) ds.
Proof.
  intros Hhit Hh Hi Hmv Hom Hray Hrays.
  split; [unfold downPos; rewrite Hhit; apply getMousePosGivenZ_plane, Hray|].
  unfold session. rewrite onUp_moveDeltas.
  destruct (onDown_registered d w hit so info Hhit Hh Hi)
    as (_ & _ & Dh & Ds & Dp & Dpp & _ & Dd & Dcalls).
  assert (Hg : getUisInfo (Some (object hit)) (onDown d w) = Some info).
  { apply getUisInfo_Some. eauto. }
  destruct (moves_planar ms (onDown d w) (object hit) info (downPos d w) (downPos d w)
              (Dd Hmv) Ds Hg Hom Dp Dpp eq_refl Hrays) as (ds & Hds & Hall).
  exists ds. split; [rewrite Hds, Dcalls; reflexivity|exact Hall].
Qed.

Lemma X13_drag_deltas_are_planar_witness :
  pz (downPos (downOn 1) scene) = pz (point (mkIntersect 1 vzero))
  /\ exists ds,
       moveDeltas (calls (session (downOn 1) [moveNear; upFar] upFar scene))
       = ds ++ moveDeltas (calls scene)
       /\ Forall (fun delta => pz delta = 0) ds.
Proof.
  apply (X13_drag_deltas_are_planar (downOn 1) [moveNear; upFar] upFar scene
           (mkIntersect 1 vzero) portalMesh portalInfo);
    try reflexivity.
  - simpl. lra.
  - repeat constructor; simpl; lra.
Defined.

(** *** Entities that cannot be moved *)

(** X14. An entity that is not moveable is dragged only by a stale flag. A
    pointer-down on a registered entity that is not moveable leaves
    [isDragging] as it was. When no drag was in progress, as at construction
    and after a pointer-up, the session hands nothing to [onMove] and
    ignores the pointer-moves altogether, so that a selectable entity is
    selected after the pointer-up however far the pointer has travelled.
    When the flag was left set, as [deletePointerUp] leaves it, a
    pointer-move of the session does hand a delta to the entity's
    [onMove]. *)
Theorem X14_not_moveable_is_not_dragged d ms u w hit so info :
  intersect d = Some hit ->
  heap w !! object hit = Some so -> uisInfo so = Some info ->
  moveable info = false ->
  isDragging (state (onDown d w)) = isDragging (state w)
  /\ (isDragging (state w) = false ->
      moves ms (onDown d w) = onDown d w
      /\ moveDeltas (calls (session d ms u w)) = moveDeltas (calls w)
      /\ (selectable info = true ->
          holdsPersistentSelection (session d ms u w) (object hit)))
  /\ (isDragging (state w) = true -> has_onMove info = true ->
      forall m,
        moveDeltas (calls (onMove m (onDown d w)))
        = vsub (sessionPos d m w) (downPos d w) :: moveDeltas (calls w)).
Proof.
  intros Hhit Hh Hi Hmv.
  destruct (onDown_registered d w hit so info Hhit Hh Hi)
    as (Dc & _ & Dh & Ds & Dp & Dpp & Dps & _ & Dcalls).
  assert (Hkeep : isDragging (state (onDown d w)) = isDragging (state w)).
  { destruct (onDown_spec d w hit Hhit) as (w1 & Hw1 & Hcases).
    assert (H1 : isDragging (state w1) = isDragging (state w)).
    { rewrite Hw1. case_match; [|reflexivity].
      apply (proj1 (unselectObject_drag _ w)). }
    destruct Hcases as [[_ ->]|(so' & info' & Hso' & Hinfo' & _ & _ & Hheap & _ & _ & Hst)];
      [exact H1|].
    rewrite <- Hheap, Dh in Hso'. injection Hso' as <-.
    rewrite Hi in Hinfo'. injection Hinfo' as <-.
    rewrite Hst. cbn [isDragging]. rewrite Hmv. exact H1. }
  split; [exact Hkeep|]. split.
  - intros Hdrag.
    assert (Hidle : isDragging (state (onDown d w)) = false) by congruence.
    assert (Hmoves : moves ms (onDown d w) = onDown d w) by (apply moves_idle, Hidle).
    split; [exact Hmoves|]. unfold session. rewrite Hmoves. split.
    + rewrite onUp_moveDeltas. exact Dcalls.
    + intros Hsel.
      pose proof (onUp_registered u (onDown d w) (object hit) so info Ds Dh Hi) as Hup.
      rewrite Hsel, Dps, Hsel in Hup. cbn [andb] in Hup. destruct Hup. split; assumption.
  - intros Hdrag Hom m.
    assert (Hg : getUisInfo (Some (object hit)) (onDown d w) = Some info).
    { unfold getUisInfo. cbn [mbind option_bind]. rewrite Dh.
      cbn [mbind option_bind]. exact Hi. }
    assert (Hd' : isDragging (state (onDown d w)) = true) by congruence.
    destruct (onMove_deltas m (onDown d w) (object hit) info (downPos d w) (downPos d w)
                Hd' Ds Hg Hom Dp Dpp) as (_ & Hdel).
    rewrite Hdel, Dcalls. unfold sessionPos.
    rewrite (getMousePosGivenZ_camera m _ w (onDown d w) Dc). reflexivity.
Qed.

Lemma X14_not_moveable_is_not_dragged_witness :
  isDragging (state (onDown (downOn 3) sceneWithLabel))
  = isDragging (state sceneWithLabel)
  /\ (isDragging (state sceneWithLabel) = false ->
      moves [moveNear; upFar] (onDown (downOn 3) sceneWithLabel)
      = onDown (downOn 3) sceneWithLabel
      /\ moveDeltas (calls (session (downOn 3) [moveNear; upFar] upFar sceneWithLabel))
         = moveDeltas (calls sceneWithLabel)
      /\ (selectable labelInfo = true ->
          holdsPersistentSelection
            (session (downOn 3) [moveNear; upFar] upFar sceneWithLabel) 3))
  /\ (isDragging (state sceneWithLabel) = true -> has_onMove labelInfo = true ->
      forall m,
        moveDeltas (calls (onMove m (onDown (downOn 3) sceneWithLabel)))
        = vsub (sessionPos (downOn 3) m sceneWithLabel) (downPos (downOn 3) sceneWithLabel)
          :: moveDeltas (calls sceneWithLabel)).
Proof.
  apply (X14_not_moveable_is_not_dragged (downOn 3) [moveNear; upFar] upFar
           sceneWithLabel (mkIntersect 3 vzero) labelMesh labelInfo);
    reflexivity.
Defined.

End SessionMore.
(** ** The portal: connection lifecycle and transit *)

Module TransitMore.
Import JsNum Geometry Portal PortalSamples PortalObs NumFacts TransitProps.

(** *** Connection lifecycle *)

Lemma is_Some_decide_Some {A} (c : A) : bool_decide (is_Some (Some c)) = true.
Proof. apply bool_decide_eq_true_2. eauto. Qed.

Lemma is_Some_decide_None {A} : bool_decide (is_Some (@None A)) = false.
Proof. apply bool_decide_eq_false_2. intros [? ?]. discriminate. Qed.

Lemma manageConnection_connected_keeps p c brokers :
  enabled p = true -> brokerConnection p = Some c -> manageConnection brokers p = p.
Proof.
  intros He Hc. unfold manageConnection. rewrite He, Hc, is_Some_decide_Some.
  reflexivity.
Qed.

Lemma manageConnection_disabled_none p brokers :
  enabled p = false -> brokerConnection p = None -> manageConnection brokers p = p.
Proof.
  intros He Hc. unfold manageConnection. rewrite He, Hc, (is_Some_decide_None (A:=Connection)).
  reflexivity.
Qed.

(** X15. [manageConnection] reconciles the connection with the [enabled]
    flag and running it again changes nothing. A disabled portal ends
    without a connection handle; an enabled portal that has one keeps it;
    an enabled portal without one gets a new connection, bound to its queue
    when a queue name is configured and binding requested, provided its
    broker is configured and known, and is left as it was otherwise. The
    [connected] flag is never written. *)
Theorem X15_manageConnection_reconciles brokers p :
  manageConnection brokers (manageConnection brokers p) = manageConnection brokers p
  /\ connected (manageConnection brokers p) = connected p
  /\ (enabled p = false -> brokerConnection (manageConnection brokers p) = None)
  /\ (enabled p = true -> is_Some (brokerConnection p) ->
      manageConnection brokers p = p)
  /\ (enabled p = true -> brokerConnection p = None ->
      broker p <> "" -> broker p ∈ brokers ->
      brokerConnection (manageConnection brokers p)
      = Some (if bindToQueue p && negb (bool_decide (queueName p = ""))
              then conn_bindToQueue (queueName p) newConnection
              else newConnection))
  /\ (enabled p = true -> brokerConnection p = None ->
      broker p = "" \/ broker p ∉ brokers ->
      manageConnection brokers p = p).
Proof.
  assert (Hconn : forall q, enabled q = true -> brokerConnection q = None ->
            broker q <> "" -> broker q ∈ brokers ->
            manageConnection brokers q
            = with_brokerConnection
                (Some (if bindToQueue q && negb (bool_decide (queueName q = ""))
                       then conn_bindToQueue (queueName q) newConnection
                       else newConnection)) q).
  { intros q He Hc Hb Hin. unfold manageConnection, connect.
    rewrite He, Hc, (is_Some_decide_None (A:=Connection)). cbn [andb negb orb].
    rewrite (bool_decide_eq_false_2 (broker q = "")) by exact Hb.
    rewrite (bool_decide_eq_true_2 (broker q ∈ brokers)) by exact Hin.
    reflexivity. }
  assert (Hnone : forall q, enabled q = true -> brokerConnection q = None ->
            broker q = "" \/ broker q ∉ brokers ->
            manageConnection brokers q = q).
  { intros q He Hc Hb. unfold manageConnection, connect.
    rewrite He, Hc, (is_Some_decide_None (A:=Connection)). cbn [andb negb orb].
    destruct (bool_decide (broker q = "")) eqn:Hd; [reflexivity|].
    apply bool_decide_eq_false in Hd.
    destruct Hb as [Hb|Hb]; [contradiction|].
    rewrite (bool_decide_eq_false_2 (broker q ∈ brokers)) by exact Hb. reflexivity. }
  assert (Hdis : forall q c, enabled q = false -> brokerConnection q = Some c ->
            manageConnection brokers q = with_brokerConnection None q).
  { intros q c He Hc. unfold manageConnection, disconnect.
    rewrite He, Hc, is_Some_decide_Some. reflexivity. }
  split; [|split; [|split; [|split; [|split]]]].
  - destruct (enabled p) eqn:He, (brokerConnection p) as [c|] eqn:Hc.
    + rewrite (manageConnection_connected_keeps p c brokers He Hc).
      apply (manageConnection_connected_keeps p c brokers He Hc).
    + destruct (decide (broker p = "")) as [Hb|Hb];
        [rewrite (Hnone p He Hc (or_introl Hb)); apply (Hnone p He Hc (or_introl Hb))|].
      destruct (decide (broker p ∈ brokers)) as [Hin|Hin];
        [|rewrite (Hnone p He Hc (or_intror Hin)); apply (Hnone p He Hc (or_intror Hin))].
      rewrite (Hconn p He Hc Hb Hin).
      eapply manageConnection_connected_keeps; [exact He|reflexivity].
    + rewrite (Hdis p c He Hc).
      apply manageConnection_disabled_none; [exact He|reflexivity].
    + rewrite (manageConnection_disabled_none p brokers He Hc).
      apply (manageConnection_disabled_none p brokers He Hc).
  - unfold manageConnection, connect, disconnect. repeat case_match; reflexivity.
  - intros He. destruct (brokerConnection p) as [c|] eqn:Hc.
    + rewrite (Hdis p c He Hc). reflexivity.
    + rewrite (manageConnection_disabled_none p brokers He Hc). exact Hc.
  - intros He [c Hc]. apply (manageConnection_connected_keeps p c brokers He Hc).
  - intros He Hc Hb Hin. rewrite (Hconn p He Hc Hb Hin). reflexivity.
  - intros He Hc Hb. apply (Hnone p He Hc Hb).
Qed.

Lemma X15_manageConnection_reconciles_witness :
  brokerConnection (manageConnection ["broker"] (with_enabled false (portalAt 1 0))) = None
  /\ manageConnection ["broker"] (portalAt 1 0) = portalAt 1 0
  /\ brokerConnection
       (manageConnection ["broker"] (with_brokerConnection None (portalAt 1 0)))
     = Some newConnection.
Proof.
  split; [|split].
  - apply (proj1 (proj2 (proj2 (X15_manageConnection_reconciles ["broker"]
                                  (with_enabled false (portalAt 1 0)))))).
    reflexivity.
  - apply (proj1 (proj2 (proj2 (proj2 (X15_manageConnection_reconciles ["broker"]
                                         (portalAt 1 0)))))).
    + reflexivity.
    + eexists. reflexivity.
  - apply (proj1 (proj2 (proj2 (proj2 (proj2
             (X15_manageConnection_reconciles ["broker"]
                (with_brokerConnection None (portalAt 1 0)))))))).
    + reflexivity.
    + reflexivity.
    + discriminate.
    + apply list_elem_of_here.
Defined.

(** X16. [disconnect] drops the handle but leaves the [connected] flag to
    [onDisconnect]. Until that callback runs, a collision of a non-static
    object that is not cooling down from this portal passes the guard,
    reaches [publish] on the missing handle and throws a [TypeError]; the
    object is not destroyed. *)
Theorem X16_collision_after_disconnect_throws body obj p :
  connected p = true ->
  isStatic obj = false ->
  ~ (isCoolingDown obj = true /\ getFromPortal obj = Some (self p)) ->
  connected (disconnect p) = true
  /\ brokerConnection (disconnect p) = None
  /\ onCollision body obj (disconnect p) = TypeError
  /\ onCollision body obj (onDisconnect (disconnect p))
     = Ok (onDisconnect (disconnect p), obj).
Proof.
  intros Hc Hs Hcool.
  assert (Hflag : connected (disconnect p) = true).
  { unfold disconnect. destruct (brokerConnection p); exact Hc. }
  assert (Hnone : brokerConnection (disconnect p) = None).
  { unfold disconnect. destruct (brokerConnection p) eqn:E; [reflexivity|exact E]. }
  assert (Hself : self (disconnect p) = self p).
  { unfold disconnect. destruct (brokerConnection p); reflexivity. }
  split; [exact Hflag|]. split; [exact Hnone|]. split.
  - unfold onCollision. rewrite Hflag, Hself. cbn [negb].
    destruct (isCoolingDown obj && bool_decide (getFromPortal obj = Some (self p)))
      eqn:E.
    + exfalso. apply Hcool. apply andb_true_iff in E as [E1 E2].
      apply bool_decide_eq_true in E2. auto.
    + rewrite Hs. cbn [negb]. unfold sendObjectToBroker. rewrite Hnone. reflexivity.
  - reflexivity.
Qed.

Lemma X16_collision_after_disconnect_throws_witness :
  connected (disconnect (portalAt 1 0)) = true
  /\ brokerConnection (disconnect (portalAt 1 0)) = None
  /\ onCollision movingRight ball (disconnect (portalAt 1 0)) = TypeError
  /\ onCollision movingRight ball (onDisconnect (disconnect (portalAt 1 0)))
     = Ok (onDisconnect (disconnect (portalAt 1 0)), ball).
Proof.
  apply (X16_collision_after_disconnect_throws movingRight ball (portalAt 1 0));
    [reflexivity | reflexivity | intros [H _]; discriminate H].
Defined.

(** X17. [onConnect] marks the portal connected and issues its subscription
    set on the connection: the configured list, each entry with quality of
    service 0, or else the one wildcard [portal/*/<portalId>/#]. The set
    replaces whatever was subscribed, so that connecting again leaves the
    portal as it is; nothing that was published is touched. Without a
    connection handle the flag is set all the same. *)
Theorem X17_onConnect_subscribes p :
  onConnect (onConnect p) = onConnect p
  /\ connected (onConnect p) = true
  /\ brokerConnection (onConnect p)
     = setSubscriptions (portalSubscriptions p) <$> brokerConnection p
  /\ publishedBy (onConnect p) = publishedBy p
  /\ (useSubscriptionList p = false ->
      forall c, brokerConnection (onConnect p) = Some c -> length (subscriptions c) = 1%nat).
Proof.
  assert (H3 : brokerConnection (onConnect p)
               = setSubscriptions (portalSubscriptions p) <$> brokerConnection p).
  { unfold onConnect, subscribeToPortalTopics, portalSubscriptions.
    change (brokerConnection (with_connected true p)) with (brokerConnection p).
    destruct (brokerConnection p) eqn:E; [reflexivity|]. cbn. exact E. }
  split; [|split; [|split; [exact H3|split]]].
  - unfold onConnect, subscribeToPortalTopics.
    change (brokerConnection (with_connected true p)) with (brokerConnection p).
    destruct (brokerConnection p) as [c|] eqn:Hc; [|cbn; rewrite Hc; reflexivity].
    cbn. reflexivity.
  - unfold onConnect, subscribeToPortalTopics.
    change (brokerConnection (with_connected true p)) with (brokerConnection p).
    destruct (brokerConnection p); reflexivity.
  - unfold publishedBy. rewrite H3. destruct (brokerConnection p); reflexivity.
  - intros Hu c Hc. rewrite H3 in Hc. destruct (brokerConnection p); [|discriminate].
    injection Hc as <-. unfold portalSubscriptions. rewrite Hu. reflexivity.
Qed.

(** *** Transit *)

(** X18. An object is consumed exactly when it is published. A collision
    that completes either leaves portal and object as they were, or
    publishes one envelope, the object's, on the portal's connection and
    destroys the object; the portal's other fields are not written. *)
Theorem X18_consumed_iff_published body obj p p' obj' :
  onCollision body obj p = Ok (p', obj') ->
  (p' = p /\ obj' = obj)
  \/ (obj' = destroy obj
      /\ publishedBy p'
         = (transitTopic obj p, transitEnvelope body obj p) :: publishedBy p
      /\ core (with_brokerConnection None p') = core (with_brokerConnection None p)).
Proof.
  unfold onCollision. intros H.
  destruct (connected p); cbn [negb] in H; [|left; injection H as <- <-; auto].
  destruct (isCoolingDown obj && bool_decide (getFromPortal obj = Some (self p)));
    [left; injection H as <- <-; auto|].
  destruct (isStatic obj); cbn [negb] in H; [left; injection H as <- <-; auto|].
  unfold sendObjectToBroker in H.
  destruct (brokerConnection p) as [c|] eqn:Hc; [|discriminate].
  injection H as <- <-. right. split; [reflexivity|]. split; [|reflexivity].
  unfold publishedBy. cbn. rewrite Hc. reflexivity.
Qed.

Lemma X18_consumed_iff_published_witness :
  exists q',
    onCollision movingRight ball (portalAt 2 PI) = Ok (q', destroy ball)
    /\ ((q' = portalAt 2 PI /\ destroy ball = ball)
        \/ (destroy ball = destroy ball
            /\ publishedBy q'
               = (transitTopic ball (portalAt 2 PI),
                  transitEnvelope movingRight ball (portalAt 2 PI))
                 :: publishedBy (portalAt 2 PI)
            /\ core (with_brokerConnection None q')
               = core (with_brokerConnection None (portalAt 2 PI)))).
Proof.
  eexists. split; [reflexivity|].
  apply (X18_consumed_iff_published movingRight ball (portalAt 2 PI)). reflexivity.
Defined.

Lemma onMessage_carries world topic payload p :
  (velocity payload = None -> onMessage world topic payload p = TypeError)
  /\ (forall v, velocity payload = Some v ->
      exists newObj,
        onMessage world topic payload p
        = Ok (newObj, setFromPortal (self p) <$> world newObj topic)
        /\ env_rotation newObj = env_rotation payload + rotation p
        /\ angularVelocity newObj = angularVelocity payload
        /\ env_guid newObj = env_guid payload
        /\ env_type newObj = env_type payload
        /\ objectConfig newObj = objectConfig payload).
Proof.
  split.
  - intros Hv. unfold onMessage, onMessageWith. rewrite Hv. reflexivity.
  - intros v Hv. unfold onMessage, onMessageWith. rewrite Hv. cbv zeta.
    match goal with |- context [world ?n topic] => exists n end. split.
    + destruct (world _ topic); reflexivity.
    + repeat split.
Qed.

(** X19. Where an arriving object is put. For a payload that carries a
    velocity, the object handed to the world registry lies ten units from
    the portal's position in the direction the portal faces, and its
    rotation is the payload's rotation plus the portal's. The registry is
    asked once, with the rewritten payload and the topic, and whatever
    object it returns is tagged with this portal. A payload without a
    velocity throws before the registry is asked. *)
Theorem X19_arrival_position world topic payload p :
  (velocity payload = None -> onMessage world topic payload p = TypeError)
  /\ (forall v, velocity payload = Some v ->
      exists newObj,
        onMessage world topic payload p
        = Ok (newObj, setFromPortal (self p) <$> world newObj topic)
        /\ env_x newObj = x p + cos (rotation p) * 10
        /\ env_y newObj = y p + sin (rotation p) * 10
        /\ (env_x newObj - x p) * (env_x newObj - x p)
           + (env_y newObj - y p) * (env_y newObj - y p) = 100
        /\ env_rotation newObj = env_rotation payload + rotation p
        /\ angularVelocity newObj = angularVelocity payload
        /\ env_guid newObj = env_guid payload
        /\ env_type newObj = env_type payload
        /\ objectConfig newObj = objectConfig payload).
Proof.
  split.
  - intros Hv. unfold onMessage, onMessageWith. rewrite Hv. reflexivity.
  - intros v Hv. unfold onMessage, onMessageWith. rewrite Hv. cbv zeta.
    match goal with |- context [world ?n topic] => exists n end. split.
    + destruct (world _ topic); reflexivity.
    + cbn [env_x env_y env_rotation angularVelocity env_guid env_type objectConfig].
      repeat split.
      pose proof (sin2_cos2 (rotation p)) as H. unfold Rsqr in H. nra.
Qed.

Lemma X19_arrival_position_witness :
  exists newObj,
    onMessage acceptAll "portal/A/2/Ball/red" lateEnvelope (portalAt 1 0)
    = Ok (newObj, setFromPortal 1 <$> acceptAll newObj "portal/A/2/Ball/red")
    /\ env_x newObj = 0 + cos 0 * 10
    /\ env_y newObj = 0 + sin 0 * 10
    /\ (env_x newObj - 0) * (env_x newObj - 0)
       + (env_y newObj - 0) * (env_y newObj - 0) = 100
    /\ env_rotation newObj = env_rotation lateEnvelope + 0
    /\ angularVelocity newObj = angularVelocity lateEnvelope
    /\ env_guid newObj = env_guid lateEnvelope
    /\ env_type newObj = env_type lateEnvelope
    /\ objectConfig newObj = objectConfig lateEnvelope.
Proof.
  apply (proj2 (X19_arrival_position acceptAll "portal/A/2/Ball/red" lateEnvelope
                  (portalAt 1 0)) (vec2_of (rotatePoint 0 0 1 0 (- 0)))).
  reflexivity.
Defined.

(** X20. What survives a transit. The envelope built at a drawn portal
    carries the object's rotation relative to the portal, its angular
    velocity, its guid and its lower-cased type; received at a portal B the
    object's rotation is its original rotation minus the rotation of the
    sending portal plus that of B, hence unchanged between portals that
    face the same way, and angular velocity, guid and type arrive as
    sent. *)
Theorem X20_rotation_and_identity_round_trip body obj pe world topic pB :
  let envelope := transitEnvelope body obj (createPortal pe).1 in
  env_rotation envelope = obj_rotation_z obj - rotation pe.1
  /\ exists newObj added,
       onMessage world topic envelope pB = Ok (newObj, added)
       /\ env_rotation newObj = obj_rotation_z obj - rotation pe.1 + rotation pB
       /\ (rotation pB = rotation pe.1 -> env_rotation newObj = obj_rotation_z obj)
       /\ angularVelocity newObj = rb_angularVelocity body
       /\ env_guid newObj = guid obj
       /\ env_type newObj = toLowerCase (constructorName obj)
       /\ objectConfig newObj = objectConfig (getConfig obj).
Proof.
  intros envelope.
  assert (Hr : env_rotation envelope = obj_rotation_z obj - rotation pe.1).
  { unfold envelope, transitEnvelope. cbn [env_rotation].
    rewrite createPortal_group_rotation. reflexivity. }
  split; [exact Hr|].
  destruct (proj2 (onMessage_carries world topic envelope pB)
              (vec2_of (rotatePoint 0 0 (vx (linearVelocity body))
                          (vy (linearVelocity body))
                          (- group_rotation_z (createPortal pe).1))) eq_refl)
    as (newObj & Hm & Hrot & Ha & Hg & Ht & Hc).
  exists newObj, (setFromPortal (self pB) <$> world newObj topic).
  split; [exact Hm|]. rewrite Hrot, Hr, Ha, Hg, Ht, Hc.
  repeat split. intros ->. lra.
Qed.

End TransitMore.

(** ** Portal geometry: drawing, redrawing and the handles *)

Module GeometryMore.
Import JsNum Geometry Portal PortalSamples PortalObs NumFacts TransitProps HygieneProps.

(** The remainder is smaller than the modulus. *)
Lemma rem_bound x m : 0 < m -> - m < rem x m < m.
Proof.
  intros Hm. unfold rem, trunc.
  remember (x / m) as r eqn:Er.
  assert (Hx : x = m * r) by (subst r; field; lra).
  destruct (decide (0 <= r)) as [Hr|Hr].
  - destruct (base_Int_part r) as [H1 H2]. rewrite Hx. nra.
  - destruct (base_Int_part (- r)) as [H1 H2]. rewrite opp_IZR, Hx. nra.
Qed.

(** *** What each drawing step writes *)

Lemma shape_set_node_bodies n bs (cs : list Node) :
  (fun c => (node_id c, node_type c)) <$> (set_node_bodies n bs <$> cs)
  = (fun c => (node_id c, node_type c)) <$> cs.
Proof.
  induction cs as [|c cs IH]; [reflexivity|].
  cbn [fmap list_fmap] in *. rewrite IH. f_equal.
  unfold set_node_bodies. destruct (decide (node_id c = n)); reflexivity.
Qed.

Lemma shape_setPhysicsBodies n bs p : shape (setPhysicsBodies n bs p) = shape p.
Proof. apply shape_set_node_bodies. Qed.

Lemma meshWithBodies_drawn s1 h1 s2 h2 pe :
  drawn (let '(mesh, pe1) := addNode TMesh pe in
         createBodies mesh [(s1, h1); (s2, h2)] [] pe1)
  = let '(sh, pl, scr, me, bs, nb, nn) := drawn pe in
    (sh ++ [(nn, TMesh)], pl, scr, me,
     bs ++ [mkBody nb me s1 h1; mkBody (S nb) me s2 h2], S (S nb), S nn).
Proof.
  destruct pe as [p [[bs nb] nn rm]]. unfold drawn.
  cbn [addNode createBodies createBody fst snd physics nextNode removals bodies
       nextBody with_physics self with_children app].
  rewrite shape_setPhysicsBodies. unfold shape.
  cbn [children with_children pointLight screwHeads self setPhysicsBodies].
  rewrite fmap_app, <- app_assoc. reflexivity.
Qed.

Lemma createTorus_drawn pe :
  drawn (createTorus pe)
  = let '(sh, pl, scr, me, bs, nb, nn) := drawn pe in
    (sh ++ [(nn, TMesh)], pl, scr, me,
     bs ++ [mkBody nb me Circle false; mkBody (S nb) me Circle false], S (S nb), S nn).
Proof. apply meshWithBodies_drawn. Qed.

Lemma createTube_drawn pe :
  drawn (createTube pe)
  = let '(sh, pl, scr, me, bs, nb, nn) := drawn pe in
    (sh ++ [(nn, TMesh)], pl, scr, me,
     bs ++ [mkBody nb me Box false; mkBody (S nb) me Box false], S (S nb), S nn).
Proof. apply meshWithBodies_drawn. Qed.

Lemma createBack_drawn pe :
  drawn (createBack pe)
  = let '(sh, pl, scr, me, bs, nb, nn) := drawn pe in
    (sh ++ [(nn, TMesh)], pl, scr, me,
     bs ++ [mkBody nb me Box false; mkBody (S nb) me Box true], S (S nb), S nn).
Proof. apply meshWithBodies_drawn. Qed.

Lemma createMist_drawn pe :
  drawn (createMist pe)
  = let '(sh, pl, scr, me, bs, nb, nn) := drawn pe in
    (sh ++ [(nn, TMesh)], pl, scr, me, bs, nb, S nn).
Proof.
  destruct pe as [p [[bs nb] nn rm]]. unfold drawn, createMist, shape.
  cbn. rewrite fmap_app. reflexivity.
Qed.

Lemma createPointLight_drawn pe :
  drawn (createPointLight pe)
  = let '(sh, pl, scr, me, bs, nb, nn) := drawn pe in
    match pl with
    | Some _ => (sh, pl, scr, me, bs, nb, nn)
    | None => (sh ++ [(nn, TPointLight)], Some nn, scr, me, bs, nb, S nn)
    end.
Proof.
  destruct pe as [p [[bs nb] nn rm]]. unfold drawn, createPointLight, shape.
  cbn [fst snd]. destruct (pointLight p) eqn:Hl.
  - cbn [fst snd]. rewrite Hl. reflexivity.
  - cbn. rewrite fmap_app. reflexivity.
Qed.

Lemma createScrewHeads_drawn pe :
  drawn (createScrewHeads pe)
  = let '(sh, pl, scr, me, bs, nb, nn) := drawn pe in
    (sh ++ [(nn, TGroup); (S nn, TGroup)], pl, [nn; S nn], me, bs, nb, S (S nn)).
Proof.
  destruct pe as [p [[bs nb] nn rm]]. unfold drawn, createScrewHeads, shape.
  cbn. rewrite !fmap_app, <- app_assoc. reflexivity.
Qed.

(** [createPortal], on what drawing reads and writes. *)
Lemma createPortal_drawn pe :
  drawn (createPortal pe)
  = let '(sh, pl, scr, me, bs, nb, nn) := drawn pe in
    let bs' := bs ++ portalBodies me nb in
    match pl with
    | Some _ =>
      (sh ++ [(nn, TMesh); (S nn, TMesh); (S (S nn), TMesh); (S (S (S nn)), TMesh);
              (S (S (S (S nn))), TGroup); (S (S (S (S (S nn)))), TGroup)],
       pl, [S (S (S (S nn))); S (S (S (S (S nn))))], me, bs',
       S (S (S (S (S (S nb))))), S (S (S (S (S (S nn))))))
    | None =>
      (sh ++ [(nn, TMesh); (S nn, TPointLight); (S (S nn), TMesh); (S (S (S nn)), TMesh);
              (S (S (S (S nn))), TMesh);
              (S (S (S (S (S nn)))), TGroup); (S (S (S (S (S (S nn))))), TGroup)],
       Some (S nn), [S (S (S (S (S nn)))); S (S (S (S (S (S nn)))))], me, bs',
       S (S (S (S (S (S nb))))), S (S (S (S (S (S (S nn)))))))
    end.
Proof.
  assert (H : drawn (createPortal pe)
              = drawn (createScrewHeads (createBack (createTube (createMist
                  (createPointLight (createTorus pe))))))).
  { unfold createPortal. destruct (createScrewHeads _) as [p e]. reflexivity. }
  rewrite H, createScrewHeads_drawn, createBack_drawn, createTube_drawn,
    createMist_drawn, createPointLight_drawn, createTorus_drawn.
  unfold drawn, portalBodies. destruct (pointLight pe.1);
    repeat (rewrite <- app_assoc; cbn [app]); reflexivity.
Qed.

Lemma createPortal_group_position pe :
  group_position (createPortal pe).1 = mkVec3 (x pe.1) (y pe.1) 0.
Proof.
  unfold createPortal. destruct (createScrewHeads _) as [p e] eqn:E.
  cbn [fst group_position with_group_pose].
  assert (H : core p = core pe.1).
  { pose proof (createPortal_core pe) as H. unfold createPortal in H.
    rewrite E in H. exact H. }
  unfold core in H. injection H as _ _ _ Hx Hy _ _ _ _ _ _ _ _ _ _ _ _.
  rewrite Hx, Hy. reflexivity.
Qed.

(** *** What the destruction leaves *)

Lemma filter_ext_in {A} (P Q : A -> Prop) `{forall x, Decision (P x)}
    `{forall x, Decision (Q x)} (l : list A) :
  (forall a, a ∈ l -> (P a <-> Q a)) -> filter P l = filter Q l.
Proof.
  induction l as [|a l IH]; intros Hl; [reflexivity|].
  assert (IH' : filter P l = filter Q l).
  { apply IH. intros b Hb. apply Hl, list_elem_of_further, Hb. }
  destruct (decide (P a)) as [Ha|Ha].
  - rewrite !filter_cons_True; [f_equal; exact IH'|apply Hl; [apply list_elem_of_here|]|];
      assumption.
  - rewrite !filter_cons_False; [exact IH'| |assumption].
    intros Hq. apply Ha, Hl; [apply list_elem_of_here|exact Hq].
Qed.

Lemma NoDup_fmap_inj {A B} (f : A -> B) (l : list A) a b :
  NoDup (f <$> l) -> a ∈ l -> b ∈ l -> f a = f b -> a = b.
Proof.
  induction l as [|c l IH]; intros Hnd Ha Hb Hf.
  - apply elem_of_nil in Ha. contradiction.
  - cbn [fmap list_fmap] in Hnd. apply NoDup_cons in Hnd as [Hnc Hnd].
    apply elem_of_cons in Ha as [->|Ha]; apply elem_of_cons in Hb as [->|Hb].
    + reflexivity.
    + exfalso. apply Hnc. rewrite Hf. apply list_elem_of_fmap_2, Hb.
    + exfalso. apply Hnc. rewrite <- Hf. apply list_elem_of_fmap_2, Ha.
    + apply IH; assumption.
Qed.

Lemma shape_removeNode n p :
  shape (removeNode n p) = filter (fun it => it.1 <> n) (shape p).
Proof.
  unfold shape, removeNode. cbn [children with_children].
  induction (children p) as [|c cs IH]; [reflexivity|].
  cbn [fmap list_fmap]. destruct (decide (node_id c = n)) as [Hc|Hc].
  - rewrite filter_cons_False by (intros H; apply H, Hc).
    rewrite (filter_cons_False (fun it : nat * NodeType => it.1 <> n))
      by (intros H; apply H, Hc).
    exact IH.
  - rewrite filter_cons_True by exact Hc.
    rewrite (filter_cons_True (fun it : nat * NodeType => it.1 <> n)) by exact Hc.
    cbn [fmap list_fmap]. f_equal. exact IH.
Qed.

Lemma destroyMesh_shape p e c :
  shape (destroyMesh (p, e) c).1
  = (if decide (node_type c = TPointLight) then shape p
     else filter (fun it => it.1 <> node_id c) (shape p))
  /\ pointLight (destroyMesh (p, e) c).1 = pointLight p
  /\ screwHeads (destroyMesh (p, e) c).1 = screwHeads p.
Proof.
  unfold destroyMesh.
  destruct (physicsBodies c); destruct (node_type c); cbn [fst];
    rewrite ?shape_removeNode, ?shape_setPhysicsBodies;
    (split; [|split; reflexivity]);
    match goal with
    | |- context [decide ?P] => destruct (decide P); congruence
    end.
Qed.

(** The children left by the destruction of the nodes [cs] are those whose
    identity is not the identity of a node of [cs] other than a light. *)
Lemma destroy_fold_shape cs : forall p e,
  shape (fold_left destroyMesh cs (p, e)).1
  = filter (fun it => it.1 ∉ node_id <$> filter (fun c => node_type c <> TPointLight) cs)
      (shape p)
  /\ pointLight (fold_left destroyMesh cs (p, e)).1 = pointLight p
  /\ screwHeads (fold_left destroyMesh cs (p, e)).1 = screwHeads p.
Proof.
  induction cs as [|c cs IH]; intros p e.
  - cbn [fold_left fst]. split; [|split; reflexivity].
    symmetry. apply filter_all, Forall_forall. intros it _. apply not_elem_of_nil.
  - cbn [fold_left]. destruct (destroyMesh (p, e) c) as [p1 e1] eqn:Hd.
    destruct (IH p1 e1) as (Hs & Hl & Hh).
    destruct (destroyMesh_shape p e c) as (Hs1 & Hl1 & Hh1). rewrite Hd in Hs1, Hl1, Hh1.
    cbn [fst] in Hs1, Hl1, Hh1. rewrite Hs, Hl, Hh, Hs1, Hl1, Hh1.
    split; [|split; reflexivity].
    destruct (decide (node_type c = TPointLight)) as [Ht|Ht].
    + rewrite (filter_cons_False (fun c => node_type c <> TPointLight))
        by (intros H; apply H, Ht).
      reflexivity.
    + rewrite (filter_cons_True (fun c => node_type c <> TPointLight)) by exact Ht.
      rewrite list_filter_filter. apply list_filter_iff. intros it.
      cbn [fmap list_fmap]. rewrite not_elem_of_cons. tauto.
Qed.

(** Every child the destruction leaves is a light. *)
Lemma destroyPortal_lights pe :
  Forall (fun it => it.2 = TPointLight) (shape (destroyPortal pe).1).
Proof.
  destruct pe as [p e]. unfold destroyPortal. cbn [fst app].
  destruct (destroy_fold_shape (children p) p e) as (Hs & _). rewrite Hs.
  apply Forall_forall. intros it Hit. apply list_elem_of_filter in Hit as [Hnot Hit].
  destruct (decide (it.2 = TPointLight)) as [Ht|Ht]; [exact Ht|]. exfalso. apply Hnot.
  unfold shape in Hit. apply list_elem_of_fmap in Hit as (c & -> & Hc).
  cbn [fst snd] in *. apply list_elem_of_fmap_2. apply list_elem_of_filter. auto.
Qed.

(** With distinct identities the destruction leaves exactly the lights. *)
Lemma destroyPortal_shape pe :
  NoDup (shape pe.1).*1 ->
  shape (destroyPortal pe).1 = filter (fun it => it.2 = TPointLight) (shape pe.1).
Proof.
  destruct pe as [p e]. cbn [fst]. intros Hnd. unfold destroyPortal. cbn [fst app].
  destruct (destroy_fold_shape (children p) p e) as (Hs & _). rewrite Hs.
  apply filter_ext_in. intros it Hit. split.
  - intros Hnot. destruct (decide (it.2 = TPointLight)) as [Ht|Ht]; [exact Ht|].
    exfalso. apply Hnot.
    unfold shape in Hit. apply list_elem_of_fmap in Hit as (c & -> & Hc).
    cbn [fst snd] in *. apply list_elem_of_fmap_2. apply list_elem_of_filter. auto.
  - intros Ht Hin. apply list_elem_of_fmap in Hin as (c & Hid & Hc).
    apply list_elem_of_filter in Hc as [Hty Hc].
    assert (Hc' : (node_id c, node_type c) ∈ shape p).
    { unfold shape. apply (list_elem_of_fmap_2 (fun c => (node_id c, node_type c))), Hc. }
    assert (E : it = (node_id c, node_type c)).
    { apply (NoDup_fmap_inj fst (shape p)); [exact Hnd|exact Hit|exact Hc'|exact Hid]. }
    rewrite E in Ht. cbn [snd] in Ht. contradiction.
Qed.

Lemma bodiesOfNodes_nil_inv cs :
  bodiesOfNodes cs = [] -> forall c, c ∈ cs -> nodeBodies c = [].
Proof.
  unfold bodiesOfNodes. induction cs as [|c0 cs IH]; intros H c Hc.
  - apply elem_of_nil in Hc. contradiction.
  - cbn [fmap list_fmap concat] in H. apply app_eq_nil in H as [H0 H1].
    apply elem_of_cons in Hc as [->|Hc]; [exact H0|]. apply IH; assumption.
Qed.

Lemma concat_nil_all {A} (ls : list (list A)) :
  Forall (fun l => l = []) ls -> concat ls = [].
Proof. induction 1 as [|l ls -> _ IH]; [reflexivity|]. exact IH. Qed.

(** X25. Destroying twice removes nothing more. The second of two
    destructions in a row leaves the engine, the allocator and the record
    of removals as the first left them, and the same children: what the
    first leaves are the lights, none of which refers to a body. *)
Theorem X25_destroy_twice_removes_nothing_more pe :
  (destroyPortal (destroyPortal pe)).2 = (destroyPortal pe).2
  /\ shape (destroyPortal (destroyPortal pe)).1 = shape (destroyPortal pe).1
  /\ Forall (fun it => it.2 = TPointLight) (shape (destroyPortal pe).1)
  /\ requiredBodies (destroyPortal pe).1 = [].
Proof.
  pose proof (destroyPortal_lights pe) as Hl.
  assert (Hreq : requiredBodies (destroyPortal pe).1 = []).
  { destruct pe as [p e]. apply bodiesOfNodes_nil. unfold destroyPortal. cbn [fst app].
    apply destroy_fold_cleared. auto. }
  split; [|split; [|split; [exact Hl|exact Hreq]]].
  - destruct (destroyPortal pe) as [p' e']. cbn [fst snd] in *.
    unfold destroyPortal. cbn [fst app]. rewrite destroy_fold_env.
    change (bodiesOfNodes (children p')) with (requiredBodies p'). rewrite Hreq.
    rewrite filter_all by (apply Forall_forall; intros a _; apply not_elem_of_nil).
    rewrite concat_nil_all; [destruct e' as [[bs nb] nn rm]; reflexivity|].
    apply Forall_forall. intros l Hin. apply list_elem_of_fmap in Hin as (c & -> & Hc).
    unfold nodeRemovals.
    assert (Hb : nodeBodies c = []) by (apply (bodiesOfNodes_nil_inv _ Hreq), Hc).
    rewrite Hb. rewrite Forall_forall in Hl.
    assert (Ht : node_type c = TPointLight).
    { apply (Hl (node_id c, node_type c)). unfold shape.
      apply (list_elem_of_fmap_2 (fun c => (node_id c, node_type c))), Hc. }
    rewrite Ht. reflexivity.
  - destruct (destroyPortal pe) as [p' e']. cbn [fst snd] in *.
    unfold destroyPortal. cbn [fst app].
    destruct (destroy_fold_shape (children p') p' e') as (Hs & _). rewrite Hs.
    apply filter_all, Forall_forall. intros it Hit Hin.
    apply list_elem_of_fmap in Hin as (c & _ & Hc).
    apply list_elem_of_filter in Hc as [Hty Hc]. apply Hty.
    rewrite Forall_forall in Hl.
    apply (Hl (node_id c, node_type c)).
    unfold shape. apply (list_elem_of_fmap_2 (fun c => (node_id c, node_type c))), Hc.
Qed.

(** *** Redrawing *)

(** Under hygiene the destruction removes the portal's own bodies and no
    others. *)
Lemma destroyPortal_bodies pe :
  hygienic pe ->
  bodies (physics (destroyPortal pe).2)
  = filter (fun b => body_owner b <> self pe.1) (bodies (physics pe.2))
  /\ nextBody (physics (destroyPortal pe).2) = nextBody (physics pe.2).
Proof.
  destruct pe as [p e]. intros (Hn & Hb & Hnd & Heq). cbn [fst snd] in *.
  unfold destroyPortal. cbn [fst app]. rewrite destroy_fold_env.
  cbn [physics bodies nextBody]. split; [|reflexivity].
  change (bodiesOfNodes (children p)) with (requiredBodies p). rewrite <- Heq.
  apply filter_ext_in. intros a Ha. unfold bodiesOf. split.
  - intros Hnot Ho. apply Hnot. apply list_elem_of_fmap_2, list_elem_of_filter. auto.
  - intros Ho Hin. apply list_elem_of_fmap in Hin as (a' & Hid & Ha').
    apply list_elem_of_filter in Ha' as [Ho' Ha'].
    assert (a = a') by (apply (NoDup_fmap_inj body_id (bodies (physics e))); assumption).
    subst a'. contradiction.
Qed.

Lemma destroyPortal_nextNode pe : nextNode (destroyPortal pe).2 = nextNode pe.2.
Proof.
  destruct pe as [p e]. unfold destroyPortal. cbn [fst app].
  rewrite destroy_fold_env. reflexivity.
Qed.

Lemma reDraw_engine pe :
  hygienic pe ->
  bodies (physics (reDraw pe).2)
  = filter (fun b => body_owner b <> self pe.1) (bodies (physics pe.2))
    ++ portalBodies (self pe.1) (nextBody (physics pe.2))
  /\ nextBody (physics (reDraw pe).2) = (6 + nextBody (physics pe.2))%nat.
Proof.
  intros H. destruct (destroyPortal_bodies pe H) as (Hb & Hnb).
  assert (Hself : self (destroyPortal pe).1 = self pe.1)
    by apply self_of_core, destroyPortal_core.
  pose proof (createPortal_drawn (destroyPortal pe)) as Hd.
  unfold reDraw. unfold drawn in Hd. cbv zeta in Hd.
  set (q := destroyPortal pe) in *. set (r := createPortal q) in *. clearbody r q.
  rewrite Hb, Hnb, Hself in Hd.
  destruct (pointLight q.1); injection Hd as _ _ _ _ Hbs Hnb';
    split; assumption.
Qed.

Lemma lights_singleton p l :
  lights p = [l] -> filter (fun it => it.2 = TPointLight) (shape p) = [(l, TPointLight)].
Proof.
  unfold lights. intros H.
  destruct (filter (fun it => it.2 = TPointLight) (shape p)) as [|it [|it2 rest]] eqn:E;
    cbn in H; try discriminate.
  injection H as H.
  assert (Hin : it ∈ filter (fun it => it.2 = TPointLight) (shape p))
    by (rewrite E; apply list_elem_of_here).
  apply list_elem_of_filter in Hin as [Ht _].
  destruct it as [i t]. cbn [fst snd] in *. subst. reflexivity.
Qed.

Lemma lights_none p :
  lights p = [] -> filter (fun it => it.2 = TPointLight) (shape p) = [].
Proof.
  unfold lights. intros H.
  destruct (filter (fun it => it.2 = TPointLight) (shape p)); [reflexivity|discriminate].
Qed.

Ltac distinct_handles :=
  repeat (apply NoDup_cons_2;
          [rewrite ?not_elem_of_cons; repeat split; try lia; apply not_elem_of_nil|]);
  apply NoDup_nil_2.

(** A redraw of a portal that has its light. *)
Lemma reDraw_with_light pe l :
  tidy pe -> pointLight pe.1 = Some l ->
  let n := nextNode pe.2 in
  shape (reDraw pe).1
  = [(l, TPointLight); (n, TMesh); (S n, TMesh); (S (S n), TMesh); (S (S (S n)), TMesh);
     (S (S (S (S n))), TGroup); (S (S (S (S (S n)))), TGroup)]
  /\ pointLight (reDraw pe).1 = Some l
  /\ screwHeads (reDraw pe).1 = [S (S (S (S n))); S (S (S (S (S n))))]
  /\ nextNode (reDraw pe).2 = S (S (S (S (S (S n)))))
  /\ tidy (reDraw pe).
Proof.
  intros (Hnd & Hlt & Hli) Hl n. rewrite Hl in Hli.
  assert (Hs : shape (destroyPortal pe).1 = [(l, TPointLight)]).
  { rewrite destroyPortal_shape by exact Hnd. apply lights_singleton, Hli. }
  assert (Hl' : pointLight (destroyPortal pe).1 = Some l).
  { destruct pe as [p e]. unfold destroyPortal. cbn [fst app].
    destruct (destroy_fold_shape (children p) p e) as (_ & Hp & _). rewrite Hp. exact Hl. }
  assert (Hlt' : (l < n)%nat).
  { assert (Hin : (l, TPointLight) ∈ shape pe.1).
    { apply lights_singleton in Hli.
      assert (Hin : (l, TPointLight) ∈ filter (fun it => it.2 = TPointLight) (shape pe.1))
        by (rewrite Hli; apply list_elem_of_here).
      apply list_elem_of_filter in Hin as [_ Hin]. exact Hin. }
    rewrite Forall_forall in Hlt. apply (Hlt _ Hin). }
  pose proof (createPortal_drawn (destroyPortal pe)) as Hd.
  pose proof (destroyPortal_nextNode pe) as Hn'. fold n in Hn'.
  unfold drawn in Hd. cbv zeta in Hd. unfold reDraw.
  set (q := destroyPortal pe) in *. set (r := createPortal q) in *. clearbody r q.
  rewrite Hs, Hl', Hn' in Hd.
  injection Hd as Hsh Hpl Hscr _ _ _ Hnn.
  split; [exact Hsh|]. split; [exact Hpl|]. split; [exact Hscr|]. split; [exact Hnn|].
  unfold tidy, lights. rewrite Hsh, Hpl, Hnn. split; [|split; [|reflexivity]].
  - cbn [fmap list_fmap fst]. distinct_handles.
  - repeat constructor; cbn [fst]; lia.
Qed.

(** A redraw of a portal that has no light yet. *)
Lemma reDraw_without_light pe :
  tidy pe -> pointLight pe.1 = None ->
  let n := nextNode pe.2 in
  shape (reDraw pe).1
  = [(n, TMesh); (S n, TPointLight); (S (S n), TMesh); (S (S (S n)), TMesh);
     (S (S (S (S n))), TMesh);
     (S (S (S (S (S n)))), TGroup); (S (S (S (S (S (S n))))), TGroup)]
  /\ pointLight (reDraw pe).1 = Some (S n)
  /\ screwHeads (reDraw pe).1 = [S (S (S (S (S n)))); S (S (S (S (S (S n)))))]
  /\ nextNode (reDraw pe).2 = S (S (S (S (S (S (S n))))))
  /\ tidy (reDraw pe).
Proof.
  intros (Hnd & Hlt & Hli) Hl n. rewrite Hl in Hli.
  assert (Hs : shape (destroyPortal pe).1 = []).
  { rewrite destroyPortal_shape by exact Hnd. apply lights_none, Hli. }
  assert (Hl' : pointLight (destroyPortal pe).1 = None).
  { destruct pe as [p e]. unfold destroyPortal. cbn [fst app].
    destruct (destroy_fold_shape (children p) p e) as (_ & Hp & _). rewrite Hp. exact Hl. }
  pose proof (createPortal_drawn (destroyPortal pe)) as Hd.
  pose proof (destroyPortal_nextNode pe) as Hn'. fold n in Hn'.
  unfold drawn in Hd. cbv zeta in Hd. unfold reDraw.
  set (q := destroyPortal pe) in *. set (r := createPortal q) in *. clearbody r q.
  rewrite Hs, Hl', Hn' in Hd.
  injection Hd as Hsh Hpl Hscr _ _ _ Hnn.
  split; [exact Hsh|]. split; [exact Hpl|]. split; [exact Hscr|]. split; [exact Hnn|].
  unfold tidy, lights. rewrite Hsh, Hpl, Hnn. split; [|split; [|reflexivity]].
  - cbn [fmap list_fmap fst]. distinct_handles.
  - repeat constructor; cbn [fst]; lia.
Qed.

Lemma iter_reDraw_light pe l k :
  tidy pe -> pointLight pe.1 = Some l ->
  exists n, (nextNode pe.2 <= n)%nat
    /\ shape (Nat.iter (S k) reDraw pe).1
       = [(l, TPointLight); (n, TMesh); (S n, TMesh); (S (S n), TMesh);
          (S (S (S n)), TMesh); (S (S (S (S n))), TGroup); (S (S (S (S (S n)))), TGroup)]
    /\ pointLight (Nat.iter (S k) reDraw pe).1 = Some l
    /\ screwHeads (Nat.iter (S k) reDraw pe).1 = [S (S (S (S n))); S (S (S (S (S n))))]
    /\ nextNode (Nat.iter (S k) reDraw pe).2 = S (S (S (S (S (S n)))))
    /\ tidy (Nat.iter (S k) reDraw pe).
Proof.
  intros Ht Hl. induction k as [|k IH].
  - exists (nextNode pe.2). split; [lia|]. apply (reDraw_with_light pe l Ht Hl).
  - destruct IH as (n & Hn & _ & Hl' & _ & Hnn & Ht').
    exists (S (S (S (S (S (S n)))))). split; [lia|].
    change (Nat.iter (S (S k)) reDraw pe) with (reDraw (Nat.iter (S k) reDraw pe)).
    rewrite <- Hnn. apply (reDraw_with_light _ l Ht' Hl').
Qed.

(** A portal constructed into an empty world is tidy, and its light is
    node 1. *)
Lemma constructed_tidy :
  tidy (createPortal (portalAt 1 0, env0))
  /\ pointLight (createPortal (portalAt 1 0, env0)).1 = Some 1%nat.
Proof.
  assert (Ht : tidy (portalAt 1 0, env0)).
  { split; [apply NoDup_nil_2|split; [apply Forall_nil_2|reflexivity]]. }
  destruct (reDraw_without_light _ Ht eq_refl) as (_ & Hl & _ & _ & Ht').
  split; [exact Ht'|exact Hl].
Qed.

Lemma filter_owner_portalBodies me nb :
  filter (fun b => body_owner b = me) (portalBodies me nb) = portalBodies me nb.
Proof. apply filter_all. unfold portalBodies. repeat constructor. Qed.

Lemma filter_other_portalBodies o me nb :
  o <> me -> filter (fun b => body_owner b = o) (portalBodies me nb) = [].
Proof.
  intros Ho. apply filter_none. unfold portalBodies.
  repeat constructor; cbn [body_owner]; congruence.
Qed.

(** X21. A redraw replaces the portal's bodies and touches no others. After
    a redraw of a hygienic portal the engine holds for it exactly six new
    bodies, two circles and four boxes with handles from the engine's
    allocator on, of which the last alone carries the collision hook; the
    bodies of every other owner are as they were. *)
Theorem X21_redraw_replaces_own_bodies pe :
  hygienic pe ->
  ownedBodies (self pe.1) (physics (reDraw pe).2)
  = portalBodies (self pe.1) (nextBody (physics pe.2))
  /\ (forall o, o <> self pe.1 ->
      ownedBodies o (physics (reDraw pe).2) = ownedBodies o (physics pe.2))
  /\ filter (fun b => body_hook b = true) (ownedBodies (self pe.1) (physics (reDraw pe).2))
     = [mkBody (5 + nextBody (physics pe.2)) (self pe.1) Box true]
  /\ nextBody (physics (reDraw pe).2) = (6 + nextBody (physics pe.2))%nat.
Proof.
  intros H. destruct (reDraw_engine pe H) as (Hb & Hnb).
  assert (Hown : ownedBodies (self pe.1) (physics (reDraw pe).2)
                 = portalBodies (self pe.1) (nextBody (physics pe.2))).
  { unfold ownedBodies. rewrite Hb, filter_app, list_filter_filter.
    rewrite filter_none by (apply Forall_forall; intros a _ [H1 H2]; contradiction).
    rewrite filter_owner_portalBodies. reflexivity. }
  split; [exact Hown|]. split; [|split; [|exact Hnb]].
  - intros o Ho. unfold ownedBodies. rewrite Hb, filter_app, list_filter_filter.
    rewrite filter_other_portalBodies by exact Ho. rewrite app_nil_r.
    apply list_filter_iff. intros a. split; [tauto|]. intros Ha. split; [exact Ha|].
    congruence.
  - rewrite Hown. reflexivity.
Qed.

Lemma X21_redraw_replaces_own_bodies_witness :
  hygienic (createPortal (portalAt 1 0, env0))
  /\ ownedBodies 1 (physics (reDraw (createPortal (portalAt 1 0, env0))).2)
     = portalBodies 1 6.
Proof.
  split; [exact constructed_hygienic|].
  apply (proj1 (X21_redraw_replaces_own_bodies (createPortal (portalAt 1 0, env0))
                  constructed_hygienic)).
Defined.

(** X22. The light is created once. Once a tidy portal has its light, every
    redraw leaves the group with seven children: that same light first,
    then four new meshes and two new screw-head pivots with consecutive
    identities; the light the portal remembers is unchanged and the group
    stays tidy, so the number of children does not grow. *)
Theorem X22_redraw_keeps_the_light pe l k :
  tidy pe -> pointLight pe.1 = Some l ->
  exists n, (nextNode pe.2 <= n)%nat
    /\ shape (Nat.iter (S k) reDraw pe).1
       = [(l, TPointLight); (n, TMesh); (S n, TMesh); (S (S n), TMesh);
          (S (S (S n)), TMesh); (S (S (S (S n))), TGroup); (S (S (S (S (S n)))), TGroup)]
    /\ pointLight (Nat.iter (S k) reDraw pe).1 = Some l
    /\ lights (Nat.iter (S k) reDraw pe).1 = [l]
    /\ screwHeads (Nat.iter (S k) reDraw pe).1 = [S (S (S (S n))); S (S (S (S (S n))))]
    /\ tidy (Nat.iter (S k) reDraw pe).
Proof.
  intros Ht Hl. destruct (iter_reDraw_light pe l k Ht Hl) as (n & Hn & Hs & Hp & Hh & _ & Ht').
  exists n. split; [exact Hn|]. split; [exact Hs|]. split; [exact Hp|].
  split; [|split; [exact Hh|exact Ht']].
  unfold lights. rewrite Hs. reflexivity.
Qed.

Lemma X22_redraw_keeps_the_light_witness :
  exists n, (nextNode (createPortal (portalAt 1 0, env0)).2 <= n)%nat
    /\ shape (Nat.iter 3 reDraw (createPortal (portalAt 1 0, env0))).1
       = [(1%nat, TPointLight); (n, TMesh); (S n, TMesh); (S (S n), TMesh);
          (S (S (S n)), TMesh); (S (S (S (S n))), TGroup); (S (S (S (S (S n)))), TGroup)]
    /\ pointLight (Nat.iter 3 reDraw (createPortal (portalAt 1 0, env0))).1 = Some 1%nat
    /\ lights (Nat.iter 3 reDraw (createPortal (portalAt 1 0, env0))).1 = [1%nat]
    /\ screwHeads (Nat.iter 3 reDraw (createPortal (portalAt 1 0, env0))).1
       = [S (S (S (S n))); S (S (S (S (S n))))]
    /\ tidy (Nat.iter 3 reDraw (createPortal (portalAt 1 0, env0))).
Proof.
  apply (X22_redraw_keeps_the_light (createPortal (portalAt 1 0, env0)) 1 2
           (proj1 constructed_tidy) (proj2 constructed_tidy)).
Defined.

(** X23. The first draw. Drawing a portal whose group is empty and that has
    no light yet gives the torus, the light, the mist, the tube, the back
    and the two screw-head pivots, in this order and with consecutive new
    identities; the light is the second child. After any number of redraws
    the portal still remembers this light, it is the only light of the
    group, and the group has seven children. *)
Theorem X23_first_draw_then_redraws pe k :
  children pe.1 = [] -> pointLight pe.1 = None ->
  let n := nextNode pe.2 in
  shape (createPortal pe).1
  = [(n, TMesh); (S n, TPointLight); (S (S n), TMesh); (S (S (S n)), TMesh);
     (S (S (S (S n))), TMesh);
     (S (S (S (S (S n)))), TGroup); (S (S (S (S (S (S n))))), TGroup)]
  /\ screwHeads (createPortal pe).1 = [S (S (S (S (S n)))); S (S (S (S (S (S n)))))]
  /\ pointLight (Nat.iter k reDraw (createPortal pe)).1 = Some (S n)
  /\ lights (Nat.iter k reDraw (createPortal pe)).1 = [S n]
  /\ length (children (Nat.iter k reDraw (createPortal pe)).1) = 7%nat.
Proof.
  intros Hc Hl n.
  assert (Ht : tidy pe).
  { unfold tidy, lights, shape. rewrite Hc, Hl.
    split; [apply NoDup_nil_2|split; [apply Forall_nil_2|reflexivity]]. }
  assert (Hr : reDraw pe = createPortal pe).
  { unfold reDraw, destroyPortal. rewrite Hc. reflexivity. }
  destruct (reDraw_without_light pe Ht Hl) as (Hs & Hp & Hh & _ & Ht').
  rewrite Hr in Hs, Hp, Hh, Ht'. fold n in Hs, Hp, Hh.
  split; [exact Hs|]. split; [exact Hh|].
  assert (Hlen : forall q, length (children q) = length (shape q))
    by (intros q; unfold shape; rewrite length_fmap; reflexivity).
  destruct k as [|k].
  - change (Nat.iter 0 reDraw (createPortal pe)) with (createPortal pe).
    split; [exact Hp|]. unfold lights. rewrite Hlen, Hs.
    split; reflexivity.
  - destruct (iter_reDraw_light (createPortal pe) (S n) k Ht' Hp)
      as (m & _ & Hs' & Hp' & _).
    split; [exact Hp'|]. unfold lights. rewrite Hlen, Hs'. split; reflexivity.
Qed.

Lemma X23_first_draw_then_redraws_witness :
  shape (createPortal (portalAt 1 0, env0)).1
  = [(0%nat, TMesh); (1%nat, TPointLight); (2%nat, TMesh); (3%nat, TMesh);
     (4%nat, TMesh); (5%nat, TGroup); (6%nat, TGroup)]
  /\ screwHeads (createPortal (portalAt 1 0, env0)).1 = [5%nat; 6%nat]
  /\ pointLight (Nat.iter 4 reDraw (createPortal (portalAt 1 0, env0))).1 = Some 1%nat
  /\ lights (Nat.iter 4 reDraw (createPortal (portalAt 1 0, env0))).1 = [1%nat]
  /\ length (children (Nat.iter 4 reDraw (createPortal (portalAt 1 0, env0))).1) = 7%nat.
Proof.
  apply (X23_first_draw_then_redraws (portalAt 1 0, env0) 4); reflexivity.
Defined.

(** *** The screw heads *)

Lemma createPortal_screwHeads pe :
  exists a, screwHeads (createPortal pe).1 = [a; S a].
Proof.
  pose proof (createPortal_drawn pe) as Hd. unfold drawn in Hd. cbv zeta in Hd.
  set (r := createPortal pe) in *. clearbody r.
  destruct (pointLight pe.1); injection Hd as _ _ Hscr _ _ _ _; eexists; exact Hscr.
Qed.

Lemma onDownScrewHead_pair getWorldPosition sh pos p a b :
  screwHeads p = [a; b] -> a <> b ->
  exists q,
    onDownScrewHead getWorldPosition sh pos p = Ok q
    /\ rotationPoint q = Some (getWorldPosition (if decide (sh = a) then b else a))
    /\ core (with_pivot None 0 q) = core (with_pivot None 0 p).
Proof.
  intros Hscr Hab. unfold onDownScrewHead. rewrite Hscr. cbn [find].
  destruct (decide (sh = a)) as [->|Hne].
  - rewrite bool_decide_true by reflexivity.
    rewrite bool_decide_false by (intros E; apply Hab; symmetry; exact E).
    cbn [negb]. eexists. split; [reflexivity|]. split; reflexivity.
  - rewrite bool_decide_false by (intros E; apply Hne; symmetry; exact E).
    cbn [negb]. eexists. split; [reflexivity|]. split; reflexivity.
Qed.

(** X24. The pivot is the other screw head. A drawn portal has two distinct
    screw heads; pressing either of them completes and remembers the world
    position of the other one as the rotation point (pressed with a node
    that is no screw head of the portal, it remembers that of the first),
    and a move that follows does not throw. A move on a portal that has no
    rotation point throws. *)
Theorem X24_pivot_is_the_other_screw_head getWorldPosition pos pe :
  exists a b, screwHeads (createPortal pe).1 = [a; b] /\ a <> b
    /\ (forall sh, exists q,
         onDownScrewHead getWorldPosition sh pos (createPortal pe).1 = Ok q
         /\ rotationPoint q = Some (getWorldPosition (if decide (sh = a) then b else a))
         /\ core (with_pivot None 0 q) = core (with_pivot None 0 (createPortal pe).1)
         /\ forall pos' e, onMoveScrewHead pos' (q, e) <> TypeError)
    /\ (forall p pos' e, rotationPoint p = None -> onMoveScrewHead pos' (p, e) = TypeError).
Proof.
  destruct (createPortal_screwHeads pe) as (a & Hscr). exists a, (S a).
  split; [exact Hscr|]. split; [lia|]. split.
  - intros sh.
    destruct (onDownScrewHead_pair getWorldPosition sh pos _ a (S a) Hscr ltac:(lia))
      as (q & Hq & Hrp & Hc).
    exists q. split; [exact Hq|]. split; [exact Hrp|]. split; [exact Hc|].
    intros pos' e. unfold onMoveScrewHead. rewrite Hrp. discriminate.
  - intros p pos' e Hp. unfold onMoveScrewHead. rewrite Hp. reflexivity.
Qed.

(** What a redraw keeps, and where it poses the group. *)
Lemma reDraw_fields pe :
  x (reDraw pe).1 = x pe.1 /\ y (reDraw pe).1 = y pe.1
  /\ rotation (reDraw pe).1 = rotation pe.1
  /\ brokerConnection (reDraw pe).1 = brokerConnection pe.1
  /\ connected (reDraw pe).1 = connected pe.1
  /\ rotationPoint (reDraw pe).1 = rotationPoint pe.1
  /\ rotationAdjustment (reDraw pe).1 = rotationAdjustment pe.1
  /\ group_rotation_z (reDraw pe).1 = rotation pe.1
  /\ group_position (reDraw pe).1 = mkVec3 (x pe.1) (y pe.1) 0.
Proof.
  pose proof (reDraw_core pe) as Hc. unfold core in Hc.
  pose proof (reDraw_group_rotation pe) as Hg.
  assert (Hpos : group_position (reDraw pe).1 = mkVec3 (x pe.1) (y pe.1) 0).
  { unfold reDraw. rewrite createPortal_group_position.
    pose proof (destroyPortal_core pe) as Hd. unfold core in Hd.
    set (q := destroyPortal pe) in *. clearbody q.
    injection Hd as _ _ _ Hx' Hy' _ _ _ _ _ _ _ _ _ _ _ _. rewrite Hx', Hy'. reflexivity. }
  set (r := reDraw pe) in *. clearbody r.
  injection Hc as _ _ _ Hx Hy Hr _ _ _ _ _ _ Hbc Hcn _ Hp Ha.
  repeat split; assumption.
Qed.

Lemma with_pivot_hygienic rp adj pe :
  hygienic pe -> hygienic (with_pivot rp adj pe.1, pe.2).
Proof. intros H. eapply hygienic_ext; [| | |exact H]; reflexivity. Qed.

(** X26. A pivot move keeps the rotation within one turn. A move of a screw
    head of a hygienic portal that has a rotation point completes; the
    rotation it stores lies strictly between minus and plus 2 PI, the group
    is posed at the stored position and rotation, the portal stays
    hygienic, and rotation point, correction and connection are as they
    were. *)
Theorem X26_pivot_move_normalises_rotation pos pe rp :
  rotationPoint pe.1 = Some rp -> hygienic pe ->
  exists r, onMoveScrewHead pos pe = Ok r
    /\ - (2 * PI) < rotation r.1 < 2 * PI
    /\ rotation r.1 = rem (bearing rp pos + rotationAdjustment pe.1) (PI * 2)
    /\ group_rotation_z r.1 = rotation r.1
    /\ group_position r.1 = mkVec3 (x r.1) (y r.1) 0
    /\ hygienic r
    /\ rotationPoint r.1 = Some rp
    /\ rotationAdjustment r.1 = rotationAdjustment pe.1
    /\ brokerConnection r.1 = brokerConnection pe.1
    /\ connected r.1 = connected pe.1.
Proof.
  destruct pe as [p e]. cbn [fst snd]. intros Hrp Hh.
  unfold onMoveScrewHead. rewrite Hrp. eexists. split; [reflexivity|].
  match goal with |- context [reDraw ?a] => set (pe1 := a) end.
  destruct (reDraw_fields pe1) as (Hx & Hy & Hr & Hbc & Hcn & Hp & Ha & Hg & Hpos).
  assert (Hh1 : hygienic pe1).
  { eapply hygienic_ext; [| | |exact Hh]; reflexivity. }
  pose proof (proj1 (reDraw_hygienic pe1 Hh1)) as Hh2.
  set (r := reDraw pe1) in *. clearbody r.
  rewrite Hr, Hx, Hy, Hg, Hpos, Hbc, Hcn, Hp, Ha.
  unfold pe1. cbn [fst rotation with_rotation with_xy rotationPoint rotationAdjustment
                   brokerConnection connected].
  split; [|split; [reflexivity|]].
  { pose proof (rem_bound (bearing rp pos + rotationAdjustment p) (PI * 2)) as Hb.
    pose proof PI_lower. lra. }
  split; [reflexivity|]. split; [reflexivity|].
  split; [exact Hh2|].
  repeat split; assumption || reflexivity.
Qed.

Lemma X26_pivot_move_normalises_rotation_witness :
  exists r,
    onMoveScrewHead (mkVec3 0 (-1) 0)
      (with_pivot (Some vzero) 0 (createPortal (portalAt 1 0, env0)).1,
       (createPortal (portalAt 1 0, env0)).2) = Ok r
    /\ - (2 * PI) < rotation r.1 < 2 * PI.
Proof.
  generalize constructed_hygienic. generalize (createPortal (portalAt 1 0, env0)).
  intros pe Hc.
  assert (Hh : hygienic (with_pivot (Some vzero) 0 pe.1, pe.2))
    by apply with_pivot_hygienic, Hc.
  assert (Hp : rotationPoint (with_pivot (Some vzero) 0 pe.1, pe.2).1 = Some vzero)
    by reflexivity.
  destruct (X26_pivot_move_normalises_rotation (mkVec3 0 (-1) 0)
              (with_pivot (Some vzero) 0 pe.1, pe.2) vzero Hp Hh)
    as (r & Hr & Hb & _).
  exists r. split; assumption.
Defined.

(** X27. A drag moves the group. A drag of a hygienic portal by a
    displacement adds it to the stored position, redraws the group at the
    new position with the stored rotation, and leaves the portal hygienic
    with its rotation and connection untouched; two drags in a row move it
    by the sum of the displacements. *)
Theorem X27_drag_moves_the_group d d' pe :
  hygienic pe ->
  x (onMove d pe).1 = x pe.1 + px d
  /\ y (onMove d pe).1 = y pe.1 + py d
  /\ group_position (onMove d pe).1 = mkVec3 (x pe.1 + px d) (y pe.1 + py d) 0
  /\ group_rotation_z (onMove d pe).1 = rotation pe.1
  /\ rotation (onMove d pe).1 = rotation pe.1
  /\ brokerConnection (onMove d pe).1 = brokerConnection pe.1
  /\ hygienic (onMove d pe)
  /\ group_position (onMove d' (onMove d pe)).1
     = mkVec3 (x pe.1 + px (vadd d d')) (y pe.1 + py (vadd d d')) 0.
Proof.
  intros Hh.
  assert (Hstep : forall d pe,
    x (onMove d pe).1 = x pe.1 + px d
    /\ y (onMove d pe).1 = y pe.1 + py d
    /\ group_position (onMove d pe).1 = mkVec3 (x pe.1 + px d) (y pe.1 + py d) 0
    /\ group_rotation_z (onMove d pe).1 = rotation pe.1
    /\ rotation (onMove d pe).1 = rotation pe.1
    /\ brokerConnection (onMove d pe).1 = brokerConnection pe.1).
  { clear. intros d pe. unfold onMove.
    match goal with |- context [reDraw ?a] => set (pe1 := a) end.
    destruct (reDraw_fields pe1) as (Hx & Hy & Hr & Hbc & _ & _ & _ & Hg & Hpos).
    set (r := reDraw pe1) in *. clearbody r.
    rewrite Hx, Hy, Hr, Hbc, Hg, Hpos. unfold pe1.
    cbn [fst x y rotation brokerConnection with_xy]. repeat split. }
  destruct (Hstep d pe) as (Hx & Hy & Hpos & Hg & Hr & Hbc).
  split; [exact Hx|]. split; [exact Hy|]. split; [exact Hpos|]. split; [exact Hg|].
  split; [exact Hr|]. split; [exact Hbc|]. split.
  - unfold onMove. apply reDraw_hygienic.
    eapply hygienic_ext; [| | |exact Hh]; reflexivity.
  - destruct (Hstep d' (onMove d pe)) as (_ & _ & Hpos' & _).
    rewrite Hpos', Hx, Hy. destruct d, d'. cbn [vadd px py]. f_equal; lra.
Qed.

Lemma X27_drag_moves_the_group_witness :
  hygienic (createPortal (portalAt 1 0, env0))
  /\ x (onMove (mkVec3 1 2 0) (createPortal (portalAt 1 0, env0))).1
     = x (createPortal (portalAt 1 0, env0)).1 + 1.
Proof.
  split; [exact constructed_hygienic|].
  apply (proj1 (X27_drag_moves_the_group (mkVec3 1 2 0) (mkVec3 0 0 0)
                  (createPortal (portalAt 1 0, env0)) constructed_hygienic)).
Defined.

End GeometryMore.

(** ** The selection manager: entities shown as selected *)

Module SelectionInvariant.
Import JsNum Geometry UISelection SelectionSamples SelectionObs MoreSamples
  SelectionProps SelectionMore SessionMore.








(** The same through [selectObject] called directly: nothing releases
    entity 1 when entity 2 is selected. *)
Lemma select_twice_shows_two :
  shownSelected (run [OpSelect (Some 1%nat); OpSelect (Some 2%nat)] highlightScene) 1
  /\ shownSelected (run [OpSelect (Some 1%nat); OpSelect (Some 2%nat)] highlightScene) 2
  /\ holdsPersistentSelection
       (run [OpSelect (Some 1%nat); OpSelect (Some 2%nat)] highlightScene) 2
  /\ unselectedCalls 1 (run [OpSelect (Some 1%nat); OpSelect (Some 2%nat)] highlightScene)
     = 0%nat.
Proof.
  split; [split; [reflexivity|eexists _, _; repeat split]|].
  split; [split; [reflexivity|eexists _, _; repeat split]|].
  split; [split; reflexivity|reflexivity].
Qed.



End SelectionInvariant.
